(** * Storefront home page: product list derivation, cart store, catalog fetch

    A shallow embedding of the logic of [app/page.tsx]:
    - the derived product list [visibleProducts] (search, category filter, sort);
    - the cart handlers [handleAddToCart], [handleUpdateQty], [handleRemove],
      [handleClearCart], and the drawer's [subtotal];
    - the two [localStorage] effects (hydration and persistence of the cart);
    - [fetchProductsFromApi] with its fallback to [SAMPLE_PRODUCTS];
    - the rest of the page: the [categories] memo, the count on the cart
      button, the clicks that change the cart, the effect that loads the
      products;
    - the footer's newsletter form ([EMAIL_REGEX], [handleSubmit]) and the
      header's search form ([handleSearchSubmit]).

    Modelling conventions.
    - A JavaScript [number] that holds a price or a rating is an exact rational
      ([Q]); a quantity or a count is an integer ([Z]).  Where the difference
      from a binary64 number shows, the code is embedded a second time: the
      drawer's subtotal, the cart handlers, the count and the drawer's
      buttons on the kernel's IEEE 754 floats ([subtotal_binary64], module
      [Binary64]), and the product list over prices and rates that can be
      [NaN] (module [WithNaN]).  On the integers from 0 to 2^53 the
      additions, subtractions and comparisons of the two carts are proved to
      agree.
    - Strings are [string]s of 8-bit characters; [toLowerCase] and [trim] are
      the built-ins restricted to ASCII.
    - Arrays are lists.  Where in-place mutation matters ([Array.prototype.sort]
      works in place) the arrays live in a store indexed by references.
    - Code that can throw returns a [result]; [try]/[catch] is [try_catch]. *)

From stdpp Require Import base gmap list strings.
From Stdlib Require Import Ascii QArith PrimFloat Floats Permutation Sorted.

Set Warnings "-inexact-float,-register-all".

(** ** Exceptions *)

Inductive exn : Type :=
  | TypeError
  | SyntaxError
  | URIError
  | DOMException
  | Error (message : string).

Inductive result (A : Type) : Type :=
  | Ok (a : A)
  | Throw (e : exn).
Arguments Ok {A} a.
Arguments Throw {A} e.

#[global] Instance result_ret : MRet result := λ A a, Ok a.
#[global] Instance result_bind : MBind result := λ A B f m,
  match m with
  | Ok a => f a
  | Throw e => Throw e
  end.

(** [try { body } catch (e) { handler }] *)
Definition try_catch {A} (body : result A) (handler : exn → result A) : result A :=
  match body with
  | Ok a => Ok a
  | Throw e => handler e
  end.

(** ** Strings: the built-ins the page calls *)

Definition is_upper (c : ascii) : bool :=
  (65 <=? nat_of_ascii c)%nat && (nat_of_ascii c <=? 90)%nat.

Definition lower_char (c : ascii) : ascii :=
  if is_upper c then ascii_of_nat (nat_of_ascii c + 32) else c.

(** [String.prototype.toLowerCase] *)
Fixpoint toLowerCase (s : string) : string :=
  match s with
  | EmptyString => EmptyString
  | String c s' => String (lower_char c) (toLowerCase s')
  end.

(** White space of [String.prototype.trim]: TAB, LF, VT, FF, CR, SP. *)
Definition is_space (c : ascii) : bool :=
  let n := nat_of_ascii c in
  ((9 <=? n)%nat && (n <=? 13)%nat) || (n =? 32)%nat.

Fixpoint trimStart (s : string) : string :=
  match s with
  | EmptyString => EmptyString
  | String c s' => if is_space c then trimStart s' else s
  end.

Fixpoint trimEnd (s : string) : string :=
  match s with
  | EmptyString => EmptyString
  | String c s' =>
      match trimEnd s' with
      | EmptyString => if is_space c then EmptyString else String c EmptyString
      | t => String c t
      end
  end.

(** [String.prototype.trim] *)
Definition trim (s : string) : string := trimEnd (trimStart s).

(** Truthiness of a string in a condition: every string but the empty one. *)
Definition truthy (s : string) : bool :=
  match s with
  | EmptyString => false
  | String _ _ => true
  end.

(** [s.includes(q)]: [q] occurs in [s] at some position. *)
Fixpoint includes (s q : string) : bool :=
  String.prefix q s ||
  match s with
  | EmptyString => false
  | String _ s' => includes s' q
  end.

(** ** Data model ([Product], [CartItem]) *)

(** A number that results from a conversion can be [NaN]. *)
Inductive number : Type := NaN | Num (q : Q).

Record ProductRating : Type := { rate : Q; count : Z }.

Record Product : Type := {
  id : string;
  title : string;
  description : string;
  price : Q;
  image : option string;
  category : option string;
  rating : option ProductRating;
}.

Record CartItem : Type := { product : Product; quantity : Z }.

Abbreviation Cart := (list CartItem).

(** ** Sample data fallback *)

Definition wallet : Product :=
  {| id := "p1";
     title := "Minimal Leather Wallet";
     description := "Handcrafted full-grain leather wallet with RFID protection.";
     price := 49.0;
     category := Some "Accessories";
     image := Some "/products/wallet.jpg";
     rating := Some {| rate := 4.6; count := 132 |} |}.

Definition tshirt : Product :=
  {| id := "p2";
     title := "Cotton Crew T-Shirt";
     description := "Soft, breathable cotton tee with modern fit.";
     price := 19.99;
     category := Some "Clothing";
     image := Some "/products/tshirt.jpg";
     rating := Some {| rate := 4.3; count := 210 |} |}.

Definition headphones : Product :=
  {| id := "p3";
     title := "Wireless Headphones";
     description := "Noise-cancelling over-ear headphones with 30h battery.";
     price := 129.0;
     category := Some "Electronics";
     image := Some "/products/headphones.jpg";
     rating := Some {| rate := 4.7; count := 540 |} |}.

Definition mug : Product :=
  {| id := "p4";
     title := "Ceramic Coffee Mug";
     description := "350ml mug, dishwasher safe with matte finish.";
     price := 12.5;
     category := Some "Home";
     image := Some "/products/mug.jpg";
     rating := Some {| rate := 4.5; count := 88 |} |}.

Definition SAMPLE_PRODUCTS : list Product := [wallet; tshirt; headphones; mug].

Definition CART_STORAGE_KEY : string := "ecom_cart_v1".

(** ** Cart drawer: the subtotal *)

(** [cart.reduce((sum, item) => sum + item.product.price * item.quantity, 0)] *)
Definition subtotal (cart : Cart) : Q :=
  fold_left (λ sum item, sum + price (product item) * inject_Z (quantity item))%Q cart 0%Q.

(** The same reduction on binary64 numbers, each item given as its
    (price, quantity) pair. *)
Definition subtotal_binary64 (cart : list (float * float)) : float :=
  fold_left (λ sum item, sum + fst item * snd item)%float cart 0%float.

(** ** Cart handlers *)

(** [Array.prototype.findIndex]: the first index whose element satisfies the
    predicate, or -1. *)
Fixpoint findIndex_from {A} (predicate : A → bool) (l : list A) (i : Z) : Z :=
  match l with
  | [] => (-1)%Z
  | x :: l' => if predicate x then i else findIndex_from predicate l' (i + 1)%Z
  end.

Definition findIndex {A} (predicate : A → bool) (l : list A) : Z :=
  findIndex_from predicate l 0%Z.

(** The state updater of [handleAddToCart]: from [prev] to the next cart
    (the default [qty = 1] is supplied by the caller).  Reading
    [copy[idx].quantity] at an index with no element would raise a
    TypeError. *)
Definition handleAddToCart (product0 : Product) (qty : Z) (prev : Cart) : result Cart :=
  let idx := findIndex (λ it, String.eqb (id (product it)) (id product0)) prev in
  if (0 <=? idx)%Z then
    let copy := prev in
    match copy !! Z.to_nat idx with
    | Some it =>
        Ok (<[Z.to_nat idx := {| product := product it; quantity := (quantity it + qty)%Z |}]> copy)
    | None => Throw TypeError
    end
  else Ok (prev ++ [{| product := product0; quantity := qty |}]).

(** The state updater of [handleUpdateQty]. *)
Definition handleUpdateQty (productId : string) (quantity0 : Z) (prev : Cart) : Cart :=
  List.filter (λ it, (0 <? quantity it)%Z)
    (map (λ it, if String.eqb (id (product it)) productId
                then {| product := product it; quantity := quantity0 |}
                else it) prev).

(** The state updater of [handleRemove]. *)
Definition handleRemove (productId : string) (prev : Cart) : Cart :=
  List.filter (λ it, negb (String.eqb (id (product it)) productId)) prev.

(** [handleClearCart] sets the cart to the empty array. *)
Definition handleClearCart : Cart := [].

(** ** [Array.prototype.sort] *)

(** The built-in sort is stable; with a comparator that orders consistently
    it is modelled by stable insertion: each element, taken from the right end
    of the array towards the left, is placed before the first element it does
    not compare greater than. *)
Section ArraySort.
Context {A : Type} (compareFn : A → A → Q).

Fixpoint sort_insert (a : A) (sorted : list A) : list A :=
  match sorted with
  | [] => [a]
  | b :: rest =>
      if Qle_bool (compareFn a b) 0 then a :: sorted else b :: sort_insert a rest
  end.

Definition sort (l : list A) : list A := foldr sort_insert [] l.
End ArraySort.

(** ** The derived product list *)

Inductive SortKey : Type := featured | price_asc | price_desc | by_rating.

(** [p.rating?.rate ?? 0] *)
Definition rating_rate (p : Product) : Q :=
match rating p with
| Some r => rate r
| None => 0
end.

(** [p.category === category] *)
Definition category_is (selected : string) (p : Product) : bool :=
match category p with
| Some c => String.eqb c selected
| None => false
end.

(** The search predicate, [q] being the lower-cased search text. *)
Definition matches (q : string) (p : Product) : bool :=
includes (toLowerCase (title p)) q || includes (toLowerCase (description p)) q.

(** The body of the [visibleProducts] memo, arrays as values: [slice] and
  [filter] return new arrays and [sort] reorders the local one. *)
Definition visibleProducts (products : list Product) (search selected : string)
  (sortBy : SortKey) : list Product :=
let list0 := products in
let list1 :=
  if truthy (trim search)
  then let q := toLowerCase search in List.filter (matches q) list0
  else list0 in
let list2 :=
  if negb (String.eqb selected "All")
  then List.filter (category_is selected) list1
  else list1 in
match sortBy with
| price_asc => sort (λ a b, price a - price b)%Q list2
| price_desc => sort (λ a b, price b - price a)%Q list2
| by_rating => sort (λ a b, rating_rate b - rating_rate a)%Q list2
| featured => list2
end.

(** *** The same memo over a store of arrays

  Arrays are objects: a variable holds a reference, [slice] and [filter]
  allocate, [sort] overwrites the array it is called on. *)
Module Store.

Abbreviation ref := nat (only parsing).
Abbreviation store := (gmap nat (list Product)) (only parsing).

(** A computation reads and writes the store and may hit a dangling
    reference. *)
Definition M (A : Type) : Type := store → option (A * store).

Definition ret {A} (a : A) : M A := λ h, Some (a, h).
Definition bind {A B} (m : M A) (k : A → M B) : M B :=
  λ h, match m h with
       | Some (a, h') => k a h'
       | None => None
       end.

Definition alloc (a : list Product) : M ref :=
  λ h, let r := fresh (dom h) in Some (r, <[r := a]> h).

Definition slice (r : ref) : M ref :=
  λ h, match h !! r with
       | Some a => alloc a h
       | None => None
       end.

Definition filter (predicate : Product → bool) (r : ref) : M ref :=
  λ h, match h !! r with
       | Some a => alloc (List.filter predicate a) h
       | None => None
       end.

Definition sort_in_place (compareFn : Product → Product → Q) (r : ref) : M ref :=
  λ h, match h !! r with
       | Some a => Some (r, <[r := sort compareFn a]> h)
       | None => None
       end.

Definition visibleProducts (products : ref) (search selected : string)
    (sortBy : SortKey) : M ref :=
  bind (slice products) (λ list0,
  bind (if truthy (trim search)
        then let q := toLowerCase search in filter (matches q) list0
        else ret list0) (λ list1,
  bind (if negb (String.eqb selected "All")
        then filter (category_is selected) list1
        else ret list1) (λ list2,
  match sortBy with
  | price_asc => sort_in_place (λ a b, price a - price b)%Q list2
  | price_desc => sort_in_place (λ a b, price b - price a)%Q list2
  | by_rating => sort_in_place (λ a b, rating_rate b - rating_rate a)%Q list2
  | featured => ret list2
  end))).

End Store.

(** *** The same memo over numbers that can be [NaN]

    [Number(p.price ?? 0)] makes the price of a fetched product [NaN] when
    the response's price does not read as a number.  The memo is the same
    code; what changes is the arithmetic of the comparators. *)
Module WithNaN.

Record ProductRating : Type := { rate : number; count : Z }.

Record Product : Type := {
  id : string;
  title : string;
  description : string;
  price : number;
  image : option string;
  category : option string;
  rating : option ProductRating;
}.

(** [a - b] *)
Definition minus (a b : number) : number :=
  match a, b with
  | Num x, Num y => Num (x - y)
  | _, _ => NaN
  end.

(** What [sort] makes of the comparator's result [v]: "if [v] is [NaN],
    return +0". *)
Definition SortCompare (v : number) : Q :=
  match v with
  | NaN => 0
  | Num q => q
  end.

(** [p.rating?.rate ?? 0] *)
Definition rating_rate (p : Product) : number :=
  match rating p with
  | Some r => rate r
  | None => Num 0
  end.

Definition category_is (selected : string) (p : Product) : bool :=
  match category p with
  | Some c => String.eqb c selected
  | None => false
  end.

Definition matches (q : string) (p : Product) : bool :=
  includes (toLowerCase (title p)) q || includes (toLowerCase (description p)) q.

Definition visibleProducts (products : list Product) (search selected : string)
    (sortBy : SortKey) : list Product :=
  let list0 := products in
  let list1 :=
    if truthy (trim search)
    then let q := toLowerCase search in List.filter (matches q) list0
    else list0 in
  let list2 :=
    if negb (String.eqb selected "All")
    then List.filter (category_is selected) list1
    else list1 in
  match sortBy with
  | price_asc => sort (λ a b, SortCompare (minus (price a) (price b))) list2
  | price_desc => sort (λ a b, SortCompare (minus (price b) (price a))) list2
  | by_rating => sort (λ a b, SortCompare (minus (rating_rate b) (rating_rate a))) list2
  | featured => list2
  end.

End WithNaN.

(** A [Product] whose numbers are all proper numbers, among those. *)
Definition with_numbers (p : Product) : WithNaN.Product :=
  {| WithNaN.id := id p;
     WithNaN.title := title p;
     WithNaN.description := description p;
     WithNaN.price := Num (price p);
     WithNaN.image := image p;
     WithNaN.category := category p;
     WithNaN.rating :=
       (λ r, {| WithNaN.rate := Num (rate r); WithNaN.count := count r |}) <$> rating p |}.

(** ** Catalog fetch *)

(** What [res.json()] yields. *)
Inductive json : Type :=
  | JNull
  | JBool (b : bool)
  | JNumber (n : Q)
  | JString (s : string)
  | JArray (items : list json)
  | JObject (fields : list (string * json)).

(** The object built by the callback of [data.map]: nothing checks that the
    fields copied from the response are strings, so they are JavaScript values
    ([None] is [undefined]). *)
Record RawProduct : Type := {
  raw_id : string;
  raw_title : option json;
  raw_description : option json;
  raw_price : number;
  raw_category : option json;
  raw_image : option json;
  raw_rating : option json;
}.

(** A [Product] seen as such an object. *)
Definition of_Product (p : Product) : RawProduct :=
  {| raw_id := id p;
     raw_title := Some (JString (title p));
     raw_description := Some (JString (description p));
     raw_price := Num (price p);
     raw_category := JString <$> category p;
     raw_image := JString <$> image p;
     raw_rating :=
       (λ r, JObject [("rate", JNumber (rate r)); ("count", JNumber (inject_Z (count r)))])
         <$> rating p |}.

(** [p.key] for the keys the callback reads: reading a property of [null]
    raises a TypeError; an object yields the field or [undefined]; booleans,
    numbers, strings and arrays have no property of those names. *)
Definition get (p : json) (key : string) : result (option json) :=
  match p with
  | JNull => Throw TypeError
  | JObject fields => Ok (snd <$> List.find (λ kv, String.eqb (fst kv) key) fields)
  | _ => Ok None
  end.

(** The object has an own property [key]. *)
Definition has_own (key : string) (fields : list (string * json)) : bool :=
  existsb (λ kv, String.eqb (fst kv) key) fields.

(** [v] is [null] or [undefined]. *)
Definition nullish (v : option json) : bool :=
  match v with
  | None | Some JNull => true
  | Some _ => false
  end.

(** [a ?? b]: [b] is evaluated only when [a] is nullish. *)
Definition coalesce (a : option json) (b : result (option json)) : result (option json) :=
  if nullish a then b else Ok a.

(** The HTTP response as the function sees it: [res.ok], and what
    [await res.json()] does (it rejects on a body that is not JSON). *)
Record Response : Type := { ok : bool; json_body : result json }.

Section CatalogFetch.

(** Built-ins left abstract: the decimal rendering of a number, the reading of
    a string as a number, and, for each index of the response array, the text
    [Math.random().toString(36).slice(2)] yields there. *)
Context (NumberToString : Q → string) (StringToNumber : string → number)
        (random : nat → string).

(** [String(v)].  An object is converted by its [toString] method and, if
    that yields no primitive, by [valueOf].  What was parsed from JSON holds
    no function: an own [toString] property hides the inherited method and
    cannot be called, and [valueOf], own or inherited, yields no primitive,
    so the conversion raises a TypeError.  An array joins the conversions of
    its elements, [null] counting as the empty string. *)
Fixpoint ToString (v : json) : result string :=
  match v with
  | JNull => Ok "null"
  | JBool true => Ok "true"
  | JBool false => Ok "false"
  | JNumber n => Ok (NumberToString n)
  | JString s => Ok s
  | JArray items =>
      parts ← (fix join (l : list json) : result (list string) :=
                 match l with
                 | [] => Ok []
                 | x :: rest =>
                     s ← match x with JNull => Ok "" | _ => ToString x end;
                     ss ← join rest;
                     Ok (s :: ss)
                 end) items;
      Ok (String.concat "," parts)
  | JObject fields =>
      if has_own "toString" fields then Throw TypeError else Ok "[object Object]"
  end.

Definition String_of (v : option json) : result string :=
  match v with
  | None => Ok "undefined"
  | Some j => ToString j
  end.

(** [Number(v)]: an array or an object is converted to a string first. *)
Definition Number_of (v : option json) : result number :=
  match v with
  | None => Ok NaN
  | Some JNull => Ok (Num 0)
  | Some (JBool true) => Ok (Num 1)
  | Some (JBool false) => Ok (Num 0)
  | Some (JNumber n) => Ok (Num n)
  | Some (JString s) => Ok (StringToNumber s)
  | Some j => s ← ToString j; Ok (StringToNumber s)
  end.

(** The callback of [data.map], for the record [p] at index [i]: the
    properties of the object literal are evaluated in the order they are
    written. *)
Definition toProduct (i : nat) (p : json) : result RawProduct :=
  p_id ← get p "id";
  id0 ← coalesce p_id (
    p__id ← get p "_id";
    coalesce p__id (
      p_slug ← get p "slug";
      coalesce p_slug (Ok (Some (JString (random i))))));
  id1 ← String_of id0;
  p_title ← get p "title";
  title0 ← coalesce p_title (
    p_name ← get p "name";
    coalesce p_name (Ok (Some (JString "Untitled product"))));
  p_description ← get p "description";
  description0 ← coalesce p_description (Ok (Some (JString "")));
  p_price ← get p "price";
  price0 ← coalesce p_price (Ok (Some (JNumber 0)));
  price1 ← Number_of price0;
  p_category ← get p "category";
  category0 ← coalesce p_category (Ok (Some (JString "Uncategorized")));
  p_image ← get p "image";
  image0 ← coalesce p_image (
    p_imageUrl ← get p "imageUrl";
    coalesce p_imageUrl (Ok (Some (JString ""))));
  p_rating ← get p "rating";
  rating0 ← coalesce p_rating (Ok None);
  Ok {| raw_id := id1;
        raw_title := title0;
        raw_description := description0;
        raw_price := price1;
        raw_category := category0;
        raw_image := image0;
        raw_rating := rating0 |}.

(** [data.map(callback)]: the callback runs on each element in turn; the
    first exception ends the loop. *)
Fixpoint map_from (i : nat) (data : list json) : result (list RawProduct) :=
  match data with
  | [] => Ok []
  | p :: rest =>
      x ← toProduct i p;
      xs ← map_from (S i) rest;
      Ok (x :: xs)
  end.

(** [fetched] is what [await fetch('/api/products')] does: a response, or a
    rejection on a network failure. *)
Definition fetchProductsFromApi (fetched : result Response) : result (list RawProduct) :=
  try_catch
    (res ← fetched;
     if negb (ok res) then Throw (Error "API fetch failed") else
     data ← json_body res;
     match data with
     | JArray items => map_from 0 items
     | _ => Throw (Error "Invalid product response")
     end)
    (λ err, Ok (map of_Product SAMPLE_PRODUCTS)).

End CatalogFetch.

(** ** Cart persistence *)

(** [localStorage]: its entries, whether the browser lets the page use it at
    all, and how many characters a value may take (the quota). *)
Record Storage : Type := {
  entries : gmap string string;
  available : bool;
  quota : nat;
}.

Definition getItem (key : string) (st : Storage) : result (option string) :=
  if available st then Ok (entries st !! key) else Throw DOMException.

Definition setItem (key value : string) (st : Storage) : result Storage :=
  if available st && (String.length value <=? quota st)%nat
  then Ok {| entries := <[key := value]> (entries st);
             available := available st;
             quota := quota st |}
  else Throw DOMException.

(** The page's cart state together with the storage it is mirrored in. *)
Record PageState : Type := { cart : Cart; storage : Storage }.

(** The four mutations of the cart. *)
Inductive Action : Type :=
  | Add (p : Product) (qty : Z)
  | UpdateQuantity (productId : string) (newQuantity : Z)
  | Remove (productId : string)
  | Clear.

Definition reduce (a : Action) (prev : Cart) : result Cart :=
  match a with
  | Add p qty => handleAddToCart p qty prev
  | UpdateQuantity productId newQuantity => Ok (handleUpdateQty productId newQuantity prev)
  | Remove productId => Ok (handleRemove productId prev)
  | Clear => Ok handleClearCart
  end.

Section CartPersistence.

(** [JSON.parse] (it throws a SyntaxError on a text that is not JSON; the
    source casts what it returns to an array of cart items without a check)
    and [JSON.stringify], on carts. *)
Context (JSON_parse : string → result Cart) (JSON_stringify : Cart → string).

(** The effect that loads the cart: given the current [cart] state, the state
    once the effect has run. *)
Definition loadCart (st : Storage) (cart0 : Cart) : result Cart :=
  try_catch
    (raw ← getItem CART_STORAGE_KEY st;
     match raw with
     | Some text =>
         if truthy text
         then parsed ← JSON_parse text; Ok parsed
         else Ok cart0
     | None => Ok cart0
     end)
    (λ _, Ok cart0).

(** The effect that persists the cart: the storage once it has run. *)
Definition persistCart (cart0 : Cart) (st : Storage) : result Storage :=
  try_catch (setItem CART_STORAGE_KEY (JSON_stringify cart0) st) (λ _, Ok st).

(** Mounting the page over a storage: the first render has the empty cart;
    both effects run on it, in the order they are declared (the load effect
    schedules the parsed cart, the persist effect writes the empty one); the
    render with the loaded cart runs the persist effect again. *)
Definition mount (st : Storage) : result PageState :=
  loaded ← loadCart st [];
  st1 ← persistCart [] st;
  st2 ← persistCart loaded st1;
  Ok {| cart := loaded; storage := st2 |}.

(** A mutation: the handler's state update, then the persist effect on the
    new cart. *)
Definition dispatch (a : Action) (s : PageState) : result PageState :=
  next ← reduce a (cart s);
  st ← persistCart next (storage s);
  Ok {| cart := next; storage := st |}.

(** The page states a session can be in, started over the storage [st0]. *)
Inductive reachable (st0 : Storage) : PageState → Prop :=
  | reachable_mount s : mount st0 = Ok s → reachable st0 s
  | reachable_dispatch a s s' :
      reachable st0 s → dispatch a s = Ok s' → reachable st0 s'.

End CartPersistence.

(** ** The rest of the page *)

(** The count on the cart button: [cart.reduce((s, it) => s + it.quantity, 0)] *)
Definition cartCount (cart0 : Cart) : Z :=
  fold_left (λ s it, s + quantity it)%Z cart0 0%Z.

(** What the user can click to change the cart.  The drawer draws one row of
    buttons per cart item, so its clicks name the row (the index of the item
    in the cart); the page is drawn again between two clicks, so a row's
    buttons see the item as the cart has it. *)
Inductive Click : Type :=
  | ClickAdd (p : Product)          (* a product card's "Add" *)
  | ClickQuickViewAdd (p : Product)  (* the quick view's "Add to cart" *)
  | ClickDecrease (row : nat)       (* the drawer's "-" *)
  | ClickIncrease (row : nat)       (* the drawer's "+" *)
  | ClickRemove (row : nat)         (* the drawer's "Remove" *)
  | ClickClear.                     (* the drawer's "Clear" *)

(** The cart mutation a click asks for: [onAdd = (prod) => handleAddToCart(prod, 1)],
    [handleAddToCart(quickProduct)] with the default quantity,
    [onUpdateQty(item.product.id, Math.max(1, item.quantity - 1))],
    [onUpdateQty(item.product.id, item.quantity + 1)],
    [onRemove(item.product.id)], [onClear].  A row that the cart does not have
    has no buttons: no mutation. *)
Definition onClick (c : Click) (cart0 : Cart) : option Action :=
  match c with
  | ClickAdd p => Some (Add p 1)
  | ClickQuickViewAdd p => Some (Add p 1)
  | ClickDecrease row =>
      item ← cart0 !! row;
      Some (UpdateQuantity (id (product item)) (Z.max 1 (quantity item - 1)))
  | ClickIncrease row =>
      item ← cart0 !! row;
      Some (UpdateQuantity (id (product item)) (quantity item + 1))
  | ClickRemove row =>
      item ← cart0 !! row;
      Some (Remove (id (product item)))
  | ClickClear => Some Clear
  end.

(** The cart after a click. *)
Definition click (c : Click) (cart0 : Cart) : result Cart :=
  match onClick c cart0 with
  | Some a => reduce a cart0
  | None => Ok cart0
  end.

(** *** The cart on binary64 numbers

    A quantity is a JavaScript number: the handlers, the count and the
    drawer's buttons once more, their additions, subtractions and
    comparisons being those of binary64 numbers. *)
Module Binary64.

Record CartItem : Type := { product : Product; quantity : float }.

Definition handleAddToCart (product0 : Product) (qty : float) (prev : list CartItem)
    : result (list CartItem) :=
  let idx := findIndex (λ it, String.eqb (id (product it)) (id product0)) prev in
  if (0 <=? idx)%Z then
    let copy := prev in
    match copy !! Z.to_nat idx with
    | Some it =>
        Ok (<[Z.to_nat idx := {| product := product it;
                                 quantity := (quantity it + qty)%float |}]> copy)
    | None => Throw TypeError
    end
  else Ok (prev ++ [{| product := product0; quantity := qty |}]).

Definition handleUpdateQty (productId : string) (quantity0 : float) (prev : list CartItem)
    : list CartItem :=
  List.filter (λ it, (0 <? quantity it)%float)
    (map (λ it, if String.eqb (id (product it)) productId
                then {| product := product it; quantity := quantity0 |}
                else it) prev).

Definition handleRemove (productId : string) (prev : list CartItem) : list CartItem :=
  List.filter (λ it, negb (String.eqb (id (product it)) productId)) prev.

Definition handleClearCart : list CartItem := [].

(** [cart.reduce((s, it) => s + it.quantity, 0)] *)
Definition cartCount (cart0 : list CartItem) : float :=
  fold_left (λ s it, s + quantity it)%float cart0 0%float.

(** [Math.max(a, b)]: [NaN] if one of them is, the positive zero of the two
    zeros, the larger one otherwise. *)
Definition Math_max (a b : float) : float :=
  match classify a, classify b with
  | FloatClass.NaN, _ | _, FloatClass.NaN => nan
  | NZero, PZero => b
  | _, _ => if (a <? b)%float then b else a
  end.

Inductive Action : Type :=
  | Add (p : Product) (qty : float)
  | UpdateQuantity (productId : string) (newQuantity : float)
  | Remove (productId : string)
  | Clear.

Definition reduce (a : Action) (prev : list CartItem) : result (list CartItem) :=
  match a with
  | Add p qty => handleAddToCart p qty prev
  | UpdateQuantity productId newQuantity => Ok (handleUpdateQty productId newQuantity prev)
  | Remove productId => Ok (handleRemove productId prev)
  | Clear => Ok handleClearCart
  end.

Definition onClick (c : Click) (cart0 : list CartItem) : option Action :=
  match c with
  | ClickAdd p => Some (Add p 1)
  | ClickQuickViewAdd p => Some (Add p 1)
  | ClickDecrease row =>
      item ← cart0 !! row;
      Some (UpdateQuantity (id (product item)) (Math_max 1 (quantity item - 1)))
  | ClickIncrease row =>
      item ← cart0 !! row;
      Some (UpdateQuantity (id (product item)) (quantity item + 1)%float)
  | ClickRemove row =>
      item ← cart0 !! row;
      Some (Remove (id (product item)))
  | ClickClear => Some Clear
  end.

Definition click (c : Click) (cart0 : list CartItem) : result (list CartItem) :=
  match onClick c cart0 with
  | Some a => reduce a cart0
  | None => Ok cart0
  end.

End Binary64.

(** *** The category list *)

(** [set.add(x)] on a [Set] of strings, kept in insertion order. *)
Definition Set_add (x : string) (set : list string) : list string :=
  if existsb (String.eqb x) set then set else set ++ [x].

(** The comparison [sort()] uses without a comparator: by code units. *)
Definition default_compare (x y : string) : Q :=
  match String.compare x y with
  | Lt => -1
  | Eq => 0
  | Gt => 1
  end.

(** The [categories] memo:
    [products.forEach((p) => { if (p.category) set.add(p.category) })], then
    [['All', ...Array.from(set).sort()]]. *)
Definition categories (products : list Product) : list string :=
  let set :=
    fold_left
      (λ set p, match category p with
                | Some c => if truthy c then Set_add c set else set
                | None => set
                end)
      products [] in
  "All" :: sort default_compare set.

(** *** The effect that fetches the products *)

(** The three pieces of state the effect writes. *)
Record CatalogState : Type := {
  products : list RawProduct;
  loading : bool;
  error : option string;
}.

(** The effect, from the state it starts in to the state once the promise
    has settled: [settled] is what [fetchProductsFromApi()] settles to, and
    [mounted] the flag's value by then (the cleanup sets it to false). *)
Definition loadProducts (settled : result (list RawProduct)) (mounted : bool)
    (s : CatalogState) : CatalogState :=
  (* setLoading(true); setError(null) *)
  let s0 := {| products := products s; loading := true; error := None |} in
  (* .then((data) => { if (!mounted) return; setProducts(data) })
     .catch((err) => { if (!mounted) return; setError('Failed to load products.') }) *)
  let s1 :=
    match settled with
    | Ok data =>
        if mounted
        then {| products := data; loading := loading s0; error := error s0 |}
        else s0
    | Throw _ =>
        if mounted
        then {| products := products s0; loading := loading s0;
                error := Some "Failed to load products." |}
        else s0
    end in
  (* .finally(() => mounted && setLoading(false)) *)
  if mounted
  then {| products := products s1; loading := false; error := error s1 |}
  else s1.

(** What the content section shows. *)
Inductive Content : Type :=
  | LoadingProducts
  | ErrorMessage (message : string)
  | NoProductsFound
  | ProductGrid (cards : list Product).

(** [loading ? ... : error ? ... : visibleProducts.length === 0 ? ... : grid] *)
Definition content (loading0 : bool) (error0 : option string) (visible : list Product)
    : Content :=
  if loading0 then LoadingProducts
  else match error0 with
       | Some message => if truthy message then ErrorMessage message
                         else match visible with
                              | [] => NoProductsFound
                              | _ => ProductGrid visible
                              end
       | None => match visible with
                 | [] => NoProductsFound
                 | _ => ProductGrid visible
                 end
       end.

(** ** Regular expressions *)

(** The regular expressions [EMAIL_REGEX] is built from, with what their
    derivatives need besides. *)
Inductive regex : Type :=
  | Empty                          (* matches nothing *)
  | Eps                            (* matches the empty string *)
  | Class (accepts : ascii → bool)  (* one character of a class *)
  | Seq (r1 r2 : regex)
  | Alt (r1 r2 : regex)
  | Star (r : regex).

(** [r+] *)
Definition Plus (r : regex) : regex := Seq r (Star r).

Fixpoint nullable (r : regex) : bool :=
  match r with
  | Empty => false
  | Eps => true
  | Class _ => false
  | Seq r1 r2 => nullable r1 && nullable r2
  | Alt r1 r2 => nullable r1 || nullable r2
  | Star _ => true
  end.

(** What is left of [r] to match once the character [c] is read. *)
Fixpoint derivative (c : ascii) (r : regex) : regex :=
  match r with
  | Empty => Empty
  | Eps => Empty
  | Class accepts => if accepts c then Eps else Empty
  | Seq r1 r2 =>
      if nullable r1
      then Alt (Seq (derivative c r1) r2) (derivative c r2)
      else Seq (derivative c r1) r2
  | Alt r1 r2 => Alt (derivative c r1) (derivative c r2)
  | Star r1 => Seq (derivative c r1) (Star r1)
  end.

(** [/^r$/.test(s)]: the whole of [s] matches [r]. *)
Fixpoint test (r : regex) (s : string) : bool :=
  match s with
  | EmptyString => nullable r
  | String c s' => test (derivative c r) s'
  end.

(** ** The footer's newsletter form *)

Module Footer.

(** The class [[^\s@]], white space being that of [trim] (ASCII). *)
Definition not_space_or_at (c : ascii) : bool :=
  negb (is_space c || Ascii.eqb c "@").

(** [/^[^\s@]+@[^\s@]+\.[^\s@]+$/] *)
Definition EMAIL_REGEX : regex :=
  Seq (Plus (Class not_space_or_at))
    (Seq (Class (Ascii.eqb "@"))
       (Seq (Plus (Class not_space_or_at))
          (Seq (Class (Ascii.eqb "."))
             (Plus (Class not_space_or_at))))).

Inductive Status : Type := idle | loading | success | error.

(** The form's state.  The message is typed [string | null]; what the
    server's error body supplies for it is not checked to be a string. *)
Record State : Type := {
  email : string;
  status : Status;
  message : option json;
}.

(** The requests a submission can make. *)
Inductive Call : Type :=
  | CallOnSubscribe (email0 : string)
  | PostNewsletter (email0 : string).   (* POST /api/newsletter, body {email} *)

(** Truthiness of a JavaScript value in [a || b]. *)
Definition truthy_value (v : option json) : bool :=
  match v with
  | None | Some JNull | Some (JBool false) => false
  | Some (JNumber n) => negb (Qeq_bool n 0)
  | Some (JString s) => truthy s
  | Some _ => true
  end.

(** [handleSubmit]: the state once the handler has finished, and the
    requests it made.  [onSubscribe] is the optional prop (given the email,
    its promise resolves or rejects); [posted] is what the [fetch] of the
    default branch does. *)
Definition handleSubmit (onSubscribe : option (string → result unit))
    (posted : result Response) (s : State) : State * list Call :=
  (* setMessage(null) *)
  let s := {| email := email s; status := status s; message := None |} in
  if negb (test EMAIL_REGEX (email s)) then
    ({| email := email s; status := error;
        message := Some (JString "Please enter a valid email address.") |}, [])
  else
    (* setStatus('loading') *)
    let s := {| email := email s; status := loading; message := message s |} in
    let subscribed :=
      {| email := ""; status := success;
         message := Some (JString "Subscribed successfully. Check your inbox!") |} in
    let network_error :=
      {| email := email s; status := error;
         message := Some (JString "Network error. Please try again later.") |} in
    match onSubscribe with
    | Some callback =>
        match callback (email s) with
        | Ok _ => (subscribed, [CallOnSubscribe (email s)])
        | Throw _ => (network_error, [CallOnSubscribe (email s)])
        end
    | None =>
        match posted with
        | Ok res =>
            if negb (ok res) then
              (* const err = await res.json().catch(() => null) *)
              let err := match json_body res with
                         | Ok body => body
                         | Throw _ => JNull
                         end in
              (* err?.message *)
              let err_message := match err with
                                 | JNull => Ok None
                                 | _ => get err "message"
                                 end in
              match err_message with
              | Ok m =>
                  let errMsg :=
                    if truthy_value m then m
                    else Some (JString
                      "Something went wrong while subscribing. Please try again later.") in
                  ({| email := email s; status := error; message := errMsg |},
                   [PostNewsletter (email s)])
              | Throw _ => (network_error, [PostNewsletter (email s)])
              end
            else (subscribed, [PostNewsletter (email s)])
        | Throw _ => (network_error, [PostNewsletter (email s)])
        end
    end.

End Footer.

(** ** The header's search form *)

Module Header.

(** The characters [encodeURIComponent] leaves as they are. *)
Definition unreserved (c : ascii) : bool :=
  let n := nat_of_ascii c in
  ((65 <=? n) && (n <=? 90))%nat || ((97 <=? n) && (n <=? 122))%nat ||
  ((48 <=? n) && (n <=? 57))%nat ||
  existsb (Ascii.eqb c) ["-"; "_"; "."; "!"; "~"; "*"; "'"; "("; ")"]%char.

Definition hex_digit (n : nat) : ascii :=
  if (n <? 10)%nat then ascii_of_nat (48 + n) else ascii_of_nat (55 + n).

(** The escaping [encodeURIComponent] does, on the bytes of the text's
    UTF-8 form: every byte that is not unreserved becomes [%XX]. *)
Fixpoint Encode (s : string) : string :=
  match s with
  | EmptyString => EmptyString
  | String c s' =>
      if unreserved c then String c (Encode s')
      else String "%" (String (hex_digit (nat_of_ascii c / 16))
                         (String (hex_digit (nat_of_ascii c mod 16))
                            (Encode s')))
  end.

(** A surrogate that is not part of a pair has no UTF-8 form; in the bytes of
    a text it shows as the code point U+D800 to U+DFFF written out, the byte
    ED followed by a byte from A0 to BF. *)
Fixpoint has_lone_surrogate (s : string) : bool :=
  match s with
  | String c (String d _ as s') =>
      ((nat_of_ascii c =? 237)%nat && (160 <=? nat_of_ascii d)%nat &&
       (nat_of_ascii d <=? 191)%nat)
      || has_lone_surrogate s'
  | _ => false
  end.

(** [encodeURIComponent]: a URIError on a text with a lone surrogate. *)
Definition encodeURIComponent (s : string) : result string :=
  if has_lone_surrogate s then Throw URIError else Ok (Encode s).

Record State : Type := {
  mobileMenuOpen : bool;
  profileMenuOpen : bool;
  searchValue : string;
}.

(** What a search submission asks of the outside. *)
Inductive Effect : Type :=
  | OnSearch (query : string)    (* the [onSearch] prop is called *)
  | RouterPush (url : string).   (* [router.push(url)] *)

(** [handleSearchSubmit]; [onSearch] is the optional prop (given the query,
    it returns or throws).  An exception of [onSearch] or of
    [encodeURIComponent] leaves the handler before
    [setMobileMenuOpen(false)]. *)
Definition handleSearchSubmit (onSearch : option (string → result unit)) (s : State)
    : result (State * list Effect) :=
  let q := trim (searchValue s) in
  if negb (truthy q) then Ok (s, [])
  else
    effect ← match onSearch with
             | Some callback => _ ← callback q; Ok (OnSearch q)
             | None =>
                 component ← encodeURIComponent q;
                 Ok (RouterPush ("/search?q=" +:+ component))
             end;
    Ok ({| mobileMenuOpen := false;
           profileMenuOpen := profileMenuOpen s;
           searchValue := searchValue s |}, [effect]).

End Header.

(** * The words of the properties

    Predicates in which the properties below are stated, and the concrete
    carts, catalogs, storages and responses they are tried on. *)

(** At most one cart item per product identifier. *)
Definition one_item_per_product (c : Cart) : Prop :=
  NoDup (map (λ it, id (product it)) c).

(** No item of the cart is for the identifier [productId]. *)
Definition no_item_for (productId : string) (c : Cart) : Prop :=
  Forall (λ it, id (product it) ≠ productId) c.

(** How many items of the cart are for the identifier [productId]. *)
Definition items_for (productId : string) (c : Cart) : nat :=
  length (List.filter (λ it, String.eqb (id (product it)) productId) c).

(** The mantissa [m'] with the exponent [t] is the form in which binary64
    holds the value of the mantissa [m] with the exponent [e], exactly. *)
Definition exact_at (m : positive) (e : Z) (m' : positive) (t : Z) : Prop :=
  t = fexp prec emax (Zpos (digits2_pos m) + e) ∧ (t ≤ emax - prec)%Z ∧
  ((t ≤ e)%Z ∧ Zpos m' = (Zpos m * 2 ^ (e - t))%Z ∨
   (e < t)%Z ∧ Zpos m = (Zpos m' * 2 ^ (t - e))%Z).

(** The binary64 number that is the integer [n]. *)
Definition of_integer (n : Z) : float := SF2Prim (binary_normalize prec emax n 0 false).

(** A cart of integers as the cart of binary64 numbers it is. *)
Definition binary64 (c : Cart) : list Binary64.CartItem :=
  map (λ it, {| Binary64.product := product it;
                Binary64.quantity := of_integer (quantity it) |}) c.

(** The same two, of a cart on binary64 numbers. *)
Definition no_binary64_item_for (productId : string) (c : list Binary64.CartItem) : Prop :=
  Forall (λ it, id (Binary64.product it) ≠ productId) c.

Definition binary64_items_for (productId : string) (c : list Binary64.CartItem) : nat :=
  length (List.filter (λ it, String.eqb (id (Binary64.product it)) productId) c).

(** No price and no rate of the catalog is [NaN]. *)
Definition without_NaN (C : list WithNaN.Product) : Prop :=
  Forall (λ p, WithNaN.price p ≠ NaN ∧ WithNaN.rating_rate p ≠ NaN) C.

(** [a <= b] and [a === b] on numbers: both are false when one is [NaN]. *)
Definition number_le (a b : number) : Prop :=
  match a, b with
  | Num x, Num y => (x <= y)%Q
  | _, _ => False
  end.

Definition number_eqb (a b : number) : bool :=
  match a, b with
  | Num x, Num y => Qeq_bool x y
  | _, _ => false
  end.

(** The product with [0] in the place of a [NaN]. *)
Definition proper (p : WithNaN.Product) : Product :=
  {| id := WithNaN.id p;
     title := WithNaN.title p;
     description := WithNaN.description p;
     price := WithNaN.SortCompare (WithNaN.price p);
     image := WithNaN.image p;
     category := WithNaN.category p;
     rating :=
       (λ r, {| rate := WithNaN.SortCompare (WithNaN.rate r); count := WithNaN.count r |})
         <$> WithNaN.rating p |}.

(** [q] occurs in [s]. *)
Definition occurs_in (q s : string) : Prop := ∃ pre post, s = pre +:+ q +:+ post.

(** [q] is a case-insensitive substring of [s]. *)
Definition ci_substring_of (q s : string) : Prop :=
  occurs_in (toLowerCase q) (toLowerCase s).

(** After a run started in [h], the array at [r] is new (no array of [h] is
    at [r]), holds [a], and every array of [h] is as it was. *)
Definition local_array (r : nat) (a : list Product) (h h' : gmap nat (list Product)) : Prop :=
  h' !! r = Some a ∧ h !! r = None ∧ ∀ r0, is_Some (h !! r0) → h' !! r0 = h !! r0.

(** The record [p] has no usable field [key]: reading it gives [undefined]
    or [null]. *)
Definition missing (p : json) (key : string) : Prop :=
  ∃ v, get p key = Ok v ∧ nullish v = true.

(** The field [key] of a record that is not [null]. *)
Definition field (p : json) (key : string) : option json :=
  match p with
  | JObject fields => snd <$> List.find (λ kv, String.eqb (fst kv) key) fields
  | _ => None
  end.

(** [a ?? b] when evaluating [b] cannot throw. *)
Definition or_else (a b : option json) : option json := if nullish a then b else a.

(** The value the callback converts to the identifier ([random i] being the
    text generated for the record at index [i]), and the one it converts to
    the price. *)
Definition id_value (random : nat → string) (i : nat) (p : json) : option json :=
  or_else (field p "id")
    (or_else (field p "_id") (or_else (field p "slug") (Some (JString (random i))))).

Definition price_value (p : json) : option json :=
  or_else (field p "price") (Some (JNumber 0)).

(** The value is an object with a property named [toString], or an array
    that holds such a value. *)
Fixpoint has_toString (v : json) : bool :=
  match v with
  | JObject fields => has_own "toString" fields
  | JArray items => existsb has_toString items
  | _ => false
  end.

(** A value that [String] and [Number] can convert. *)
Definition convertible (v : option json) : bool :=
  match v with
  | Some j => negb (has_toString j)
  | None => true
  end.

(** What the record gives for an identifier: the first of [id], [_id] and
    [slug] that is neither missing nor [null]. *)
Definition identifier (p : json) : option json :=
  or_else (field p "id") (or_else (field p "_id") (field p "slug")).

(** A record the callback can coerce: it is not [null], and what it gives
    for an identifier and for a price can be converted. *)
Definition coercible (p : json) : bool :=
  match p with
  | JNull => false
  | _ => convertible (identifier p) && convertible (field p "price")
  end.

(** ** Example data *)

(** The cart of the subtotal example: the T-shirt (19.99) twice and the
    wallet (49.00) once, both from [SAMPLE_PRODUCTS]. *)
Definition example_cart : Cart :=
  [ {| product := tshirt; quantity := 2 |}; {| product := wallet; quantity := 1 |} ].

(** A product whose title holds the word "mug" at its start, so that the
    text " mug" (with the space) does not occur in it. *)
Definition mug_rack : Product :=
  {| id := "p5";
     title := "Mug Rack";
     description := "Wall-mounted oak, holds six.";
     price := 24.0;
     image := None;
     category := Some "Home";
     rating := None |}.

(** A product with the wallet's price and the wallet's rate. *)
Definition gift_card : Product :=
  {| id := "p6";
     title := "Gift Card";
     description := "Redeemable in store.";
     price := 49.0;
     image := None;
     category := None;
     rating := Some {| rate := 4.6; count := 3 |} |}.

(** A product with a name and a price and nothing else. *)
Definition priced (name : string) (price0 : number) : WithNaN.Product :=
  {| WithNaN.id := name;
     WithNaN.title := name;
     WithNaN.description := "";
     WithNaN.price := price0;
     WithNaN.image := None;
     WithNaN.category := None;
     WithNaN.rating := None |}.

(** A storage that cannot take the text of any cart: its quota is 0. *)
Definition full_storage : Storage :=
  {| entries := {[ CART_STORAGE_KEY := "p2,p1" ]}; available := true; quota := 0 |}.

(** A storage whose cart slot holds a text that is not JSON. *)
Definition corrupt_storage : Storage :=
  {| entries := {[ CART_STORAGE_KEY := "{not json" ]}; available := true; quota := 4096 |}.

(** Stand-ins for [JSON.parse] and [JSON.stringify] in the closed examples: a
    parser that knows the texts of a table and rejects every other text, and
    a printer that lists the product identifiers. *)
Definition table_parse (table : list (string * Cart)) (text : string) : result Cart :=
  match List.find (λ entry, String.eqb (fst entry) text) table with
  | Some entry => Ok (snd entry)
  | None => Throw SyntaxError
  end.

Definition ids_stringify (c : Cart) : string :=
  String.concat "," (map (λ it, id (product it)) c).

(** A storage whose cart slot holds a text that parses to two items for the
    wallet. *)
Definition duplicate_cart : Cart :=
  [ {| product := wallet; quantity := 1 |}; {| product := wallet; quantity := 2 |} ].

Definition duplicate_text : string := "p1,p1".

Definition duplicate_storage : Storage :=
  {| entries := {[ CART_STORAGE_KEY := duplicate_text ]};
     available := true;
     quota := 4096 |}.

(** A record whose identifier is an object with a [toString] property. *)
Definition toString_record : json :=
  JObject [("id", JObject [("toString", JNumber 1)]); ("title", JString "Lamp")].

(** A catalog response with two records: an empty object, and an object
    that has a name and a price but neither title, identifier nor category. *)
Definition example_response : result Response :=
  Ok {| ok := true;
        json_body :=
          Ok (JArray [ JObject [];
                       JObject [("name", JString "Lamp"); ("price", JNumber 5)] ]) |}.

(** * Properties *)

(** ** [findIndex] *)

Lemma findIndex_from_none {A} (f : A → bool) (l : list A) (i : Z) :
  Forall (λ x, f x = false) l → findIndex_from f l i = (-1)%Z.
Proof.
  intros Hall. revert i. induction Hall as [|x l Hx _ IH]; intros i; simpl.
  - reflexivity.
  - rewrite Hx. apply IH.
Qed.

Lemma findIndex_from_found {A} (f : A → bool) (pre : list A) (x : A) (post : list A) (i : Z) :
  Forall (λ y, f y = false) pre → f x = true →
  findIndex_from f (pre ++ x :: post) i = (i + Z.of_nat (length pre))%Z.
Proof.
  intros Hpre Hx. revert i. induction Hpre as [|y pre Hy _ IH]; intros i; simpl.
  - rewrite Hx. lia.
  - rewrite Hy, IH. lia.
Qed.

(** Either no element satisfies the predicate, or the list splits at the
    first one that does. *)
Lemma first_match_split {A} (f : A → bool) (l : list A) :
  Forall (λ x, f x = false) l ∨
  ∃ pre x post, l = pre ++ x :: post ∧ Forall (λ y, f y = false) pre ∧ f x = true.
Proof.
  induction l as [|a l IH].
  - left. constructor.
  - destruct (f a) eqn:Ha.
    + right. exists [], a, l. repeat split; [constructor | exact Ha].
    + destruct IH as [Hall | (pre & x & post & -> & Hpre & Hx)].
      * left. constructor; assumption.
      * right. exists (a :: pre), x, post. repeat split; [constructor; assumption | exact Hx].
Qed.

Lemma id_test_false (productId : string) (c : Cart) :
  no_item_for productId c ↔
  Forall (λ it, String.eqb (id (product it)) productId = false) c.
Proof.
  unfold no_item_for. split; intros H; eapply Forall_impl; try exact H;
    intros it; simpl; rewrite String.eqb_neq; auto.
Qed.

(** ** Binary64 numbers that are integers

    The kernel's floats are specified by the functions of [SpecFloat]
    ([add_spec], [sub_spec], [ltb_spec]).  On the integers from 0 to 2^53
    the sum, the difference and the order of binary64 numbers are those of
    the integers: rounding has nothing to round. *)

Lemma iter_xO (m d : positive) : Zpos (Pos.iter xO m d) = (Zpos m * 2 ^ Zpos d)%Z.
Proof.
  induction d as [|d IH] using Pos.peano_ind.
  - simpl. lia.
  - rewrite Pos.iter_succ, Pos2Z.inj_succ, Z.pow_succ_r by lia.
    rewrite Pos2Z.inj_xO, IH. lia.
Qed.

Lemma digits_iter_xO (m d : positive) :
  digits2_pos (Pos.iter xO m d) = (digits2_pos m + d)%positive.
Proof.
  induction d as [|d IH] using Pos.peano_ind.
  - simpl. lia.
  - rewrite Pos.iter_succ. simpl. rewrite IH. lia.
Qed.

Lemma iter_pos_comm {A} (f : A → A) (p : positive) (x : A) :
  iter_pos f p (f x) = f (iter_pos f p x).
Proof.
  revert x. induction p as [p IH|p IH|]; intros x; simpl; [|rewrite !IH|]; try reflexivity.
  rewrite !IH. reflexivity.
Qed.

Lemma iter_pos_iter {A} (f : A → A) (p : positive) (x : A) :
  iter_pos f p x = Pos.iter f x p.
Proof.
  revert x. induction p as [p IH|p IH|]; intros x; simpl; try reflexivity.
  - rewrite iter_pos_comm, iter_pos_comm, !IH. reflexivity.
  - rewrite !IH. reflexivity.
Qed.

(** A positive that is [m] shifted left by [k] bits, [k > 0]. *)
Lemma shifted_left (m m' : positive) (k : Z) :
  (0 < k)%Z → Zpos m' = (Zpos m * 2 ^ k)%Z → ∃ d, k = Zpos d ∧ m' = Pos.iter xO m d.
Proof.
  intros Hk Hm. destruct k as [|d|d]; try lia.
  exists d. split; [reflexivity|]. rewrite <- iter_xO in Hm. congruence.
Qed.

Lemma shr_1_exact (m : positive) (d : positive) :
  iter_pos shr_1 d {| shr_m := Zpos (Pos.iter xO m d); shr_r := false; shr_s := false |}
  = {| shr_m := Zpos m; shr_r := false; shr_s := false |}.
Proof.
  rewrite iter_pos_iter. induction d as [|d IH] using Pos.peano_ind.
  - reflexivity.
  - rewrite Pos.iter_succ_r. rewrite Pos.iter_succ. simpl. exact IH.
Qed.

Lemma digits_bounds (n : positive) :
  (2 ^ (Zpos (digits2_pos n) - 1) ≤ Zpos n < 2 ^ Zpos (digits2_pos n))%Z.
Proof.
  induction n as [n IH|n IH|]; simpl digits2_pos; rewrite ?Pos2Z.inj_succ.
  - replace (Z.succ (Zpos (digits2_pos n)) - 1)%Z with (Z.succ (Zpos (digits2_pos n) - 1))%Z by lia.
    rewrite !Z.pow_succ_r by lia. lia.
  - replace (Z.succ (Zpos (digits2_pos n)) - 1)%Z with (Z.succ (Zpos (digits2_pos n) - 1))%Z by lia.
    rewrite !Z.pow_succ_r by lia. lia.
  - simpl. lia.
Qed.

Lemma exact_at_digits (m : positive) (e : Z) (m' : positive) (t : Z) :
  exact_at m e m' t → (Zpos (digits2_pos m') + t = Zpos (digits2_pos m) + e)%Z.
Proof.
  intros (_ & _ & [[Hle Hm] | [Hlt Hm]]).
  - destruct (Z.eq_dec t e) as [-> | Hne].
    + rewrite Z.sub_diag, Z.pow_0_r, Z.mul_1_r in Hm. injection Hm as ->. reflexivity.
    + destruct (shifted_left m m' (e - t)) as (d & Hd & ->); [lia | exact Hm |].
      rewrite digits_iter_xO. lia.
  - destruct (shifted_left m' m (t - e)) as (d & Hd & ->); [lia | exact Hm |].
    rewrite digits_iter_xO. lia.
Qed.

Lemma binary_round_aux_exact (s : bool) (m' : positive) (t : Z) :
  t = fexp prec emax (Zpos (digits2_pos m') + t) → (t ≤ emax - prec)%Z →
  binary_round_aux prec emax s (Zpos m') t loc_Exact = S754_finite s m' t.
Proof.
  intros Ht Hmax. unfold binary_round_aux, shr_fexp. simpl Zdigits2.
  rewrite <- Ht, Z.sub_diag. simpl. rewrite <- Ht, Z.sub_diag. simpl.
  apply Z.leb_le in Hmax. rewrite Hmax. reflexivity.
Qed.

Lemma binary_round_exact (s : bool) (m : positive) (e : Z) (m' : positive) (t : Z) :
  exact_at m e m' t → binary_round prec emax s m e = S754_finite s m' t.
Proof.
  intros Hexact. pose proof (exact_at_digits m e m' t Hexact) as Hdigits.
  destruct Hexact as (Ht & Hmax & [[Hle Hm] | [Hlt Hm]]).
  - unfold binary_round, shl_align. rewrite <- Ht.
    assert (t = fexp prec emax (Zpos (digits2_pos m') + t)) as Ht' by (rewrite Hdigits; exact Ht).
    destruct (Z.eq_dec t e) as [-> | Hne].
    + rewrite Z.sub_diag, Z.pow_0_r, Z.mul_1_r in Hm. injection Hm as ->.
      rewrite Z.sub_diag. cbv beta iota.
      apply binary_round_aux_exact; assumption.
    + destruct (shifted_left m m' (e - t)) as (d & Hd & ->); [lia | exact Hm |].
      replace (t - e)%Z with (Zneg d) by lia. cbv beta iota.
      apply binary_round_aux_exact; assumption.
  - unfold binary_round, shl_align. rewrite <- Ht.
    destruct (shifted_left m' m (t - e)) as (d & Hd & ->); [lia | exact Hm |].
    rewrite Hd. unfold binary_round_aux, shr_fexp at 1. simpl Zdigits2.
    rewrite <- Ht, Hd. simpl shr. rewrite shr_1_exact. simpl.
    replace (e + Zpos d)%Z with t by lia.
    assert (t = fexp prec emax (Zpos (digits2_pos m') + t)) as Ht' by (rewrite Hdigits; exact Ht).
    unfold shr_fexp. simpl Zdigits2. rewrite <- Ht', Z.sub_diag. simpl.
    apply Z.leb_le in Hmax. rewrite Hmax. reflexivity.
Qed.

Lemma digits_shifted (m mk : positive) (k : Z) :
  (0 ≤ k)%Z → Zpos mk = (Zpos m * 2 ^ k)%Z →
  Zpos (digits2_pos mk) = (Zpos (digits2_pos m) + k)%Z.
Proof.
  intros Hk Hm. destruct (Z.eq_dec k 0) as [-> | Hne].
  - rewrite Z.pow_0_r, Z.mul_1_r in Hm. injection Hm as ->. lia.
  - destruct (shifted_left m mk k) as (d & -> & ->); [lia | exact Hm |].
    rewrite digits_iter_xO. lia.
Qed.

(** The rounding sees the value only: shifting the mantissa left and
    lowering the exponent by as much changes nothing. *)
Lemma exact_at_shifted (m : positive) (e : Z) (m' : positive) (t : Z) (mk : positive) (k : Z) :
  exact_at m e m' t → (0 ≤ k)%Z → Zpos mk = (Zpos m * 2 ^ k)%Z →
  exact_at mk (e - k) m' t.
Proof.
  intros (Ht & Hmax & Hvalue) Hk Hmk. split; [|split; [exact Hmax|]].
  - rewrite (digits_shifted m mk k Hk Hmk), Ht. f_equal. lia.
  - destruct (Z_le_gt_dec t (e - k)) as [Hle | Hgt].
    + left. split; [exact Hle|].
      destruct Hvalue as [[_ Hm] | [Hlt _]]; [|lia].
      rewrite Hm, Hmk, <- Z.mul_assoc, <- Z.pow_add_r by lia. do 2 f_equal. lia.
    + right. split; [lia|].
      destruct Hvalue as [[Hle Hm] | [Hlt Hm]].
      * rewrite Hm, Hmk, <- Z.mul_assoc, <- Z.pow_add_r by lia. do 2 f_equal. lia.
      * rewrite Hmk, Hm, <- Z.mul_assoc, <- Z.pow_add_r by lia. do 2 f_equal. lia.
Qed.

(** Every integer from 1 to 2^53 has such a form. *)
Lemma exact_integer (n : positive) :
  (Zpos n ≤ 2 ^ 53)%Z →
  ∃ m' t, exact_at n 0 m' t ∧ t = (Zpos (digits2_pos n) - 53)%Z ∧
          (t ≤ 0 ∨ Zpos n = 2 ^ 53)%Z.
Proof.
  intros Hn. pose proof (digits_bounds n) as [Hlow Hhigh].
  assert (Zpos (digits2_pos n) ≤ 54)%Z as Hd.
  { destruct (Z_le_gt_dec (Zpos (digits2_pos n)) 54) as [H | H]; [exact H|].
    assert (2 ^ 54 ≤ 2 ^ (Zpos (digits2_pos n) - 1))%Z by (apply Z.pow_le_mono_r; lia).
    lia. }
  assert (fexp prec emax (Zpos (digits2_pos n) + 0) = Zpos (digits2_pos n) - 53)%Z as Ht.
  { unfold fexp, emin, prec, emax. lia. }
  destruct (Z_le_gt_dec (Zpos (digits2_pos n)) 53) as [Hle | Hgt].
  - exists (Z.to_pos (Zpos n * 2 ^ (53 - Zpos (digits2_pos n)))), (Zpos (digits2_pos n) - 53)%Z.
    split; [|split; [reflexivity | lia]].
    split; [symmetry; exact Ht|]. split; [unfold emax, prec; lia|].
    left. split; [lia|].
    rewrite Z2Pos.id; [f_equal; f_equal; lia|].
    assert (0 < 2 ^ (53 - Zpos (digits2_pos n)))%Z by (apply Z.pow_pos_nonneg; lia). lia.
  - assert (Zpos (digits2_pos n) = 54)%Z as H54 by lia.
    rewrite H54 in Hlow. simpl in Hlow.
    exists (2 ^ 52)%positive, 1%Z. split; [|split; [lia | right; lia]].
    split; [rewrite H54; reflexivity|]. split; [unfold emax, prec; lia|].
    right. split; [lia|]. simpl. lia.
Qed.

Example of_integer_on_samples :
  of_integer 0 = 0%float ∧ of_integer 1 = 1%float ∧ of_integer 3 = 3%float ∧
  of_integer 1000000 = 1000000%float ∧
  of_integer (2 ^ 53 - 1) = 9007199254740991%float ∧
  of_integer (2 ^ 53) = 9007199254740992%float.
Proof. repeat split; vm_compute; reflexivity. Qed.

Lemma Prim2SF_of_integer (n : Z) :
  (0 ≤ n ≤ 2 ^ 53)%Z → Prim2SF (of_integer n) = binary_normalize prec emax n 0 false.
Proof.
  intros Hn. apply Prim2SF_SF2Prim. destruct n as [|n|n]; [reflexivity| |lia].
  destruct (exact_integer n) as (m' & t & Hexact & _); [lia|].
  simpl. rewrite (binary_round_exact false n 0 m' t Hexact).
  pose proof (exact_at_digits n 0 m' t Hexact) as Hdigits.
  destruct Hexact as (Hfexp & Hmax & _).
  unfold valid_binary, bounded, canonical_mantissa.
  rewrite Hdigits, <- Hfexp, Z.eqb_refl. simpl. apply Z.leb_le. exact Hmax.
Qed.

Lemma normalize_integer (n : positive) :
  (Zpos n ≤ 2 ^ 53)%Z →
  ∃ m' t, binary_normalize prec emax (Zpos n) 0 false = S754_finite false m' t ∧
          exact_at n 0 m' t ∧ t = (Zpos (digits2_pos n) - 53)%Z ∧
          (t ≤ 0 ∨ Zpos n = 2 ^ 53)%Z.
Proof.
  intros Hn. destruct (exact_integer n Hn) as (m' & t & Hexact & Ht).
  exists m', t. split; [apply binary_round_exact, Hexact | auto].
Qed.

Lemma shl_align_value (m : positive) (e e' : Z) :
  (e' ≤ e)%Z → Zpos (fst (shl_align m e e')) = (Zpos m * 2 ^ (e - e'))%Z.
Proof.
  intros Hle. unfold shl_align. destruct (e' - e)%Z as [|d|d] eqn:Hd; simpl; try lia.
  - replace (e - e')%Z with 0%Z by lia. lia.
  - rewrite iter_xO. do 2 f_equal. lia.
Qed.

(** The mantissa of an integer, aligned to an exponent that is not above 0. *)
Lemma aligned_integer (n m' : positive) (t ez : Z) :
  exact_at n 0 m' t → (ez ≤ t)%Z → (ez ≤ 0)%Z →
  Zpos (fst (shl_align m' t ez)) = (Zpos n * 2 ^ (- ez))%Z.
Proof.
  intros (_ & _ & Hvalue) Hez H0. rewrite shl_align_value by exact Hez.
  destruct Hvalue as [[Hle Hm] | [Hlt Hm]].
  - rewrite Hm, <- Z.mul_assoc, <- Z.pow_add_r by lia. do 2 f_equal. lia.
  - rewrite Hm, <- Z.mul_assoc, <- Z.pow_add_r by lia. do 2 f_equal. lia.
Qed.

(** Binary64 addition is exact on the integers from 0 to 2^53. *)
Lemma add_exact (a b : Z) :
  (0 ≤ a)%Z → (0 ≤ b)%Z → (a + b ≤ 2 ^ 53)%Z → (of_integer a + of_integer b)%float = of_integer (a + b).
Proof.
  intros Ha Hb Hsum. apply Prim2SF_inj. rewrite add_spec, !Prim2SF_of_integer by lia.
  destruct a as [|a|a]; [| |lia]; destruct b as [|b|b]; try lia.
  - reflexivity.
  - destruct (normalize_integer b) as (mb & tb & Hnb & _); [lia|].
    rewrite Z.add_0_l, Hnb. reflexivity.
  - destruct (normalize_integer a) as (ma & ta & Hna & _); [lia|].
    rewrite Z.add_0_r, Hna. reflexivity.
  - destruct (normalize_integer a) as (ma & ta & Hna & Hxa & _ & Hta); [lia|].
    destruct (normalize_integer b) as (mb & tb & Hnb & Hxb & _ & Htb); [lia|].
    destruct (normalize_integer (a + b)) as (mc & tc & Hnc & Hxc & _); [lia|].
    change (Zpos a + Zpos b)%Z with (Zpos (a + b)). rewrite Hna, Hnb, Hnc.
    unfold SF64add, SFadd. cbv zeta. unfold cond_Zopp.
    assert (Z.min ta tb ≤ 0)%Z as H0 by lia.
    pose proof (aligned_integer a ma ta (Z.min ta tb) Hxa ltac:(lia) H0) as Hma.
    pose proof (aligned_integer b mb tb (Z.min ta tb) Hxb ltac:(lia) H0) as Hmb.
    change (Zpos (fst (shl_align ma ta (Z.min ta tb))) +
            Zpos (fst (shl_align mb tb (Z.min ta tb))))%Z
      with (Zpos (fst (shl_align ma ta (Z.min ta tb)) + fst (shl_align mb tb (Z.min ta tb)))).
    unfold binary_normalize. apply binary_round_exact.
    replace (Z.min ta tb) with (0 - - Z.min ta tb)%Z at 3 by lia.
    apply (exact_at_shifted (a + b) 0 mc tc); [exact Hxc | lia |].
    rewrite Pos2Z.inj_add, Hma, Hmb. lia.
Qed.

(** Binary64 subtraction is exact on them too. *)
Lemma sub_exact (a b : Z) :
  (0 ≤ b ≤ a)%Z → (a ≤ 2 ^ 53)%Z → (of_integer a - of_integer b)%float = of_integer (a - b).
Proof.
  intros Hb Ha. apply Prim2SF_inj. rewrite sub_spec, !Prim2SF_of_integer by lia.
  destruct a as [|a|a]; [| |lia]; destruct b as [|b|b]; try lia.
  - reflexivity.
  - destruct (normalize_integer a) as (ma & ta & Hna & _); [lia|].
    rewrite Z.sub_0_r, Hna. reflexivity.
  - destruct (normalize_integer a) as (ma & ta & Hna & Hxa & _ & Hta); [lia|].
    destruct (normalize_integer b) as (mb & tb & Hnb & Hxb & _ & Htb); [lia|].
    rewrite Hna, Hnb. unfold SF64sub, SFsub. cbv zeta. unfold cond_Zopp.
    destruct (Z.eq_dec (Zpos a) (Zpos b)) as [Heq | Hne].
    + injection Heq as ->. rewrite Hna in Hnb. injection Hnb as <- <-.
      rewrite !Z.sub_diag. reflexivity.
    + assert (Z.min ta tb ≤ 0)%Z as H0 by lia.
      pose proof (aligned_integer a ma ta (Z.min ta tb) Hxa ltac:(lia) H0) as Hma.
      pose proof (aligned_integer b mb tb (Z.min ta tb) Hxb ltac:(lia) H0) as Hmb.
      assert (0 < 2 ^ (- Z.min ta tb))%Z as Hpow by (apply Z.pow_pos_nonneg; lia).
      destruct (Zpos a - Zpos b)%Z as [|c|c] eqn:Hc; try lia.
      destruct (normalize_integer c) as (mc & tc & Hnc & Hxc & _); [lia|]. rewrite Hnc.
      destruct (Zpos (fst (shl_align ma ta (Z.min ta tb))) -
                Zpos (fst (shl_align mb tb (Z.min ta tb))))%Z as [|d|d] eqn:Hd; try nia.
      unfold binary_normalize. apply binary_round_exact.
      replace (Z.min ta tb) with (0 - - Z.min ta tb)%Z at 1 by lia.
      apply (exact_at_shifted c 0 mc tc); [exact Hxc | lia |]. nia.
Qed.

Lemma mul_compare (x y p : Z) : (0 < p)%Z → (x * p ?= y * p)%Z = (x ?= y)%Z.
Proof.
  intros Hp. destruct (Z.compare_spec x y) as [-> | Hlt | Hgt].
  - apply Z.compare_refl.
  - apply Z.compare_lt_iff. nia.
  - apply Z.compare_gt_iff. nia.
Qed.

(** The order of binary64 numbers is the order of the integers. *)
Lemma compare_exact (a b : Z) :
  (0 ≤ a ≤ 2 ^ 53)%Z → (0 ≤ b ≤ 2 ^ 53)%Z →
  SFcompare (Prim2SF (of_integer a)) (Prim2SF (of_integer b)) = Some (a ?= b)%Z.
Proof.
  intros Ha Hb. rewrite !Prim2SF_of_integer by lia.
  destruct a as [|a|a]; [| |lia]; destruct b as [|b|b]; try lia.
  - reflexivity.
  - destruct (normalize_integer b) as (mb & tb & -> & _); [lia|]. reflexivity.
  - destruct (normalize_integer a) as (ma & ta & -> & _); [lia|]. reflexivity.
  - destruct (normalize_integer a) as (ma & ta & -> & Hxa & Hta & _); [lia|].
    destruct (normalize_integer b) as (mb & tb & -> & Hxb & Htb & _); [lia|].
    pose proof (digits_bounds a) as [Hla Hha]. pose proof (digits_bounds b) as [Hlb Hhb].
    simpl. f_equal. destruct (Z.compare_spec ta tb) as [Heq | Hlt | Hgt].
    + rewrite <- Heq in Hxb. change (Pos.compare_cont Eq ma mb) with (Zpos ma ?= Zpos mb)%Z.
      destruct Hxa as (_ & _ & [[Hle Hma] | [Hlt Hma]]);
        destruct Hxb as (_ & _ & [[Hle' Hmb] | [Hlt' Hmb]]); try lia.
      * change ((Zpos ma ?= Zpos mb)%Z = (Zpos a ?= Zpos b)%Z).
        rewrite Hma, Hmb. apply mul_compare, Z.pow_pos_nonneg; lia.
      * change ((Zpos ma ?= Zpos mb)%Z = (Zpos a ?= Zpos b)%Z).
        rewrite Hma, Hmb. symmetry. apply mul_compare, Z.pow_pos_nonneg; lia.
    + change (Lt = (Zpos a ?= Zpos b)%Z). symmetry. apply Z.compare_lt_iff.
      assert (2 ^ Zpos (digits2_pos a) ≤ 2 ^ (Zpos (digits2_pos b) - 1))%Z
        by (apply Z.pow_le_mono_r; lia).
      lia.
    + change (Gt = (Zpos a ?= Zpos b)%Z). symmetry. apply Z.compare_gt_iff.
      assert (2 ^ Zpos (digits2_pos b) ≤ 2 ^ (Zpos (digits2_pos a) - 1))%Z
        by (apply Z.pow_le_mono_r; lia).
      lia.
Qed.

Lemma ltb_exact (a b : Z) :
  (0 ≤ a ≤ 2 ^ 53)%Z → (0 ≤ b ≤ 2 ^ 53)%Z → (of_integer a <? of_integer b)%float = (a <? b)%Z.
Proof.
  intros Ha Hb. rewrite ltb_spec. unfold SFltb. rewrite compare_exact by assumption.
  unfold Z.ltb. destruct (a ?= b)%Z; reflexivity.
Qed.

(** ** [handleAddToCart] *)

Lemma handleAddToCart_existing (P : Product) (q : Z) (pre : Cart) (it : CartItem) (post : Cart) :
  no_item_for (id P) pre → id (product it) = id P →
  handleAddToCart P q (pre ++ it :: post)
  = Ok (pre ++ {| product := product it; quantity := (quantity it + q)%Z |} :: post).
Proof.
  intros Hpre Hit. unfold handleAddToCart, findIndex.
  rewrite findIndex_from_found.
  - replace (0 <=? 0 + Z.of_nat (length pre))%Z with true by (symmetry; apply Z.leb_le; lia).
    replace (Z.to_nat (0 + Z.of_nat (length pre))) with (length pre + 0)%nat by lia.
    rewrite lookup_app_r by lia.
    replace (length pre + 0 - length pre)%nat with 0%nat by lia. simpl.
    rewrite insert_app_r. reflexivity.
  - apply id_test_false, Hpre.
  - apply String.eqb_eq, Hit.
Qed.

Lemma handleAddToCart_fresh (P : Product) (q : Z) (c : Cart) :
  no_item_for (id P) c →
  handleAddToCart P q c = Ok (c ++ [{| product := P; quantity := q |}]).
Proof.
  intros Hc. unfold handleAddToCart, findIndex.
  rewrite findIndex_from_none by (apply id_test_false, Hc). reflexivity.
Qed.

Lemma handleAddToCart_total (P : Product) (q : Z) (c : Cart) :
  ∃ c', handleAddToCart P q c = Ok c' ∧
        map (λ it, id (product it)) c' =
        map (λ it, id (product it)) c ++
          (if decide (id P ∈ map (λ it, id (product it)) c) then [] else [id P]).
Proof.
  destruct (first_match_split (λ it, String.eqb (id (product it)) (id P)) c)
    as [Hnone | (pre & it & post & -> & Hpre & Hit)].
  - apply id_test_false in Hnone. eexists. split; [apply handleAddToCart_fresh, Hnone|].
    rewrite map_app. simpl. rewrite decide_False; [reflexivity|].
    intros Hin. apply list_elem_of_In, in_map_iff in Hin as (x & Hx & Hin).
    unfold no_item_for in Hnone. rewrite Forall_forall in Hnone.
    apply list_elem_of_In in Hin. exact (Hnone x Hin Hx).
  - apply id_test_false in Hpre. apply String.eqb_eq in Hit.
    eexists. split; [apply handleAddToCart_existing; assumption|].
    rewrite !map_app. simpl. rewrite decide_True, app_nil_r; [reflexivity|].
    apply list_elem_of_In, in_or_app. right. left. exact Hit.
Qed.

(** On integers: [Add(P, q)] never throws; when the cart has an item for
    [P]'s identifier, the first such item has its quantity increased by [q]
    and nothing else changes; otherwise the item [(P, q)] is appended. *)
Lemma handleAddToCart_on_integers (c : Cart) (P : Product) (q : Z) :
  (∃ c', handleAddToCart P q c = Ok c') ∧
  (¬ no_item_for (id P) c →
     ∃ pre it post,
       c = pre ++ it :: post ∧ no_item_for (id P) pre ∧ id (product it) = id P ∧
       handleAddToCart P q c
       = Ok (pre ++ {| product := product it; quantity := (quantity it + q)%Z |} :: post)) ∧
  (no_item_for (id P) c →
     handleAddToCart P q c = Ok (c ++ [{| product := P; quantity := q |}]) ∧
     (handleAddToCart P 1 c ≫= handleAddToCart P 2)
     = Ok (c ++ [{| product := P; quantity := 3 |}]) ∧
     items_for (id P) (c ++ [{| product := P; quantity := 3 |}]) = 1%nat).
Proof.
  split; [|split].
  - destruct (handleAddToCart_total P q c) as (c' & Hc' & _). eauto.
  - intros Hsome.
    destruct (first_match_split (λ it, String.eqb (id (product it)) (id P)) c)
      as [Hnone | (pre & it & post & -> & Hpre & Hit)].
    + exfalso. apply Hsome, id_test_false, Hnone.
    + apply id_test_false in Hpre. apply String.eqb_eq in Hit.
      exists pre, it, post. repeat split; try assumption.
      apply handleAddToCart_existing; assumption.
  - intros Hnone. split; [apply handleAddToCart_fresh, Hnone|]. split.
    + rewrite (handleAddToCart_fresh P 1 c Hnone). simpl.
      apply (handleAddToCart_existing P 2 c {| product := P; quantity := 1 |} []);
        [exact Hnone | reflexivity].
    + unfold items_for. rewrite List.filter_app, length_app. simpl.
      rewrite String.eqb_refl. simpl.
      apply id_test_false in Hnone.
      assert (List.filter (λ it, String.eqb (id (product it)) (id P)) c = []) as ->; [|reflexivity].
      induction Hnone as [|x l Hx _ IH]; simpl; [reflexivity|]. rewrite Hx. exact IH.
Qed.

(** *** On binary64 numbers *)

Lemma binary64_id_test_false (productId : string) (c : list Binary64.CartItem) :
  no_binary64_item_for productId c ↔
  Forall (λ it, String.eqb (id (Binary64.product it)) productId = false) c.
Proof.
  unfold no_binary64_item_for. split; intros H; eapply Forall_impl; try exact H;
    intros it; simpl; rewrite String.eqb_neq; auto.
Qed.

Lemma Binary64_handleAddToCart_existing (P : Product) (q : float)
    (pre : list Binary64.CartItem) (it : Binary64.CartItem) (post : list Binary64.CartItem) :
  no_binary64_item_for (id P) pre → id (Binary64.product it) = id P →
  Binary64.handleAddToCart P q (pre ++ it :: post)
  = Ok (pre ++ {| Binary64.product := Binary64.product it;
                  Binary64.quantity := (Binary64.quantity it + q)%float |} :: post).
Proof.
  intros Hpre Hit. unfold Binary64.handleAddToCart, findIndex.
  rewrite findIndex_from_found.
  - replace (0 <=? 0 + Z.of_nat (length pre))%Z with true by (symmetry; apply Z.leb_le; lia).
    replace (Z.to_nat (0 + Z.of_nat (length pre))) with (length pre + 0)%nat by lia.
    rewrite lookup_app_r by lia.
    replace (length pre + 0 - length pre)%nat with 0%nat by lia. simpl.
    rewrite insert_app_r. reflexivity.
  - apply binary64_id_test_false, Hpre.
  - apply String.eqb_eq, Hit.
Qed.

Lemma Binary64_handleAddToCart_fresh (P : Product) (q : float) (c : list Binary64.CartItem) :
  no_binary64_item_for (id P) c →
  Binary64.handleAddToCart P q c
  = Ok (c ++ [{| Binary64.product := P; Binary64.quantity := q |}]).
Proof.
  intros Hc. unfold Binary64.handleAddToCart, findIndex.
  rewrite findIndex_from_none by (apply binary64_id_test_false, Hc). reflexivity.
Qed.

(** C5 (amended).  [Add(P, q)] never throws.  When the cart has an item for
    [P]'s identifier, the first such item has its quantity replaced by the
    binary64 sum of that quantity and [q], and nothing else changes;
    otherwise the item [(P, q)] is appended.  The binary64 sum is the
    quantity increased by [q] when both are integers from 0 on and the
    increased quantity is at most 2^53.  On a cart without [P], [Add(P, 1)]
    then [Add(P, 2)] leaves exactly one item for [P], with quantity 3. *)
Theorem handleAddToCart_adds_in_binary64 (c : list Binary64.CartItem) (P : Product)
    (q : float) :
  (∃ c', Binary64.handleAddToCart P q c = Ok c') ∧
  (¬ no_binary64_item_for (id P) c →
     ∃ pre it post,
       c = pre ++ it :: post ∧ no_binary64_item_for (id P) pre ∧
       id (Binary64.product it) = id P ∧
       Binary64.handleAddToCart P q c
       = Ok (pre ++ {| Binary64.product := Binary64.product it;
                       Binary64.quantity := (Binary64.quantity it + q)%float |} :: post)) ∧
  (no_binary64_item_for (id P) c →
     Binary64.handleAddToCart P q c
     = Ok (c ++ [{| Binary64.product := P; Binary64.quantity := q |}]) ∧
     (Binary64.handleAddToCart P 1 c ≫= Binary64.handleAddToCart P 2)
     = Ok (c ++ [{| Binary64.product := P; Binary64.quantity := 3 |}]) ∧
     binary64_items_for (id P) (c ++ [{| Binary64.product := P; Binary64.quantity := 3 |}])
     = 1%nat) ∧
  (∀ quantity0 q0 : Z,
     (0 ≤ quantity0)%Z → (0 ≤ q0)%Z → (quantity0 + q0 ≤ 2 ^ 53)%Z →
     (of_integer quantity0 + of_integer q0)%float = of_integer (quantity0 + q0)).
Proof.
  assert (¬ no_binary64_item_for (id P) c →
     ∃ pre it post,
       c = pre ++ it :: post ∧ no_binary64_item_for (id P) pre ∧
       id (Binary64.product it) = id P ∧
       Binary64.handleAddToCart P q c
       = Ok (pre ++ {| Binary64.product := Binary64.product it;
                       Binary64.quantity := (Binary64.quantity it + q)%float |} :: post))
    as Hexisting.
  { intros Hsome.
    destruct (first_match_split (λ it, String.eqb (id (Binary64.product it)) (id P)) c)
      as [Hnone | (pre & it & post & -> & Hpre & Hit)].
    - exfalso. apply Hsome, binary64_id_test_false, Hnone.
    - apply binary64_id_test_false in Hpre. apply String.eqb_eq in Hit.
      exists pre, it, post. repeat split; try assumption.
      apply Binary64_handleAddToCart_existing; assumption. }
  split; [|split; [exact Hexisting|split; [|apply add_exact]]].
  - destruct (first_match_split (λ it, String.eqb (id (Binary64.product it)) (id P)) c)
      as [Hnone | Hsome].
    + apply binary64_id_test_false in Hnone.
      rewrite (Binary64_handleAddToCart_fresh P q c Hnone). eauto.
    + destruct Hexisting as (pre & it & post & _ & _ & _ & ->); [|eauto].
      intros Hnone. apply binary64_id_test_false in Hnone.
      destruct Hsome as (pre & x & post & -> & _ & Hx).
      apply Forall_app in Hnone as [_ Hnone]. apply Forall_cons_1 in Hnone as [Hnone _].
      congruence.
  - clear Hexisting.
    intros Hnone. split; [apply Binary64_handleAddToCart_fresh, Hnone|]. split.
    + rewrite (Binary64_handleAddToCart_fresh P 1 c Hnone). simpl.
      apply (Binary64_handleAddToCart_existing P 2 c
               {| Binary64.product := P; Binary64.quantity := 1 |} []);
        [exact Hnone | reflexivity].
    + unfold binary64_items_for. rewrite List.filter_app, length_app. simpl.
      rewrite String.eqb_refl. simpl.
      apply binary64_id_test_false in Hnone.
      assert (List.filter (λ it, String.eqb (id (Binary64.product it)) (id P)) c = []) as ->;
        [|reflexivity].
      induction Hnone as [|x l Hx _ IH]; simpl; [reflexivity|]. rewrite Hx. exact IH.
Qed.

Lemma handleAddToCart_adds_in_binary64_witness :
  (Binary64.handleAddToCart tshirt 1 [] ≫= Binary64.handleAddToCart tshirt 2)
  = Ok [{| Binary64.product := tshirt; Binary64.quantity := 3 |}].
Proof.
  exact (proj1 (proj2 (proj1 (proj2 (proj2 (handleAddToCart_adds_in_binary64 [] tshirt 1)))
                         (List.Forall_nil _)))).
Defined.

(** C5, the claim as written fails: the sum of binary64 numbers is not
    always the sum.  On a cart that holds the wallet with quantity 2^53 (a
    positive integer, as a stored cart can hold it) [Add(wallet, 1)] leaves
    the quantity as it is, although 1 is not 0; on integers the quantity
    would be 2^53 + 1. *)
Lemma add_to_2_53_changes_nothing :
  Binary64.handleAddToCart wallet 1
    [{| Binary64.product := wallet; Binary64.quantity := 9007199254740992 |}]
  = Ok [{| Binary64.product := wallet; Binary64.quantity := 9007199254740992 |}] ∧
  (1 =? 0)%float = false ∧
  handleAddToCart wallet 1 [{| product := wallet; quantity := 2 ^ 53 |}]
  = Ok [{| product := wallet; quantity := 2 ^ 53 + 1 |}] ∧
  of_integer (2 ^ 53) = 9007199254740992%float ∧
  (of_integer (2 ^ 53) + of_integer 1)%float = of_integer (2 ^ 53).
Proof. repeat split; vm_compute; reflexivity. Qed.

(** ** [handleUpdateQty] and [handleRemove] *)

(** Whatever the cart holds: [UpdateQuantity(productId, newQuantity)] gives
    every item for [productId] the quantity [newQuantity] and then keeps the
    items whose quantity is positive. *)
Lemma handleUpdateQty_filters (c : Cart) (productId : string) (newQuantity : Z) :
  ((0 < newQuantity)%Z →
     handleUpdateQty productId newQuantity c
     = map (λ it, if String.eqb (id (product it)) productId
                  then {| product := product it; quantity := newQuantity |}
                  else it)
         (List.filter (λ it, String.eqb (id (product it)) productId || (0 <? quantity it)%Z) c)) ∧
  ((newQuantity ≤ 0)%Z →
     handleUpdateQty productId newQuantity c
     = List.filter (λ it, negb (String.eqb (id (product it)) productId) && (0 <? quantity it)%Z) c ∧
     no_item_for productId (handleUpdateQty productId newQuantity c)).
Proof.
  unfold handleUpdateQty. split.
  - intros Hq. induction c as [|it c IH]; simpl; [reflexivity|].
    destruct (String.eqb (id (product it)) productId) eqn:Hid; simpl.
    + replace (0 <? newQuantity)%Z with true by (symmetry; apply Z.ltb_lt; lia).
      simpl. rewrite Hid. f_equal. exact IH.
    + destruct (0 <? quantity it)%Z; simpl; [rewrite Hid; f_equal|]; exact IH.
  - intros Hq. split.
    + induction c as [|it c IH]; simpl; [reflexivity|].
      destruct (String.eqb (id (product it)) productId) eqn:Hid; simpl.
      * replace (0 <? newQuantity)%Z with false by (symmetry; apply Z.ltb_ge; lia). exact IH.
      * destruct (0 <? quantity it)%Z; simpl; [f_equal|]; exact IH.
    + induction c as [|it c IH]; simpl; [constructor|].
      destruct (String.eqb (id (product it)) productId) eqn:Hid; simpl.
      * replace (0 <? newQuantity)%Z with false by (symmetry; apply Z.ltb_ge; lia). exact IH.
      * destruct (0 <? quantity it)%Z; [constructor|]; try exact IH.
        apply String.eqb_neq, Hid.
Qed.

(** C6.  On a cart (every quantity a positive integer),
    [UpdateQuantity(productId, newQuantity)] with [newQuantity > 0] sets the
    quantity of the item for [productId] to [newQuantity] and leaves the
    other items as they are; with [newQuantity ≤ 0] it removes that item (it
    acts as [Remove], and no item for [productId] remains); and it leaves the
    cart unchanged when no item is for [productId]. *)
Theorem handleUpdateQty_sets_or_removes (c : Cart) (productId : string) (newQuantity : Z) :
  Forall (λ it, (0 < quantity it)%Z) c →
  ((0 < newQuantity)%Z →
     handleUpdateQty productId newQuantity c
     = map (λ it, if String.eqb (id (product it)) productId
                  then {| product := product it; quantity := newQuantity |}
                  else it) c) ∧
  ((newQuantity ≤ 0)%Z →
     handleUpdateQty productId newQuantity c = handleRemove productId c ∧
     no_item_for productId (handleUpdateQty productId newQuantity c)) ∧
  (no_item_for productId c → handleUpdateQty productId newQuantity c = c).
Proof.
  intros Hpos. split; [|split].
  - unfold handleUpdateQty.
    intros Hq. induction Hpos as [|it c Hit _ IH]; simpl; [reflexivity|].
    destruct (String.eqb (id (product it)) productId); simpl.
    + replace (0 <? newQuantity)%Z with true by (symmetry; apply Z.ltb_lt; lia).
      f_equal. exact IH.
    + replace (0 <? quantity it)%Z with true by (symmetry; apply Z.ltb_lt; lia).
      f_equal. exact IH.
  - intros Hq. split; [|apply handleUpdateQty_filters, Hq].
    unfold handleUpdateQty, handleRemove.
    induction Hpos as [|it c Hit _ IH]; simpl; [reflexivity|].
    destruct (String.eqb (id (product it)) productId); simpl.
    + replace (0 <? newQuantity)%Z with false by (symmetry; apply Z.ltb_ge; lia). exact IH.
    + replace (0 <? quantity it)%Z with true by (symmetry; apply Z.ltb_lt; lia).
      f_equal. exact IH.
  - unfold handleUpdateQty.
    intros Hnone. induction Hpos as [|it c Hit _ IH]; simpl; [reflexivity|].
    apply Forall_cons_1 in Hnone as [Hne Hnone].
    apply String.eqb_neq in Hne. rewrite Hne. simpl.
    replace (0 <? quantity it)%Z with true by (symmetry; apply Z.ltb_lt; lia).
    f_equal. apply IH, Hnone.
Qed.

Lemma handleUpdateQty_sets_or_removes_witness :
  Forall (λ it, (0 < quantity it)%Z) example_cart ∧
  handleUpdateQty "p2" 5 example_cart
  = [ {| product := tshirt; quantity := 5 |}; {| product := wallet; quantity := 1 |} ] ∧
  handleUpdateQty "p2" 0 example_cart = [ {| product := wallet; quantity := 1 |} ] ∧
  handleUpdateQty "p9" 4 example_cart = example_cart.
Proof.
  assert (Forall (λ it, (0 < quantity it)%Z) example_cart) as Hpos
    by (repeat constructor).
  split; [exact Hpos|]. split; [|split].
  - refine (proj1 (handleUpdateQty_sets_or_removes example_cart "p2" 5 Hpos) _). lia.
  - refine (proj1 (proj1 (proj2 (handleUpdateQty_sets_or_removes example_cart "p2" 0 Hpos)) _)).
    lia.
  - refine (proj2 (proj2 (handleUpdateQty_sets_or_removes example_cart "p9" 4 Hpos)) _).
    repeat constructor; discriminate.
Defined.

(** A binary64 number that is at most 0 is not above 0. *)
Lemma not_positive (q : float) : (q <=? 0)%float = true → (0 <? q)%float = false.
Proof.
  rewrite leb_spec, ltb_spec. unfold SFleb, SFltb.
  change (Prim2SF 0) with (S754_zero false).
  destruct (Prim2SF q) as [[]|[]| |[] m e]; simpl; congruence.
Qed.

(** The same on binary64 numbers, whatever numbers the quantities are: on a
    cart of positive quantities, [UpdateQuantity(productId, newQuantity)]
    with [newQuantity > 0] sets the quantity of the item for [productId];
    with [newQuantity ≤ 0] it acts as [Remove]; with no item for [productId]
    it leaves the cart unchanged. *)
Lemma Binary64_handleUpdateQty_sets_or_removes (c : list Binary64.CartItem)
    (productId : string) (newQuantity : float) :
  Forall (λ it, (0 <? Binary64.quantity it)%float = true) c →
  ((0 <? newQuantity)%float = true →
     Binary64.handleUpdateQty productId newQuantity c
     = map (λ it, if String.eqb (id (Binary64.product it)) productId
                  then {| Binary64.product := Binary64.product it;
                          Binary64.quantity := newQuantity |}
                  else it) c) ∧
  ((newQuantity <=? 0)%float = true →
     Binary64.handleUpdateQty productId newQuantity c = Binary64.handleRemove productId c ∧
     no_binary64_item_for productId (Binary64.handleUpdateQty productId newQuantity c)) ∧
  (no_binary64_item_for productId c →
     Binary64.handleUpdateQty productId newQuantity c = c).
Proof.
  intros Hpos. unfold Binary64.handleUpdateQty, Binary64.handleRemove. split; [|split].
  - intros Hq. induction Hpos as [|it c Hit _ IH]; simpl; [reflexivity|].
    destruct (String.eqb (id (Binary64.product it)) productId); simpl.
    + rewrite Hq. f_equal. exact IH.
    + rewrite Hit. f_equal. exact IH.
  - intros Hq. apply not_positive in Hq. split.
    + induction Hpos as [|it c Hit _ IH]; simpl; [reflexivity|].
      destruct (String.eqb (id (Binary64.product it)) productId); simpl.
      * rewrite Hq. exact IH.
      * rewrite Hit. f_equal. exact IH.
    + induction Hpos as [|it c Hit _ IH]; simpl; [constructor|].
      destruct (String.eqb (id (Binary64.product it)) productId) eqn:Hid; simpl.
      * rewrite Hq. exact IH.
      * rewrite Hit. constructor; [apply String.eqb_neq, Hid | exact IH].
  - intros Hnone. induction Hpos as [|it c Hit _ IH]; simpl; [reflexivity|].
    apply Forall_cons_1 in Hnone as [Hne Hnone].
    apply String.eqb_neq in Hne. rewrite Hne. simpl. rewrite Hit.
    f_equal. apply IH, Hnone.
Qed.

(** A quantity that is not positive does not survive an update, whichever
    identifier the update is for. *)
Example handleUpdateQty_drops_a_zero_quantity :
  handleUpdateQty "p2" 5 [{| product := wallet; quantity := 0 |}] = [].
Proof. reflexivity. Qed.

(** ** The subtotal *)

(** C1 (amended).  For a cart of a product priced 19.99 with quantity 2 and a
    product priced 49.00 with quantity 1 the subtotal is 88.98, not 87.98.
    On binary64 numbers the same sum is 88.97999999999999, which lies between
    88.975 and 88.985 (two decimals render it as 88.98), and is not 87.98
    either. *)
Theorem subtotal_of_example (a b : Product) :
  (price a == 19.99)%Q → (price b == 49.00)%Q →
  (subtotal [ {| product := a; quantity := 2 |}; {| product := b; quantity := 1 |} ] == 88.98)%Q ∧
  ¬ (subtotal [ {| product := a; quantity := 2 |}; {| product := b; quantity := 1 |} ] == 87.98)%Q ∧
  subtotal_binary64 [ (19.99, 2); (49.00, 1) ]%float = 88.97999999999999%float ∧
  PrimFloat.ltb 88.975 (subtotal_binary64 [ (19.99, 2); (49.00, 1) ]%float) = true ∧
  PrimFloat.ltb (subtotal_binary64 [ (19.99, 2); (49.00, 1) ]%float) 88.985 = true ∧
  PrimFloat.eqb (subtotal_binary64 [ (19.99, 2); (49.00, 1) ]%float) 87.98 = false.
Proof.
  intros Ha Hb.
  assert (subtotal [ {| product := a; quantity := 2 |}; {| product := b; quantity := 1 |} ]
          == 88.98)%Q as Hsum.
  { unfold subtotal. simpl. rewrite Ha, Hb. reflexivity. }
  split; [exact Hsum|]. split; [|repeat split; vm_compute; reflexivity].
  rewrite Hsum. intros H. discriminate H.
Qed.

Lemma subtotal_of_example_witness :
  (subtotal example_cart == 88.98)%Q.
Proof.
  refine (proj1 (subtotal_of_example tshirt wallet _ _)); reflexivity.
Defined.

(** C1, the claim as written fails: the subtotal of the example cart is not
    87.98. *)
Lemma subtotal_of_example_is_not_87_98 :
  Qeq_bool (subtotal example_cart) 87.98 = false ∧
  PrimFloat.eqb (subtotal_binary64 [ (19.99, 2); (49.00, 1) ]%float) 87.98 = false.
Proof.
  split; vm_compute; reflexivity.
Qed.

(** ** The cart invariant under the handlers *)

Lemma ids_of_filter_NoDup (keep : CartItem → bool) (c : Cart) :
  one_item_per_product c → one_item_per_product (List.filter keep c).
Proof.
  unfold one_item_per_product. induction c as [|it c IH]; simpl; [auto|].
  rewrite NoDup_cons. intros [Hnotin Hnd]. destruct (keep it); simpl; [|auto].
  apply NoDup_cons. split; [|auto].
  intros Hin. apply Hnotin.
  apply list_elem_of_In, in_map_iff in Hin as (x & Hx & Hin).
  apply filter_In in Hin as [Hin _].
  apply list_elem_of_In, in_map_iff. eauto.
Qed.

Lemma ids_of_update (productId : string) (q : Z) (c : Cart) :
  map (λ it, id (product it))
    (map (λ it, if String.eqb (id (product it)) productId
                then {| product := product it; quantity := q |}
                else it) c)
  = map (λ it, id (product it)) c.
Proof.
  induction c as [|it c IH]; simpl; [reflexivity|]. rewrite IH.
  destruct (String.eqb (id (product it)) productId); reflexivity.
Qed.

Lemma handleUpdateQty_invariant (productId : string) (q : Z) (c : Cart) :
  one_item_per_product c → one_item_per_product (handleUpdateQty productId q c).
Proof.
  intros Hc. unfold handleUpdateQty. apply ids_of_filter_NoDup.
  unfold one_item_per_product. rewrite ids_of_update. exact Hc.
Qed.

Lemma handleAddToCart_invariant (P : Product) (q : Z) (c c' : Cart) :
  one_item_per_product c → handleAddToCart P q c = Ok c' → one_item_per_product c'.
Proof.
  unfold one_item_per_product. intros Hc Hadd.
  destruct (handleAddToCart_total P q c) as (c'' & Hc'' & Hids).
  rewrite Hadd in Hc''. injection Hc'' as <-. rewrite Hids.
  destruct (decide (id P ∈ map (λ it, id (product it)) c)) as [Hin|Hnotin].
  - rewrite app_nil_r. exact Hc.
  - apply NoDup_app. split; [exact Hc|]. split; [|apply NoDup_singleton].
    intros x Hx Hx'. apply list_elem_of_singleton in Hx'. subst x. exact (Hnotin Hx).
Qed.

Lemma reduce_invariant (a : Action) (c next : Cart) :
  one_item_per_product c → reduce a c = Ok next → one_item_per_product next.
Proof.
  intros Hc. destruct a as [P q|productId q|productId|]; simpl; intros Hred.
  - eapply handleAddToCart_invariant; eauto.
  - injection Hred as <-. apply handleUpdateQty_invariant, Hc.
  - injection Hred as <-. apply ids_of_filter_NoDup, Hc.
  - injection Hred as <-. constructor.
Qed.

Lemma reduce_total (a : Action) (c : Cart) : ∃ next, reduce a c = Ok next.
Proof.
  destruct a as [P q|productId q|productId|]; simpl; eauto.
  destruct (handleAddToCart_total P q c) as (c' & Hc' & _). eauto.
Qed.

(** ** Hydration and persistence *)

Section CartPersistenceProperties.

Context (JSON_parse : string → result Cart) (JSON_stringify : Cart → string).

Lemma persistCart_total (c : Cart) (st : Storage) :
  ∃ st', persistCart JSON_stringify c st = Ok st' ∧
    (setItem CART_STORAGE_KEY (JSON_stringify c) st = Ok st' ∨
     (∃ e, setItem CART_STORAGE_KEY (JSON_stringify c) st = Throw e) ∧ st' = st).
Proof.
  unfold persistCart.
  destruct (setItem CART_STORAGE_KEY (JSON_stringify c) st) as [st'|e] eqn:Hset; simpl.
  - exists st'. auto.
  - exists st. split; [reflexivity|]. right. eauto.
Qed.

Lemma loadCart_total (st : Storage) (c0 : Cart) :
  ∃ c, loadCart JSON_parse st c0 = Ok c ∧
    (c = c0 ∨
     ∃ text, getItem CART_STORAGE_KEY st = Ok (Some text) ∧ JSON_parse text = Ok c).
Proof.
  unfold loadCart.
  destruct (getItem CART_STORAGE_KEY st) as [[text|]|e] eqn:Hget; simpl;
    try (exists c0; split; [reflexivity | left; reflexivity]).
  destruct (truthy text); simpl;
    try (exists c0; split; [reflexivity | left; reflexivity]).
  destruct (JSON_parse text) as [c|e] eqn:Hparse; simpl.
  - exists c. split; [reflexivity|]. right. exists text. auto.
  - exists c0. split; [reflexivity | left; reflexivity].
Qed.

Lemma mount_total (st : Storage) :
  ∃ s, mount JSON_parse JSON_stringify st = Ok s ∧
       loadCart JSON_parse st [] = Ok (cart s).
Proof.
  unfold mount.
  destruct (loadCart_total st []) as (c & -> & _). simpl.
  destruct (persistCart_total [] st) as (st1 & -> & _). simpl.
  destruct (persistCart_total c st1) as (st2 & -> & _). simpl. eauto.
Qed.

Lemma dispatch_total (a : Action) (s : PageState) :
  ∃ next st',
    dispatch JSON_stringify a s = Ok {| cart := next; storage := st' |} ∧
    reduce a (cart s) = Ok next ∧
    (setItem CART_STORAGE_KEY (JSON_stringify next) (storage s) = Ok st' ∨
     (∃ e, setItem CART_STORAGE_KEY (JSON_stringify next) (storage s) = Throw e) ∧
     st' = storage s).
Proof.
  unfold dispatch. destruct (reduce_total a (cart s)) as (next & Hnext).
  rewrite Hnext. simpl.
  destruct (persistCart_total next (storage s)) as (st' & Hst' & Hcases).
  rewrite Hst'. simpl. eauto.
Qed.

(** C9.  Mounting the page never throws, and when the storage cannot be read,
    the slot is absent, or its text fails to parse, the cart starts empty.  A
    mutation never throws either: the cart becomes what the handler computes,
    whether the write to storage succeeds (the slot then holds the new cart)
    or fails (the storage is left as it was). *)
Theorem persistence_degrades_silently (st : Storage) :
  (∃ s, mount JSON_parse JSON_stringify st = Ok s) ∧
  ((∃ e, getItem CART_STORAGE_KEY st = Throw e) ∨
   getItem CART_STORAGE_KEY st = Ok None ∨
   (∃ text e, getItem CART_STORAGE_KEY st = Ok (Some text) ∧ JSON_parse text = Throw e) →
     loadCart JSON_parse st [] = Ok [] ∧
     ∃ st', mount JSON_parse JSON_stringify st = Ok {| cart := []; storage := st' |}) ∧
  (∀ (a : Action) (c : Cart),
     ∃ next st',
       dispatch JSON_stringify a {| cart := c; storage := st |}
       = Ok {| cart := next; storage := st' |} ∧
       reduce a c = Ok next ∧
       (setItem CART_STORAGE_KEY (JSON_stringify next) st = Ok st' ∨
        (∃ e, setItem CART_STORAGE_KEY (JSON_stringify next) st = Throw e) ∧ st' = st)).
Proof.
  split; [|split].
  - destruct (mount_total st) as (s & Hs & _). eauto.
  - intros Hcase.
    assert (loadCart JSON_parse st [] = Ok []) as Hload.
    { unfold loadCart.
      destruct Hcase as [(e & ->) | [-> | (text & e & -> & Hparse)]]; simpl; try reflexivity.
      destruct (truthy text); simpl; [rewrite Hparse|]; reflexivity. }
    split; [exact Hload|].
    destruct (mount_total st) as ([c st'] & Hs & Hc). simpl in Hc.
    rewrite Hload in Hc. injection Hc as <-. eauto.
  - intros a c. apply (dispatch_total a {| cart := c; storage := st |}).
Qed.

Lemma reachable_invariant (st0 : Storage) :
  (∀ text parsed,
     getItem CART_STORAGE_KEY st0 = Ok (Some text) → JSON_parse text = Ok parsed →
     one_item_per_product parsed) →
  ∀ s, reachable JSON_parse JSON_stringify st0 s → one_item_per_product (cart s).
Proof.
  intros Hstored s Hreach. induction Hreach as [s Hmount | a s s' _ IH Hstep].
  - destruct (mount_total st0) as (s0 & Hs0 & Hload).
    rewrite Hmount in Hs0. injection Hs0 as <-.
    destruct (loadCart_total st0 []) as (c & Hc & Hcases).
    rewrite Hload in Hc. injection Hc as <-.
    destruct Hcases as [-> | (text & Hget & Hparse)]; [constructor | eauto].
  - destruct (dispatch_total a s) as (next & st' & Hs' & Hnext & _).
    rewrite Hstep in Hs'. injection Hs' as ->. simpl.
    eapply reduce_invariant; eauto.
Qed.

(** C2 (amended).  The empty cart has at most one item per product
    identifier, each of Add, UpdateQuantity, Remove and Clear preserves that,
    and hydration installs the parsed sequence as it is.  So every reachable
    cart has the invariant provided the text in the cart slot, if it parses,
    parses to a sequence that has it; that is the case when the slot holds
    what the store itself persisted for a cart with the invariant. *)
Theorem one_item_per_product_reachable (st0 : Storage) :
  one_item_per_product [] ∧
  (∀ (a : Action) (c next : Cart),
     one_item_per_product c → reduce a c = Ok next → one_item_per_product next) ∧
  (∀ text parsed,
     getItem CART_STORAGE_KEY st0 = Ok (Some text) → truthy text = true →
     JSON_parse text = Ok parsed → loadCart JSON_parse st0 [] = Ok parsed) ∧
  ((∀ text parsed,
      getItem CART_STORAGE_KEY st0 = Ok (Some text) → JSON_parse text = Ok parsed →
      one_item_per_product parsed) →
   ∀ s, reachable JSON_parse JSON_stringify st0 s → one_item_per_product (cart s)) ∧
  (∀ persisted,
     (∀ c, JSON_parse (JSON_stringify c) = Ok c) →
     one_item_per_product persisted →
     entries st0 !! CART_STORAGE_KEY = Some (JSON_stringify persisted) →
     ∀ s, reachable JSON_parse JSON_stringify st0 s → one_item_per_product (cart s)).
Proof.
  split; [constructor|]. split; [apply reduce_invariant|]. split; [|split].
  - intros text parsed Hget Htruthy Hparse. unfold loadCart.
    rewrite Hget. simpl. rewrite Htruthy, Hparse. reflexivity.
  - apply reachable_invariant.
  - intros persisted Hround Hinv Hslot. apply reachable_invariant.
    intros text parsed Hget Hparse. unfold getItem in Hget.
    destruct (available st0); [|discriminate Hget].
    rewrite Hslot in Hget. injection Hget as <-.
    rewrite Hround in Hparse. injection Hparse as <-. exact Hinv.
Qed.

End CartPersistenceProperties.

Lemma persistence_degrades_silently_witness :
  loadCart (table_parse []) corrupt_storage [] = Ok [].
Proof.
  refine (proj1 (proj1 (proj2 (persistence_degrades_silently
                                 (table_parse []) ids_stringify corrupt_storage)) _)).
  right. right. exists "{not json", SyntaxError. split; vm_compute; reflexivity.
Defined.

(** On a storage that is full the write fails; the cart is the handler's
    result all the same, and the storage is as it was. *)
Example dispatch_on_full_storage :
  dispatch ids_stringify (Add mug 1) {| cart := example_cart; storage := full_storage |}
  = Ok {| cart := example_cart ++ [{| product := mug; quantity := 1 |}];
          storage := full_storage |}.
Proof. vm_compute. reflexivity. Qed.

Lemma one_item_per_product_reachable_witness :
  ∃ s, mount (table_parse [("p2,p1", example_cart)]) ids_stringify
         {| entries := {[ CART_STORAGE_KEY := "p2,p1" ]}; available := true; quota := 4096 |}
       = Ok s ∧
       cart s = example_cart ∧
       one_item_per_product (cart s).
Proof.
  eexists. split; [vm_compute; reflexivity|]. split; [reflexivity|].
  refine (proj1 (proj2 (proj2 (proj2 (one_item_per_product_reachable
            (table_parse [("p2,p1", example_cart)]) ids_stringify
            {| entries := {[ CART_STORAGE_KEY := "p2,p1" ]}; available := true;
               quota := 4096 |})))) _ _ (reachable_mount _ _ _ _ _)).
  - intros text parsed Hget Hparse.
    vm_compute in Hget. injection Hget as <-.
    vm_compute in Hparse. injection Hparse as <-.
    unfold one_item_per_product. simpl.
    apply (bool_decide_unpack _). vm_compute. exact I.
  - vm_compute. reflexivity.
Defined.

(** C2, the claim as written fails: hydration installs what the slot holds.
    Over a storage whose slot parses to two items for "p1", the mounted page
    has a cart that breaks the invariant. *)
Lemma hydration_keeps_duplicates :
  ∃ s, reachable (table_parse [(duplicate_text, duplicate_cart)]) ids_stringify
         duplicate_storage s ∧
       cart s = duplicate_cart ∧
       ¬ one_item_per_product (cart s).
Proof.
  eexists. split; [apply reachable_mount; vm_compute; reflexivity|].
  split; [reflexivity|]. simpl. unfold one_item_per_product. simpl.
  rewrite NoDup_cons. intros [Hnotin _]. apply Hnotin. constructor.
Qed.

(** ** Substrings *)

Lemma prefix_iff (q s : string) : String.prefix q s = true ↔ ∃ post, s = q +:+ post.
Proof.
  revert s. induction q as [|a q IH]; intros s.
  - split; [intros _; exists s; reflexivity | intros _; destruct s; reflexivity].
  - destruct s as [|b s]; simpl.
    + split; [discriminate | intros [post Hpost]; discriminate Hpost].
    + destruct (Ascii.ascii_dec a b) as [->|Hne].
      * rewrite IH. split; intros [post Hpost]; exists post; simpl in *.
        -- rewrite Hpost. reflexivity.
        -- injection Hpost as ->. reflexivity.
      * split; [discriminate|]. intros [post Hpost]. simpl in Hpost.
        injection Hpost as -> _. contradiction.
Qed.

Lemma includes_nil (q : string) : includes "" q = String.prefix q "".
Proof. simpl. apply orb_false_r. Qed.

Lemma includes_cons (c : ascii) (s q : string) :
  includes (String c s) q = String.prefix q (String c s) || includes s q.
Proof. reflexivity. Qed.

Lemma includes_iff (s q : string) : includes s q = true ↔ occurs_in q s.
Proof.
  unfold occurs_in. split.
  - induction s as [|c s IH].
    + rewrite includes_nil. intros Hp.
      apply prefix_iff in Hp as [post ->]. exists "", post. reflexivity.
    + rewrite includes_cons, orb_true_iff. intros [Hp | Hrest].
      * apply prefix_iff in Hp as [post Hpost]. exists "", post. exact Hpost.
      * destruct (IH Hrest) as (pre & post & ->). exists (String c pre), post. reflexivity.
  - intros (pre & post & ->). induction pre as [|c pre IH].
    + change ("" +:+ q +:+ post) with (q +:+ post).
      assert (String.prefix q (q +:+ post) = true) as Hp by (apply prefix_iff; eauto).
      destruct (q +:+ post); [rewrite includes_nil | rewrite includes_cons, Hp]; auto.
    + change (String c pre +:+ q +:+ post) with (String c (pre +:+ q +:+ post)).
      rewrite includes_cons, IH. apply orb_true_r.
Qed.

Example string_builtins_on_samples :
  trim "  Coffee Mug  " = "Coffee Mug" ∧
  trim "   " = "" ∧
  toLowerCase "Ceramic Coffee MUG" = "ceramic coffee mug" ∧
  includes "ceramic coffee mug" " mug" = true ∧
  includes "mug rack" " mug" = false ∧
  includes "mug rack" "" = true.
Proof. repeat split; reflexivity. Qed.

Lemma truthy_iff (s : string) : truthy s = true ↔ s ≠ "".
Proof. destruct s; simpl; split; congruence. Qed.

(** ** [sort]: ordered, a permutation, stable *)

Section SortProperties.

Context {A : Type} (key : A → Q) (compareFn : A → A → Q).

(** The comparator orders by [key], increasing. *)
Hypothesis compare_key : ∀ a b, Qle_bool (compareFn a b) 0 = Qle_bool (key a) (key b).

Lemma sort_insert_perm (a : A) (l : list A) : Permutation (sort_insert compareFn a l) (a :: l).
Proof.
  induction l as [|b l IH]; simpl; [reflexivity|].
  destruct (Qle_bool (compareFn a b) 0); [reflexivity|].
  rewrite IH. apply perm_swap.
Qed.

Lemma sort_perm (l : list A) : Permutation (sort compareFn l) l.
Proof.
  induction l as [|a l IH]; simpl; [reflexivity|].
  rewrite sort_insert_perm, IH. reflexivity.
Qed.

Lemma sort_insert_sorted (a : A) (l : list A) :
  StronglySorted (λ x y, key x <= key y)%Q l →
  StronglySorted (λ x y, key x <= key y)%Q (sort_insert compareFn a l).
Proof.
  induction 1 as [|b l Hsorted IH Hb]; simpl.
  - repeat constructor.
  - rewrite compare_key. destruct (Qle_bool (key a) (key b)) eqn:Hab.
    + apply Qle_bool_iff in Hab. constructor; [constructor; assumption|].
      constructor; [exact Hab|].
      eapply Forall_impl; [exact Hb|]. intros x Hx. simpl in *.
      eapply Qle_trans; eassumption.
    + assert (key b <= key a)%Q as Hba.
      { apply Qlt_le_weak, Qnot_le_lt. intros Hle.
        apply Qle_bool_iff in Hle. congruence. }
      constructor; [exact IH|].
      rewrite (sort_insert_perm a l). constructor; assumption.
Qed.

Lemma sort_sorted (l : list A) : StronglySorted (λ x y, key x <= key y)%Q (sort compareFn l).
Proof.
  induction l as [|a l IH]; simpl; [constructor | apply sort_insert_sorted, IH].
Qed.

Lemma sort_insert_stable (k : Q) (a : A) (l : list A) :
  List.filter (λ x, Qeq_bool (key x) k) (sort_insert compareFn a l)
  = List.filter (λ x, Qeq_bool (key x) k) (a :: l).
Proof.
  induction l as [|b l IH]; simpl; [reflexivity|].
  rewrite compare_key. destruct (Qle_bool (key a) (key b)) eqn:Hab; [reflexivity|].
  simpl. rewrite IH. simpl.
  destruct (Qeq_bool (key a) k) eqn:Ha, (Qeq_bool (key b) k) eqn:Hb; try reflexivity.
  exfalso. apply Qeq_bool_iff in Ha, Hb.
  assert (Qle_bool (key a) (key b) = true) as Hle; [|congruence].
  apply Qle_bool_iff. rewrite Ha, Hb. apply Qle_refl.
Qed.

Lemma sort_stable (k : Q) (l : list A) :
  List.filter (λ x, Qeq_bool (key x) k) (sort compareFn l)
  = List.filter (λ x, Qeq_bool (key x) k) l.
Proof.
  induction l as [|a l IH]; simpl; [reflexivity|].
  rewrite sort_insert_stable. simpl. rewrite IH. reflexivity.
Qed.

End SortProperties.

Lemma sorted_by_key {A} (key : A → Q) (le : Q → Q → Prop) (l : list A) :
  StronglySorted (λ x y, le (key x) (key y)) l → StronglySorted le (map key l).
Proof.
  induction 1 as [|a l _ IH Ha]; simpl; constructor; [exact IH|].
  apply Forall_map. exact Ha.
Qed.

Lemma StronglySorted_weaken {A} (R R' : A → A → Prop) (l : list A) :
  (∀ a b, R a b → R' a b) → StronglySorted R l → StronglySorted R' l.
Proof.
  intros HR. induction 1 as [|a l _ IH Ha]; constructor; [exact IH|].
  eapply Forall_impl; [exact Ha | apply HR].
Qed.

Lemma Qle_opp (x y : Q) : (- x <= - y)%Q ↔ (y <= x)%Q.
Proof.
  split; intros H.
  - apply Qopp_le_compat in H. rewrite !Qopp_involutive in H. exact H.
  - apply Qopp_le_compat, H.
Qed.

Lemma Qeq_bool_opp (x k : Q) : Qeq_bool (- x) (- k) = Qeq_bool x k.
Proof.
  apply eq_true_iff_eq. rewrite !Qeq_bool_iff. split; intros H.
  - rewrite <- (Qopp_involutive x), <- (Qopp_involutive k), H. reflexivity.
  - rewrite H. reflexivity.
Qed.

Lemma compare_ascending (x y : Q) : Qle_bool (x - y) 0 = Qle_bool x y.
Proof.
  apply eq_true_iff_eq. rewrite !Qle_bool_iff. split; intros H.
  - apply (Qplus_le_l _ _ (- y)). rewrite Qplus_opp_r. exact H.
  - apply (Qplus_le_l _ _ (- y)) in H. rewrite Qplus_opp_r in H. exact H.
Qed.

Lemma compare_descending (x y : Q) : Qle_bool (y - x) 0 = Qle_bool (- x) (- y).
Proof.
  rewrite compare_ascending. apply eq_true_iff_eq. rewrite !Qle_bool_iff.
  symmetry. apply Qle_opp.
Qed.

(** ** The derived product list *)

Lemma sort_In {A} (compareFn : A → A → Q) (l : list A) (x : A) :
  In x (sort compareFn l) ↔ In x l.
Proof.
  split; apply Permutation_in; [|symmetry]; apply sort_perm.
Qed.

(** Whatever the sort key, the result is a rearrangement of the featured
    (filtered, unsorted) list. *)
Lemma visibleProducts_perm (C : list Product) (search selected : string) (sortBy : SortKey) :
  Permutation (visibleProducts C search selected sortBy)
              (visibleProducts C search selected featured).
Proof.
  unfold visibleProducts. destruct sortBy; try apply sort_perm. reflexivity.
Qed.

Lemma visibleProducts_featured_In (C : list Product) (search selected : string) (p : Product) :
  In p (visibleProducts C search selected featured) ↔
  In p C ∧
  (truthy (trim search) = true → matches (toLowerCase search) p = true) ∧
  (selected ≠ "All" → category_is selected p = true).
Proof.
  unfold visibleProducts.
  destruct (truthy (trim search)); destruct (String.eqb selected "All") eqn:Hsel; simpl;
    rewrite ?filter_In.
  - apply String.eqb_eq in Hsel. intuition congruence.
  - apply String.eqb_neq in Hsel. intuition congruence.
  - apply String.eqb_eq in Hsel. intuition congruence.
  - apply String.eqb_neq in Hsel. intuition congruence.
Qed.

Lemma visibleProducts_In (C : list Product) (search selected : string) (sortBy : SortKey)
    (p : Product) :
  In p (visibleProducts C search selected sortBy) ↔
  In p C ∧
  (truthy (trim search) = true → matches (toLowerCase search) p = true) ∧
  (selected ≠ "All" → category_is selected p = true).
Proof.
  rewrite <- visibleProducts_featured_In. split; apply Permutation_in;
    [|symmetry]; apply visibleProducts_perm.
Qed.

Lemma matches_iff (search : string) (p : Product) :
  matches (toLowerCase search) p = true ↔
  ci_substring_of search (title p) ∨ ci_substring_of search (description p).
Proof.
  unfold matches, ci_substring_of. rewrite orb_true_iff, !includes_iff. reflexivity.
Qed.

(** C3.  With a search text that is not empty once trimmed, every product of
    the result has the search text as a case-insensitive substring of its
    title or of its description, and a product of the catalog whose title and
    description both lack it is not in the result; the result holds exactly
    the products the same derivation without a search text would show that
    have it. *)
Theorem visibleProducts_search_matches (C : list Product) (search selected : string)
    (sortBy : SortKey) (p : Product) :
  trim search ≠ "" →
  (In p (visibleProducts C search selected sortBy) →
     ci_substring_of search (title p) ∨ ci_substring_of search (description p)) ∧
  (In p C →
     ¬ ci_substring_of search (title p) → ¬ ci_substring_of search (description p) →
     ¬ In p (visibleProducts C search selected sortBy)) ∧
  (In p (visibleProducts C search selected sortBy) ↔
     In p (visibleProducts C "" selected sortBy) ∧
     (ci_substring_of search (title p) ∨ ci_substring_of search (description p))).
Proof.
  intros Htrim. apply truthy_iff in Htrim.
  assert (In p (visibleProducts C search selected sortBy) →
          ci_substring_of search (title p) ∨ ci_substring_of search (description p)) as Hin.
  { rewrite visibleProducts_In. intros (_ & Hmatch & _). apply matches_iff, Hmatch, Htrim. }
  split; [exact Hin|]. split.
  - intros _ Htitle Hdesc Hp. destruct (Hin Hp); contradiction.
  - rewrite !visibleProducts_In, <- matches_iff. simpl. rewrite Htrim.
    intuition congruence.
Qed.

Lemma visibleProducts_search_matches_witness :
  ci_substring_of "MUG" (title mug) ∨ ci_substring_of "MUG" (description mug).
Proof.
  refine (proj1 (visibleProducts_search_matches SAMPLE_PRODUCTS "MUG" "All" featured mug _) _).
  - vm_compute. discriminate.
  - vm_compute. auto.
Defined.

(** C10.  With a search text that is not empty once trimmed, the filter uses
    the lower-cased search text as typed, white space included: the result is
    the derivation, without a search text, of the products in whose
    lower-cased title or description that text occurs.  The catalog of the
    mug rack and the mug shows the difference from the trimmed text: " mug"
    finds the mug only, "mug" finds both. *)
Theorem search_text_is_not_trimmed (C : list Product) (search selected : string)
    (sortBy : SortKey) :
  trim search ≠ "" →
  visibleProducts C search selected sortBy
  = visibleProducts (List.filter (matches (toLowerCase search)) C) "" selected sortBy ∧
  (∀ p, In p (visibleProducts C search selected sortBy) →
        occurs_in (toLowerCase search) (toLowerCase (title p)) ∨
        occurs_in (toLowerCase search) (toLowerCase (description p))) ∧
  (trim " mug" = "mug" ∧
   visibleProducts [mug_rack; mug] " mug" "All" featured = [mug] ∧
   visibleProducts [mug_rack; mug] "mug" "All" featured = [mug_rack; mug]).
Proof.
  intros Htrim. apply truthy_iff in Htrim. split; [|split].
  - unfold visibleProducts. rewrite Htrim. reflexivity.
  - intros p. rewrite visibleProducts_In. intros (_ & Hmatch & _).
    specialize (Hmatch Htrim). unfold matches in Hmatch.
    rewrite orb_true_iff, !includes_iff in Hmatch. exact Hmatch.
  - repeat split; vm_compute; reflexivity.
Qed.

Lemma search_text_is_not_trimmed_witness :
  visibleProducts SAMPLE_PRODUCTS "mug " "All" featured
  = visibleProducts (List.filter (matches (toLowerCase "mug ")) SAMPLE_PRODUCTS) "" "All" featured.
Proof.
  refine (proj1 (search_text_is_not_trimmed SAMPLE_PRODUCTS "mug " "All" featured _)).
  vm_compute. discriminate.
Defined.

(** On prices and rates that are proper numbers: under price-ascending the
    prices of the result are non-decreasing, under price-descending
    non-increasing, under rating non-increasing in the rate, a product
    without rating counting as rate 0.  Each is a rearrangement of the
    featured (filtered, unsorted) result in which the products of equal
    price, or of equal rate, keep the order they have there. *)
Lemma visibleProducts_sorted_stable (C : list Product) (search selected : string) :
  (StronglySorted Qle (map price (visibleProducts C search selected price_asc)) ∧
   StronglySorted (λ x y, y <= x)%Q (map price (visibleProducts C search selected price_desc)) ∧
   StronglySorted (λ x y, y <= x)%Q
     (map rating_rate (visibleProducts C search selected by_rating))) ∧
  (∀ p, rating p = None → rating_rate p = 0%Q) ∧
  (∀ sortBy, Permutation (visibleProducts C search selected sortBy)
                         (visibleProducts C search selected featured)) ∧
  (∀ k, List.filter (λ p, Qeq_bool (price p) k) (visibleProducts C search selected price_asc)
        = List.filter (λ p, Qeq_bool (price p) k) (visibleProducts C search selected featured)) ∧
  (∀ k, List.filter (λ p, Qeq_bool (price p) k) (visibleProducts C search selected price_desc)
        = List.filter (λ p, Qeq_bool (price p) k) (visibleProducts C search selected featured)) ∧
  (∀ k, List.filter (λ p, Qeq_bool (rating_rate p) k)
          (visibleProducts C search selected by_rating)
        = List.filter (λ p, Qeq_bool (rating_rate p) k)
            (visibleProducts C search selected featured)).
Proof.
  split; [split; [|split]|split; [|split; [|split; [|split]]]].
  - apply sorted_by_key. unfold visibleProducts.
    apply (sort_sorted price). intros a b. apply compare_ascending.
  - apply sorted_by_key. unfold visibleProducts.
    apply (StronglySorted_weaken (λ x y, - price x <= - price y)%Q).
    + intros a b Hab. apply Qle_opp, Hab.
    + apply (sort_sorted (λ p, - price p)%Q). intros a b. apply compare_descending.
  - apply sorted_by_key. unfold visibleProducts.
    apply (StronglySorted_weaken (λ x y, - rating_rate x <= - rating_rate y)%Q).
    + intros a b Hab. apply Qle_opp, Hab.
    + apply (sort_sorted (λ p, - rating_rate p)%Q). intros a b. apply compare_descending.
  - intros p Hp. unfold rating_rate. rewrite Hp. reflexivity.
  - intros sortBy. apply visibleProducts_perm.
  - intros k. unfold visibleProducts.
    apply (sort_stable price). intros a b. apply compare_ascending.
  - intros k. unfold visibleProducts.
    rewrite <- (filter_ext (λ p, Qeq_bool (- price p) (- k))) by (intros; apply Qeq_bool_opp).
    rewrite (sort_stable (λ p, - price p)%Q) by (intros a b; apply compare_descending).
    apply filter_ext. intros. apply Qeq_bool_opp.
  - intros k. unfold visibleProducts.
    rewrite <- (filter_ext (λ p, Qeq_bool (- rating_rate p) (- k)))
      by (intros; apply Qeq_bool_opp).
    rewrite (sort_stable (λ p, - rating_rate p)%Q) by (intros a b; apply compare_descending).
    apply filter_ext. intros. apply Qeq_bool_opp.
Qed.

Example visibleProducts_sample_by_price :
  visibleProducts SAMPLE_PRODUCTS "" "All" price_asc = [mug; tshirt; wallet; headphones] ∧
  visibleProducts SAMPLE_PRODUCTS "" "All" price_desc = [headphones; wallet; tshirt; mug] ∧
  visibleProducts SAMPLE_PRODUCTS "" "All" by_rating = [headphones; wallet; mug; tshirt] ∧
  visibleProducts SAMPLE_PRODUCTS "o" "Home" by_rating = [mug].
Proof. repeat split; vm_compute; reflexivity. Qed.

(** The wallet and the gift card have the same price and the same rate: they
    stay in the order the catalog has them in. *)
Example visibleProducts_keeps_ties :
  visibleProducts [wallet; mug; gift_card] "" "All" price_asc = [mug; wallet; gift_card] ∧
  visibleProducts [gift_card; mug; wallet] "" "All" price_asc = [mug; gift_card; wallet] ∧
  visibleProducts [wallet; mug; gift_card] "" "All" price_desc = [wallet; gift_card; mug] ∧
  visibleProducts [gift_card; mug; wallet] "" "All" by_rating = [gift_card; wallet; mug].
Proof. repeat split; vm_compute; reflexivity. Qed.

(** *** Over numbers that can be [NaN] *)

Lemma filter_of_map {A B} (f : B → bool) (g : A → B) (l : list A) :
  List.filter f (map g l) = map g (List.filter (λ x, f (g x)) l).
Proof.
  induction l as [|a l IH]; simpl; [reflexivity|].
  destruct (f (g a)); simpl; rewrite IH; reflexivity.
Qed.

Lemma sort_of_map {A B} (g : A → B) (compareA : A → A → Q) (compareB : B → B → Q)
    (l : list A) :
  (∀ a b, compareB (g a) (g b) = compareA a b) →
  sort compareB (map g l) = map g (sort compareA l).
Proof.
  intros Hcompare. induction l as [|a l IH]; simpl; [reflexivity|].
  rewrite IH. generalize (sort compareA l). intros sorted.
  induction sorted as [|b sorted IHs]; simpl; [reflexivity|].
  rewrite Hcompare. destruct (Qle_bool (compareA a b) 0); simpl; [reflexivity|].
  rewrite IHs. reflexivity.
Qed.

Lemma rating_rate_with_numbers (p : Product) :
  WithNaN.rating_rate (with_numbers p) = Num (rating_rate p).
Proof. unfold WithNaN.rating_rate, rating_rate. simpl. destruct (rating p); reflexivity. Qed.

(** On a catalog of proper numbers the two memos agree. *)
Lemma visibleProducts_with_numbers (C : list Product) (search selected : string)
    (sortBy : SortKey) :
  WithNaN.visibleProducts (map with_numbers C) search selected sortBy
  = map with_numbers (visibleProducts C search selected sortBy).
Proof.
  unfold WithNaN.visibleProducts, visibleProducts. cbv zeta.
  assert (∀ q l, List.filter (WithNaN.matches q) (map with_numbers l)
                 = map with_numbers (List.filter (matches q) l)) as Hmatches
    by (intros; rewrite filter_of_map; reflexivity).
  assert (∀ c l, List.filter (WithNaN.category_is c) (map with_numbers l)
                 = map with_numbers (List.filter (category_is c) l)) as Hcategory
    by (intros; rewrite filter_of_map; reflexivity).
  destruct (truthy (trim search)); rewrite ?Hmatches;
    destruct (negb (String.eqb selected "All")); rewrite ?Hcategory;
    destruct sortBy; try reflexivity;
    apply sort_of_map; intros a b; rewrite ?rating_rate_with_numbers; reflexivity.
Qed.

Lemma with_numbers_proper (C : list WithNaN.Product) :
  without_NaN C → C = map with_numbers (map proper C).
Proof.
  induction 1 as [|p C [Hprice Hrate] _ IH]; simpl; [reflexivity|].
  rewrite <- IH. f_equal.
  destruct p as [i t d pr im c r]. unfold WithNaN.rating_rate in Hrate. simpl in *.
  destruct pr as [|q]; [contradiction|].
  destruct r as [[[|ra] co]|]; simpl in *; [contradiction| |]; reflexivity.
Qed.

Lemma sorted_numbers (le : Q → Q → Prop) (le' : number → number → Prop) (l : list Q) :
  (∀ x y, le x y → le' (Num x) (Num y)) →
  StronglySorted le l → StronglySorted le' (map Num l).
Proof.
  intros Hle. induction 1 as [|a l _ IH Ha]; simpl; constructor; [exact IH|].
  apply Forall_map. eapply Forall_impl; [exact Ha|]. intros x. apply Hle.
Qed.

Lemma filter_number_eqb (key : Product → Q) (key' : WithNaN.Product → number) (k : number)
    (l l' : list Product) :
  (∀ p, key' (with_numbers p) = Num (key p)) →
  (∀ q, List.filter (λ p, Qeq_bool (key p) q) l = List.filter (λ p, Qeq_bool (key p) q) l') →
  List.filter (λ p, number_eqb (key' p) k) (map with_numbers l)
  = List.filter (λ p, number_eqb (key' p) k) (map with_numbers l').
Proof.
  intros Hkey Hsame. rewrite !filter_of_map. f_equal.
  destruct k as [|q].
  - assert (∀ p, number_eqb (key' (with_numbers p)) NaN = false) as Hfalse
      by (intros p; rewrite Hkey; reflexivity).
    rewrite !(filter_ext _ _ Hfalse), !List.filter_false. reflexivity.
  - assert (∀ p, number_eqb (key' (with_numbers p)) (Num q) = Qeq_bool (key p) q) as Heq
      by (intros p; rewrite Hkey; reflexivity).
    rewrite !(filter_ext _ _ Heq). apply Hsame.
Qed.

(** C4 (amended).  On a catalog in which no price and no rate is [NaN]:
    under price-ascending the prices of the result are non-decreasing, under
    price-descending non-increasing, under rating non-increasing in the rate,
    the rate being that of the rating and 0 for a product without rating.
    Each is a rearrangement of the featured (filtered, unsorted) result in
    which the products of equal price, or of equal rate, keep the order they
    have there. *)
Theorem visibleProducts_sorted_without_NaN (C : list WithNaN.Product)
    (search selected : string) :
  without_NaN C →
  (StronglySorted number_le
     (map WithNaN.price (WithNaN.visibleProducts C search selected price_asc)) ∧
   StronglySorted (λ x y, number_le y x)
     (map WithNaN.price (WithNaN.visibleProducts C search selected price_desc)) ∧
   StronglySorted (λ x y, number_le y x)
     (map WithNaN.rating_rate (WithNaN.visibleProducts C search selected by_rating))) ∧
  (∀ p, (WithNaN.rating p = None → WithNaN.rating_rate p = Num 0) ∧
        (∀ r, WithNaN.rating p = Some r → WithNaN.rating_rate p = WithNaN.rate r)) ∧
  (∀ sortBy, Permutation (WithNaN.visibleProducts C search selected sortBy)
                         (WithNaN.visibleProducts C search selected featured)) ∧
  (∀ k, List.filter (λ p, number_eqb (WithNaN.price p) k)
          (WithNaN.visibleProducts C search selected price_asc)
        = List.filter (λ p, number_eqb (WithNaN.price p) k)
            (WithNaN.visibleProducts C search selected featured)) ∧
  (∀ k, List.filter (λ p, number_eqb (WithNaN.price p) k)
          (WithNaN.visibleProducts C search selected price_desc)
        = List.filter (λ p, number_eqb (WithNaN.price p) k)
            (WithNaN.visibleProducts C search selected featured)) ∧
  (∀ k, List.filter (λ p, number_eqb (WithNaN.rating_rate p) k)
          (WithNaN.visibleProducts C search selected by_rating)
        = List.filter (λ p, number_eqb (WithNaN.rating_rate p) k)
            (WithNaN.visibleProducts C search selected featured)).
Proof.
  intros HC. rewrite (with_numbers_proper C HC). generalize (map proper C). clear C HC.
  intros C. rewrite !visibleProducts_with_numbers.
  destruct (visibleProducts_sorted_stable C search selected)
    as ((Hasc & Hdesc & Hrate) & _ & Hperm & Hsame_asc & Hsame_desc & Hsame_rate).
  assert (∀ l, map WithNaN.price (map with_numbers l) = map Num (map price l)) as Hprices.
  { intros l. rewrite !map_map. reflexivity. }
  assert (∀ l, map WithNaN.rating_rate (map with_numbers l) = map Num (map rating_rate l))
    as Hrates.
  { intros l. rewrite !map_map. apply map_ext. apply rating_rate_with_numbers. }
  split; [split; [|split]|split; [|split; [|split; [|split]]]].
  - rewrite Hprices. apply (sorted_numbers Qle); [auto | exact Hasc].
  - rewrite Hprices. apply (sorted_numbers (λ x y, y <= x)%Q); [auto | exact Hdesc].
  - rewrite Hrates. apply (sorted_numbers (λ x y, y <= x)%Q); [auto | exact Hrate].
  - intros p. unfold WithNaN.rating_rate. split; [intros ->; reflexivity|].
    intros r ->. reflexivity.
  - intros sortBy. rewrite visibleProducts_with_numbers. apply Permutation_map, Hperm.
  - intros k. apply (filter_number_eqb price); [reflexivity | exact Hsame_asc].
  - intros k. apply (filter_number_eqb price); [reflexivity | exact Hsame_desc].
  - intros k. apply (filter_number_eqb rating_rate);
      [apply rating_rate_with_numbers | exact Hsame_rate].
Qed.

Lemma visibleProducts_sorted_without_NaN_witness :
  StronglySorted number_le
    (map WithNaN.price
       (WithNaN.visibleProducts (map with_numbers SAMPLE_PRODUCTS) "" "All" price_asc)) ∧
  WithNaN.visibleProducts (map with_numbers SAMPLE_PRODUCTS) "" "All" price_asc
  = map with_numbers [mug; tshirt; wallet; headphones].
Proof.
  split; [|vm_compute; reflexivity].
  refine (proj1 (proj1 (visibleProducts_sorted_without_NaN
                          (map with_numbers SAMPLE_PRODUCTS) "" "All" _))).
  repeat constructor; discriminate.
Defined.

(** A [NaN] is in no order with anything: a list of numbers that is
    non-decreasing and holds a [NaN] holds nothing else. *)
Lemma sorted_with_NaN (le : number → number → Prop) (l : list number) :
  (∀ x, ¬ le x NaN ∧ ¬ le NaN x) → StronglySorted le l → In NaN l → l = [NaN].
Proof.
  intros Hle. induction 1 as [|a l _ IH Ha]; intros Hin; [destruct Hin|].
  destruct Hin as [-> | Hin].
  - destruct l as [|b l]; [reflexivity|].
    apply Forall_cons_1 in Ha as [Hb _]. destruct (proj2 (Hle b) Hb).
  - rewrite (IH Hin) in Ha. apply Forall_cons_1 in Ha as [Hb _]. destruct (proj1 (Hle a) Hb).
Qed.

(** C4, the claim as written fails: a price that does not read as a number
    is [NaN] in the catalog (the record [{price: "n/a"}], with a reading of
    numbers that does not know "n/a").  Every comparison with it counts as
    equal, and the price-ascending result of the catalog of prices 3, [NaN],
    1 is that catalog: 3 comes before 1.  Whatever order a sort leaves that
    catalog in, its prices are neither non-decreasing nor non-increasing. *)
Lemma NaN_price_breaks_the_order :
  (∃ x, toProduct (λ _, "0") (λ _, NaN) (λ _, "r4nd0m") 0
          (JObject [("price", JString "n/a")]) = Ok x ∧
        raw_price x = NaN) ∧
  WithNaN.visibleProducts [priced "a" (Num 3); priced "b" NaN; priced "c" (Num 1)]
    "" "All" price_asc
  = [priced "a" (Num 3); priced "b" NaN; priced "c" (Num 1)] ∧
  ¬ number_le (Num 3) (Num 1) ∧
  (∀ l, Permutation l [priced "a" (Num 3); priced "b" NaN; priced "c" (Num 1)] →
        ¬ StronglySorted number_le (map WithNaN.price l) ∧
        ¬ StronglySorted (λ x y, number_le y x) (map WithNaN.price l)).
Proof.
  split; [eexists; split; [vm_compute; reflexivity | reflexivity]|].
  split; [vm_compute; reflexivity|].
  split; [intros Hle; vm_compute in Hle; apply Hle; reflexivity|].
  intros l Hperm.
  assert (In NaN (map WithNaN.price l)) as Hin.
  { apply (Permutation_in _ (Permutation_map WithNaN.price (Permutation_sym Hperm))).
    simpl. auto. }
  assert (length (map WithNaN.price l) = 3%nat) as Hlen.
  { rewrite length_map, (Permutation_length Hperm). reflexivity. }
  split; intros Hsorted;
    apply sorted_with_NaN in Hsorted;
    try exact Hin; try (rewrite Hsorted in Hlen; discriminate Hlen);
    intros [|x]; simpl; auto.
Qed.

(** ** The memo over the store: the catalog array is left alone *)

Lemma alloc_local (a : list Product) (h h1 : gmap nat (list Product)) :
  (∀ r0, is_Some (h !! r0) → h1 !! r0 = h !! r0) →
  ∃ r' h', Store.alloc a h1 = Some (r', h') ∧ local_array r' a h h'.
Proof.
  intros Hsame. unfold Store.alloc.
  pose proof (is_fresh (dom h1)) as Hfresh. apply not_elem_of_dom in Hfresh.
  eexists _, _. split; [reflexivity|]. split; [apply lookup_insert_eq|]. split.
  - destruct (h !! fresh (dom h1)) eqn:Hh; [|reflexivity].
    rewrite <- Hsame, Hfresh in Hh by (rewrite Hh; eauto). discriminate Hh.
  - intros r0 Hr0. rewrite lookup_insert_ne; [apply Hsame, Hr0|].
    intros <-. rewrite <- Hsame, Hfresh in Hr0 by exact Hr0. destruct Hr0 as [x Hx].
    discriminate Hx.
Qed.

Lemma slice_local (r : nat) (a : list Product) (h : gmap nat (list Product)) :
  h !! r = Some a →
  ∃ r' h', Store.slice r h = Some (r', h') ∧ local_array r' a h h'.
Proof.
  intros Hr. unfold Store.slice. rewrite Hr. apply alloc_local. auto.
Qed.

Lemma filter_local (predicate : Product → bool) (r : nat) (a : list Product)
    (h h1 : gmap nat (list Product)) :
  local_array r a h h1 →
  ∃ r' h', Store.filter predicate r h1 = Some (r', h') ∧
           local_array r' (List.filter predicate a) h h'.
Proof.
  intros (Hr & _ & Hsame). unfold Store.filter. rewrite Hr. apply alloc_local, Hsame.
Qed.

Lemma sort_local (compareFn : Product → Product → Q) (r : nat) (a : list Product)
    (h h1 : gmap nat (list Product)) :
  local_array r a h h1 →
  ∃ h', Store.sort_in_place compareFn r h1 = Some (r, h') ∧
        local_array r (sort compareFn a) h h'.
Proof.
  intros (Hr & Hnew & Hsame). unfold Store.sort_in_place. rewrite Hr.
  eexists. split; [reflexivity|]. split; [apply lookup_insert_eq|]. split; [exact Hnew|].
  intros r0 Hr0. rewrite lookup_insert_ne; [apply Hsame, Hr0|].
  intros <-. rewrite Hnew in Hr0. destruct Hr0 as [x Hx]. discriminate Hx.
Qed.

Ltac store_step :=
  match goal with
  | H : local_array ?r ?a ?h ?h1 |- context [Store.filter ?p ?r ?h1] =>
      destruct (filter_local p r a h h1 H) as (? & ? & -> & ?); clear H
  | H : local_array ?r ?a ?h ?h1 |- context [Store.sort_in_place ?c ?r ?h1] =>
      destruct (sort_local c r a h h1 H) as (? & -> & ?); clear H
  end.

(** The run over the store returns a new array that holds what the memo over
    values computes, and changes no array that was there. *)
Lemma Store_visibleProducts_runs (h : gmap nat (list Product)) (r : nat) (C : list Product)
    (search selected : string) (sortBy : SortKey) :
  h !! r = Some C →
  ∃ r' h', Store.visibleProducts r search selected sortBy h = Some (r', h') ∧
           local_array r' (visibleProducts C search selected sortBy) h h'.
Proof.
  intros Hr. unfold Store.visibleProducts, visibleProducts, Store.bind, Store.ret.
  destruct (slice_local r C h Hr) as (r0 & h0 & -> & Hl0). cbn beta iota zeta.
  destruct (truthy (trim search)), (negb (String.eqb selected "All")), sortBy;
    cbn beta iota zeta;
    repeat (store_step; cbn beta iota zeta);
    eexists _, _; (split; [reflexivity | eassumption]).
Qed.

(** C7.  With an empty search text, the "All" category and the featured sort
    the result is the catalog, in its order.  Over the store, the result is a
    new array, and the run (with these or any other inputs) changes neither
    the catalog array nor any other array that existed. *)
Theorem visibleProducts_identity (h : gmap nat (list Product)) (r : nat) (C : list Product) :
  h !! r = Some C →
  visibleProducts C "" "All" featured = C ∧
  (∃ r' h', Store.visibleProducts r "" "All" featured h = Some (r', h') ∧
            h' !! r' = Some C ∧ r' ≠ r ∧ h' !! r = Some C) ∧
  (∀ search selected sortBy,
     ∃ r' h', Store.visibleProducts r search selected sortBy h = Some (r', h') ∧
              h' !! r' = Some (visibleProducts C search selected sortBy) ∧
              r' ≠ r ∧
              ∀ r0, is_Some (h !! r0) → h' !! r0 = h !! r0).
Proof.
  intros Hr.
  assert (∀ search selected sortBy,
     ∃ r' h', Store.visibleProducts r search selected sortBy h = Some (r', h') ∧
              h' !! r' = Some (visibleProducts C search selected sortBy) ∧
              r' ≠ r ∧
              ∀ r0, is_Some (h !! r0) → h' !! r0 = h !! r0) as Hrun.
  { intros search selected sortBy.
    destruct (Store_visibleProducts_runs h r C search selected sortBy Hr)
      as (r' & h' & Hrun & Hres & Hnew & Hsame).
    exists r', h'. repeat split; try assumption. intros ->. congruence. }
  split; [reflexivity|]. split; [|exact Hrun].
  destruct (Hrun "" "All" featured) as (r' & h' & Hrun' & Hres & Hne & Hsame).
  exists r', h'. repeat split; try assumption.
  rewrite Hsame, Hr by (rewrite Hr; eauto). reflexivity.
Qed.

Lemma visibleProducts_identity_witness :
  visibleProducts SAMPLE_PRODUCTS "" "All" featured = SAMPLE_PRODUCTS.
Proof.
  refine (proj1 (visibleProducts_identity {[ 0%nat := SAMPLE_PRODUCTS ]} 0 SAMPLE_PRODUCTS _)).
  vm_compute. reflexivity.
Defined.

(** ** Catalog fetch *)

Lemma get_field (p : json) (key : string) : p ≠ JNull → get p key = Ok (field p key).
Proof. destruct p; simpl; congruence. Qed.

Lemma coalesce_Ok (a b : option json) : coalesce a (Ok b) = Ok (or_else a b).
Proof. unfold coalesce, or_else. destruct (nullish a); reflexivity. Qed.

Lemma missing_field (p : json) (key : string) :
  p ≠ JNull → missing p key → nullish (field p key) = true.
Proof.
  intros Hp (v & Hget & Hnull). rewrite get_field in Hget by exact Hp.
  injection Hget as <-. exact Hnull.
Qed.

(** Induction on a value, through the elements of arrays. *)
Section JsonInduction.

Context (P : json → Prop).
Hypothesis P_null : P JNull.
Hypothesis P_bool : ∀ b, P (JBool b).
Hypothesis P_number : ∀ n, P (JNumber n).
Hypothesis P_string : ∀ s, P (JString s).
Hypothesis P_array : ∀ items, Forall P items → P (JArray items).
Hypothesis P_object : ∀ fields, P (JObject fields).

Fixpoint json_elements_ind (v : json) : P v :=
  match v with
  | JNull => P_null
  | JBool b => P_bool b
  | JNumber n => P_number n
  | JString s => P_string s
  | JArray items =>
      P_array items
        ((fix elements (l : list json) : Forall P l :=
            match l with
            | [] => @List.Forall_nil json P
            | x :: rest =>
                @List.Forall_cons json P x rest (json_elements_ind x) (elements rest)
            end) items)
  | JObject fields => P_object fields
  end.

End JsonInduction.

Lemma or_else_assoc (a b c : option json) :
  or_else a (or_else b c) = or_else (or_else a b) c.
Proof. unfold or_else. destruct (nullish a) eqn:Ha; [reflexivity|]. rewrite Ha. reflexivity. Qed.

Lemma nullish_convertible (v : option json) : nullish v = true → convertible v = true.
Proof. destruct v as [[]|]; simpl; congruence. Qed.

(** A default that can be converted does not change what can be. *)
Lemma convertible_or_else (a b : option json) :
  convertible b = true → convertible (or_else a b) = convertible a.
Proof.
  intros Hb. unfold or_else. destruct (nullish a) eqn:Ha; [|reflexivity].
  rewrite Hb. symmetry. apply nullish_convertible, Ha.
Qed.

Section CatalogFetchProperties.

Context (NumberToString : Q → string) (StringToNumber : string → number)
        (random : nat → string).

(** [String] raises a TypeError on exactly the values that are, or hold, an
    object with a [toString] property. *)
Lemma ToString_returns (v : json) :
  if has_toString v then ToString NumberToString v = Throw TypeError
  else ∃ s, ToString NumberToString v = Ok s.
Proof.
  induction v as [|b|n|s|items IH|fields] using json_elements_ind; simpl; eauto.
  - destruct b; eauto.
  - assert (if existsb has_toString items
            then (fix join (l : list json) : result (list string) :=
                    match l with
                    | [] => Ok []
                    | x :: rest =>
                        s ← match x with
                            | JNull => Ok ""
                            | _ => ToString NumberToString x
                            end;
                        ss ← join rest;
                        Ok (s :: ss)
                    end) items = Throw TypeError
            else ∃ parts,
                   (fix join (l : list json) : result (list string) :=
                      match l with
                      | [] => Ok []
                      | x :: rest =>
                          s ← match x with
                              | JNull => Ok ""
                              | _ => ToString NumberToString x
                              end;
                          ss ← join rest;
                          Ok (s :: ss)
                      end) items = Ok parts) as Hjoin.
    { induction IH as [|x rest Hx _ IHrest]; simpl; [eauto|].
      destruct (has_toString x) eqn:Hhas; simpl.
      - destruct x; try discriminate Hhas; rewrite Hx; reflexivity.
      - destruct Hx as (s & Hs).
        assert (∃ s', match x with
                      | JNull => Ok ""
                      | _ => ToString NumberToString x
                      end = Ok s') as (s' & ->)
          by (destruct x; eauto).
        simpl. destruct (existsb has_toString rest).
        + rewrite IHrest. reflexivity.
        + destruct IHrest as (parts & ->). simpl. eauto. }
    destruct (existsb has_toString items).
    + rewrite Hjoin. reflexivity.
    + destruct Hjoin as (parts & ->). simpl. eauto.
  - destruct (has_own "toString" fields); eauto.
Qed.

Lemma String_of_returns (v : option json) :
  if convertible v then ∃ s, String_of NumberToString v = Ok s
  else String_of NumberToString v = Throw TypeError.
Proof.
  destruct v as [j|]; simpl; [|eauto].
  pose proof (ToString_returns j) as Hj. destruct (has_toString j); exact Hj.
Qed.

Lemma Number_of_returns (v : option json) :
  if convertible v then ∃ n, Number_of NumberToString StringToNumber v = Ok n
  else Number_of NumberToString StringToNumber v = Throw TypeError.
Proof.
  destruct v as [j|]; simpl; [|eauto].
  pose proof (ToString_returns j) as Hj.
  destruct j as [|[]| | | |]; simpl in *; eauto.
  - destruct (existsb has_toString items); simpl.
    + rewrite Hj. reflexivity.
    + destruct Hj as (s & ->). simpl. eauto.
  - destruct (has_own "toString" fields); simpl.
    + reflexivity.
    + eauto.
Qed.

Lemma convertible_id_value (i : nat) (p : json) :
  convertible (id_value random i p) = convertible (identifier p).
Proof.
  unfold id_value, identifier. rewrite !or_else_assoc.
  apply convertible_or_else. reflexivity.
Qed.

Lemma convertible_price_value (p : json) :
  convertible (price_value p) = convertible (field p "price").
Proof. apply convertible_or_else. reflexivity. Qed.

Lemma toProduct_null (i : nat) :
  toProduct NumberToString StringToNumber random i JNull = Throw TypeError.
Proof. reflexivity. Qed.

(** On a record that is not [null] the callback converts the identifier,
    then the price, and returns, field by field. *)
Lemma toProduct_not_null (i : nat) (p : json) :
  p ≠ JNull →
  toProduct NumberToString StringToNumber random i p
  = (id1 ← String_of NumberToString (id_value random i p);
     price1 ← Number_of NumberToString StringToNumber (price_value p);
     Ok {| raw_id := id1;
           raw_title :=
             or_else (field p "title")
               (or_else (field p "name") (Some (JString "Untitled product")));
           raw_description := or_else (field p "description") (Some (JString ""));
           raw_price := price1;
           raw_category := or_else (field p "category") (Some (JString "Uncategorized"));
           raw_image :=
             or_else (field p "image") (or_else (field p "imageUrl") (Some (JString "")));
           raw_rating := or_else (field p "rating") None |}).
Proof.
  intros Hp. unfold toProduct, id_value, price_value. rewrite !get_field by exact Hp.
  unfold mbind, result_bind.
  repeat (rewrite coalesce_Ok; cbv beta iota).
  destruct (String_of _ _) as [id1|e]; [|reflexivity].
  repeat (rewrite coalesce_Ok; cbv beta iota).
  destruct (Number_of _ _ _) as [price1|e]; [|reflexivity].
  repeat (rewrite coalesce_Ok; cbv beta iota).
  reflexivity.
Qed.

(** The callback returns on the records that are [coercible], and raises a
    TypeError on the others. *)
Lemma toProduct_returns (i : nat) (p : json) :
  if coercible p
  then ∃ x, toProduct NumberToString StringToNumber random i p = Ok x
  else toProduct NumberToString StringToNumber random i p = Throw TypeError.
Proof.
  assert (p = JNull ∨ p ≠ JNull) as [-> | Hp]
    by (destruct p; auto; right; discriminate).
  { reflexivity. }
  rewrite (toProduct_not_null i p Hp).
  assert (coercible p = convertible (id_value random i p) && convertible (price_value p)) as ->.
  { rewrite convertible_id_value, convertible_price_value. destruct p; try reflexivity.
    contradiction. }
  pose proof (String_of_returns (id_value random i p)) as Hid.
  pose proof (Number_of_returns (price_value p)) as Hprice.
  destruct (convertible (id_value random i p)); simpl.
  - destruct Hid as (s & ->). simpl. destruct (convertible (price_value p)).
    + destruct Hprice as (n & ->). simpl. eauto.
    + rewrite Hprice. reflexivity.
  - rewrite Hid. reflexivity.
Qed.

(** What the callback has returned. *)
Lemma toProduct_returned (i : nat) (p : json) (x : RawProduct) :
  toProduct NumberToString StringToNumber random i p = Ok x →
  p ≠ JNull ∧
  String_of NumberToString (id_value random i p) = Ok (raw_id x) ∧
  Number_of NumberToString StringToNumber (price_value p) = Ok (raw_price x) ∧
  raw_title x
  = or_else (field p "title") (or_else (field p "name") (Some (JString "Untitled product"))) ∧
  raw_description x = or_else (field p "description") (Some (JString "")) ∧
  raw_category x = or_else (field p "category") (Some (JString "Uncategorized")) ∧
  raw_image x
  = or_else (field p "image") (or_else (field p "imageUrl") (Some (JString ""))) ∧
  raw_rating x = or_else (field p "rating") None.
Proof.
  intros Hto.
  assert (p ≠ JNull) as Hp.
  { intros ->. rewrite toProduct_null in Hto. discriminate Hto. }
  rewrite (toProduct_not_null i p Hp) in Hto.
  destruct (String_of NumberToString (id_value random i p)) as [id1|e]; [|discriminate Hto].
  destruct (Number_of NumberToString StringToNumber (price_value p)) as [price1|e];
    [|discriminate Hto].
  simpl in Hto. injection Hto as <-. simpl. repeat split. exact Hp.
Qed.

Lemma map_from_coercible (i : nat) (data : list json) :
  Forall (λ p, coercible p = true) data →
  ∃ products,
    map_from NumberToString StringToNumber random i data = Ok products ∧
    length products = length data ∧
    ∀ k p, data !! k = Some p →
           ∃ x, products !! k = Some x ∧
                toProduct NumberToString StringToNumber random (i + k) p = Ok x.
Proof.
  intros Hdata. revert i. induction Hdata as [|p data Hp _ IH]; intros i; simpl.
  - exists []. repeat split. intros k p Hk. discriminate Hk.
  - destruct (IH (S i)) as (rest & Hrest & Hlen & Hk).
    pose proof (toProduct_returns i p) as Hto. rewrite Hp in Hto. destruct Hto as (x & Hx).
    rewrite Hx, Hrest. simpl. eexists. split; [reflexivity|].
    split; [simpl; congruence|].
    intros [|k] q Hq; simpl in Hq.
    + injection Hq as <-. exists x. split; [reflexivity|].
      rewrite Nat.add_0_r. exact Hx.
    + destruct (Hk k q Hq) as (y & Hy & Hto). exists y. split; [exact Hy|].
      rewrite <- Hto. f_equal. lia.
Qed.

Lemma map_from_not_coercible (i : nat) (data : list json) (p : json) :
  In p data → coercible p = false →
  ∃ e, map_from NumberToString StringToNumber random i data = Throw e.
Proof.
  revert i. induction data as [|p0 data IH]; intros i Hin Hp; [destruct Hin|].
  simpl. destruct (toProduct NumberToString StringToNumber random i p0) as [x|e] eqn:Hp0.
  - destruct Hin as [-> | Hin].
    + pose proof (toProduct_returns i p) as Hto. rewrite Hp, Hp0 in Hto. discriminate Hto.
    + destruct (IH (S i) Hin Hp) as (e & ->). simpl. eauto.
  - simpl. eauto.
Qed.

(** C8 (amended).  [fetchProductsFromApi] never throws.  It yields the
    fallback catalog, of exactly 4 products, on a network failure, a response
    that is not ok, a body that is not JSON or not an array, and also on an
    array that holds a record the callback throws on: a [null] record, or a
    record whose identifier or price is, or holds, an object with a
    [toString] property.  On an array of records without those every record
    is coerced: without [id], [_id] and [slug] the identifier is the
    generated one, without [title] and [name] the title is "Untitled
    product", without [price] the price is 0, without [category] the
    category is "Uncategorized". *)
Theorem fetchProductsFromApi_falls_back_or_coerces (fetched : result Response) :
  (∃ products, fetchProductsFromApi NumberToString StringToNumber random fetched = Ok products) ∧
  length (map of_Product SAMPLE_PRODUCTS) = 4%nat ∧
  (∀ i p,
     (coercible p = false ↔
        toProduct NumberToString StringToNumber random i p = Throw TypeError) ∧
     (coercible p = true ↔
        ∃ x, toProduct NumberToString StringToNumber random i p = Ok x)) ∧
  ((∃ e, fetched = Throw e) ∨
   (∃ res, fetched = Ok res ∧
      (ok res = false ∨
       (∃ e, json_body res = Throw e) ∨
       (∃ data, json_body res = Ok data ∧ ∀ items, data ≠ JArray items) ∨
       (∃ items p, json_body res = Ok (JArray items) ∧ In p items ∧ coercible p = false))) →
   fetchProductsFromApi NumberToString StringToNumber random fetched
   = Ok (map of_Product SAMPLE_PRODUCTS)) ∧
  (∀ res items,
     fetched = Ok res → ok res = true → json_body res = Ok (JArray items) →
     Forall (λ p, coercible p = true) items →
     ∃ products,
       fetchProductsFromApi NumberToString StringToNumber random fetched = Ok products ∧
       length products = length items ∧
       ∀ i p, items !! i = Some p →
         ∃ x, products !! i = Some x ∧
              toProduct NumberToString StringToNumber random i p = Ok x ∧
              (missing p "id" → missing p "_id" → missing p "slug" → raw_id x = random i) ∧
              (missing p "title" → missing p "name" →
                 raw_title x = Some (JString "Untitled product")) ∧
              (missing p "price" → raw_price x = Num 0) ∧
              (missing p "category" → raw_category x = Some (JString "Uncategorized"))).
Proof.
  split; [|split; [reflexivity|split; [|split]]].
  - unfold fetchProductsFromApi.
    destruct (_ ≫= _) as [products|e]; simpl; eauto.
  - intros i p. pose proof (toProduct_returns i p) as Hto.
    destruct (coercible p); split; split; try discriminate; try reflexivity; auto.
    + destruct Hto as (x & ->). discriminate.
    + rewrite Hto. intros (x & Hx). discriminate Hx.
  - unfold fetchProductsFromApi.
    intros [(e & ->) | (res & -> & Hcase)]; [reflexivity|]. simpl.
    destruct Hcase as [-> | Hcase]; [reflexivity|].
    destruct (ok res); [|reflexivity]. simpl.
    destruct Hcase as [(e & ->) | [(data & -> & Hdata) | (items & p & -> & Hin & Hp)]];
      [reflexivity | |].
    + simpl. destruct data; try reflexivity. destruct (Hdata items). reflexivity.
    + simpl. destruct (map_from_not_coercible 0 items p Hin Hp) as (e & ->). reflexivity.
  - intros res items -> Hok Hbody Hitems.
    destruct (map_from_coercible 0 items Hitems) as (products & Hmap & Hlen & Hrec).
    exists products. unfold fetchProductsFromApi. simpl. rewrite Hok, Hbody. simpl.
    rewrite Hmap. split; [reflexivity|]. split; [exact Hlen|].
    intros i p Hi. destruct (Hrec i p Hi) as (x & Hx & Hto). simpl in Hto.
    exists x. split; [exact Hx|]. split; [exact Hto|].
    destruct (toProduct_returned i p x Hto) as (Hp & Hid & Hprice & Htitle & _ & Hcat & _).
    repeat split.
    + intros H1 H2 H3. unfold id_value, or_else in Hid.
      rewrite (missing_field p "id" Hp H1), (missing_field p "_id" Hp H2),
        (missing_field p "slug" Hp H3) in Hid. simpl in Hid. congruence.
    + intros H1 H2. rewrite Htitle. unfold or_else.
      rewrite (missing_field p "title" Hp H1), (missing_field p "name" Hp H2). reflexivity.
    + intros H1. unfold price_value, or_else in Hprice.
      rewrite (missing_field p "price" Hp H1) in Hprice. simpl in Hprice. congruence.
    + intros H1. rewrite Hcat. unfold or_else.
      rewrite (missing_field p "category" Hp H1). reflexivity.
Qed.

End CatalogFetchProperties.

(** C8, the claim as written fails: on the array response [[null]], and on
    the array response whose one record has an object with a [toString]
    property for identifier, the callback throws and the fetch yields the
    fallback catalog. *)
Lemma uncoerced_record_falls_back :
  toProduct (λ _, "0") (λ _, NaN) (λ _, "r4nd0m") 0 JNull = Throw TypeError ∧
  fetchProductsFromApi (λ _, "0") (λ _, NaN) (λ _, "r4nd0m")
    (Ok {| ok := true; json_body := Ok (JArray [JNull]) |})
  = Ok (map of_Product SAMPLE_PRODUCTS) ∧
  toString_record ≠ JNull ∧
  toProduct (λ _, "0") (λ _, NaN) (λ _, "r4nd0m") 0 toString_record = Throw TypeError ∧
  fetchProductsFromApi (λ _, "0") (λ _, NaN) (λ _, "r4nd0m")
    (Ok {| ok := true; json_body := Ok (JArray [toString_record]) |})
  = Ok (map of_Product SAMPLE_PRODUCTS).
Proof. repeat split; try reflexivity. discriminate. Qed.

Lemma fetchProductsFromApi_falls_back_or_coerces_witness :
  ∃ products,
    fetchProductsFromApi (λ _, "5") (λ _, NaN) (λ _, "r4nd0m") example_response = Ok products ∧
    length products = 2%nat ∧
    ∃ x, products !! 1%nat = Some x ∧
         raw_id x = "r4nd0m" ∧
         raw_title x = Some (JString "Lamp") ∧
         raw_price x = Num 5 ∧
         raw_category x = Some (JString "Uncategorized").
Proof.
  destruct (proj2 (proj2 (proj2 (proj2 (fetchProductsFromApi_falls_back_or_coerces
              (λ _, "5") (λ _, NaN) (λ _, "r4nd0m") example_response))))
            {| ok := true;
               json_body :=
                 Ok (JArray [ JObject [];
                              JObject [("name", JString "Lamp"); ("price", JNumber 5)] ]) |}
            [ JObject []; JObject [("name", JString "Lamp"); ("price", JNumber 5)] ]
            eq_refl eq_refl eq_refl)
    as (products & Hfetch & Hlen & Hrec).
  - repeat constructor.
  - exists products. split; [exact Hfetch|]. split; [exact Hlen|].
    destruct (Hrec 1%nat (JObject [("name", JString "Lamp"); ("price", JNumber 5)]) eq_refl)
      as (x & Hx & Hto & Hid & _ & _ & Hcat).
    exists x. split; [exact Hx|].
    split; [apply Hid; (eexists; split; reflexivity)|].
    vm_compute in Hto. injection Hto as <-.
    repeat split.
Defined.

(** * Further properties *)

(** ** The derived product list: category filter, provenance, search text *)

Lemma category_is_iff (selected : string) (p : Product) :
  category_is selected p = true ↔ category p = Some selected.
Proof.
  unfold category_is. destruct (category p) as [c|].
  - rewrite String.eqb_eq. split; congruence.
  - split; discriminate.
Qed.

(** X1.  With a category other than "All" selected, every product of the
    result has exactly that category, and the result holds exactly the
    products of that category that the "All" selection would show. *)
Theorem visibleProducts_category (C : list Product) (search selected : string)
    (sortBy : SortKey) (p : Product) :
  selected ≠ "All" →
  (In p (visibleProducts C search selected sortBy) → category p = Some selected) ∧
  (In p (visibleProducts C search selected sortBy) ↔
     In p (visibleProducts C search "All" sortBy) ∧ category p = Some selected).
Proof.
  intros Hsel. rewrite !visibleProducts_In, <- category_is_iff. split.
  - intros (_ & _ & Hcat). auto.
  - intuition congruence.
Qed.

Lemma visibleProducts_category_witness :
  category mug = Some "Home".
Proof.
  refine (proj1 (visibleProducts_category SAMPLE_PRODUCTS "" "Home" price_asc mug _) _).
  - discriminate.
  - vm_compute. auto.
Defined.

Lemma filter_sublist {A} (f : A → bool) (l : list A) : sublist (List.filter f l) l.
Proof.
  induction l as [|a l IH]; simpl; [constructor|].
  destruct (f a); [apply sublist_skip | apply sublist_cons]; exact IH.
Qed.

Lemma visibleProducts_featured_sublist (C : list Product) (search selected : string) :
  sublist (visibleProducts C search selected featured) C.
Proof.
  unfold visibleProducts.
  destruct (truthy (trim search)), (negb (String.eqb selected "All")); simpl.
  - etransitivity; apply filter_sublist.
  - apply filter_sublist.
  - apply filter_sublist.
  - reflexivity.
Qed.

Lemma map_sublist {A B} (f : A → B) (l1 l2 : list A) :
  sublist l1 l2 → sublist (map f l1) (map f l2).
Proof.
  induction 1; simpl; [constructor | apply sublist_skip | apply sublist_cons]; assumption.
Qed.

(** X2.  The memo shows products of the catalog only, each at most as often
    as the catalog has it: the featured result is a subsequence of the
    catalog, every other sort key gives a rearrangement of it.  So the result
    is never longer than the catalog, it is empty for the empty catalog, and
    if the identifiers of the catalog are distinct then so are those of the
    result. *)
Theorem visibleProducts_from_catalog (C : list Product) (search selected : string)
    (sortBy : SortKey) :
  sublist (visibleProducts C search selected featured) C ∧
  Permutation (visibleProducts C search selected sortBy)
              (visibleProducts C search selected featured) ∧
  (length (visibleProducts C search selected sortBy) ≤ length C)%nat ∧
  (C = [] → visibleProducts C search selected sortBy = []) ∧
  (NoDup (map id C) → NoDup (map id (visibleProducts C search selected sortBy))).
Proof.
  pose proof (visibleProducts_featured_sublist C search selected) as Hsub.
  pose proof (visibleProducts_perm C search selected sortBy) as Hperm.
  split; [exact Hsub|]. split; [exact Hperm|]. split; [|split].
  - rewrite (Permutation_length Hperm). apply sublist_length, Hsub.
  - intros ->. apply Permutation_nil. rewrite Hperm.
    apply sublist_nil_r in Hsub. rewrite Hsub. reflexivity.
  - intros Hnd. rewrite (Permutation_map id Hperm).
    pose proof (map_sublist id _ _ Hsub) as Hm. eapply sublist_NoDup; eauto.
Qed.

(** Every character of the string is white space. *)
Fixpoint all_space (s : string) : bool :=
  match s with
  | EmptyString => true
  | String c s' => is_space c && all_space s'
  end.

Lemma trimEnd_empty (s : string) : truthy (trimEnd s) = negb (all_space s).
Proof.
  induction s as [|c s IH]; simpl; [reflexivity|].
  destruct (trimEnd s) as [|c' t]; simpl in *.
  - apply (f_equal negb) in IH. rewrite negb_involutive in IH. simpl in IH.
    rewrite <- IH, andb_true_r. destruct (is_space c); reflexivity.
  - apply (f_equal negb) in IH. rewrite negb_involutive in IH. simpl in IH.
    rewrite <- IH, andb_false_r. reflexivity.
Qed.

Lemma all_space_trimStart (s : string) : all_space (trimStart s) = all_space s.
Proof.
  induction s as [|c s IH]; simpl; [reflexivity|].
  destruct (is_space c) eqn:Hc; simpl; [exact IH | rewrite Hc; reflexivity].
Qed.

Lemma truthy_trim (s : string) : truthy (trim s) = negb (all_space s).
Proof. unfold trim. rewrite trimEnd_empty, all_space_trimStart. reflexivity. Qed.

Lemma is_space_lower_char (c : ascii) : is_space (lower_char c) = is_space c.
Proof.
  destruct c as [[] [] [] [] [] [] [] []]; reflexivity.
Qed.

Lemma all_space_toLowerCase (s : string) : all_space (toLowerCase s) = all_space s.
Proof.
  induction s as [|c s IH]; simpl; [reflexivity|].
  rewrite is_space_lower_char, IH. reflexivity.
Qed.

(** X3.  The search text counts only through its lower-cased form: two texts
    that differ in the case of their letters give the same result; and a
    text of white space only filters nothing, like the empty text. *)
Theorem search_text_case_and_blank (C : list Product) (search1 search2 selected : string)
    (sortBy : SortKey) :
  (toLowerCase search1 = toLowerCase search2 →
     visibleProducts C search1 selected sortBy = visibleProducts C search2 selected sortBy) ∧
  (trim search1 = "" →
     visibleProducts C search1 selected sortBy = visibleProducts C "" selected sortBy).
Proof.
  split.
  - intros Hlow. unfold visibleProducts. rewrite !truthy_trim.
    rewrite <- (all_space_toLowerCase search1), <- (all_space_toLowerCase search2), Hlow.
    reflexivity.
  - intros Hblank. unfold visibleProducts. rewrite Hblank. reflexivity.
Qed.

Lemma search_text_case_and_blank_witness :
  visibleProducts SAMPLE_PRODUCTS "WaLLet" "All" by_rating
  = visibleProducts SAMPLE_PRODUCTS "wallet" "All" by_rating ∧
  visibleProducts SAMPLE_PRODUCTS "   " "Home" featured
  = visibleProducts SAMPLE_PRODUCTS "" "Home" featured.
Proof.
  split.
  - refine (proj1 (search_text_case_and_blank SAMPLE_PRODUCTS "WaLLet" "wallet" "All"
                     by_rating) _). reflexivity.
  - refine (proj2 (search_text_case_and_blank SAMPLE_PRODUCTS "   " "" "Home"
                     featured) _). reflexivity.
Defined.

Section SortAgain.

Context {A : Type} (key : A → Q) (compareFn : A → A → Q).
Hypothesis compare_key : ∀ a b, Qle_bool (compareFn a b) 0 = Qle_bool (key a) (key b).

(** A list that is in order is left as it is. *)
Lemma sort_of_sorted (l : list A) :
  StronglySorted (λ x y, key x <= key y)%Q l → sort compareFn l = l.
Proof.
  induction 1 as [|a l _ IH Ha]; simpl; [reflexivity|].
  rewrite IH. destruct l as [|b l]; simpl; [reflexivity|].
  rewrite compare_key. apply Forall_cons_1 in Ha as [Hab _].
  apply Qle_bool_iff in Hab. rewrite Hab. reflexivity.
Qed.

Lemma sort_idempotent (l : list A) : sort compareFn (sort compareFn l) = sort compareFn l.
Proof. apply sort_of_sorted, sort_sorted, compare_key. Qed.

End SortAgain.

(** On prices and rates that are proper numbers, the memo run on its own
    result, with the same sort key and no filter, returns that result. *)
Lemma visibleProducts_sorted_again (C : list Product) (search selected : string)
    (sortBy : SortKey) :
  visibleProducts (visibleProducts C search selected sortBy) "" "All" sortBy
  = visibleProducts C search selected sortBy.
Proof.
  destruct sortBy; unfold visibleProducts; simpl.
  - reflexivity.
  - apply (sort_idempotent price). intros a b. apply compare_ascending.
  - apply (sort_idempotent (λ p, - price p)%Q). intros a b. apply compare_descending.
  - apply (sort_idempotent (λ p, - rating_rate p)%Q). intros a b. apply compare_descending.
Qed.

(** X4.  On a catalog in which no price and no rate is [NaN], sorting is
    idempotent: the memo run on its own result, with the same sort key and no
    filter, returns that result. *)
Theorem visibleProducts_sort_idempotent (C : list WithNaN.Product)
    (search selected : string) (sortBy : SortKey) :
  without_NaN C →
  WithNaN.visibleProducts (WithNaN.visibleProducts C search selected sortBy) "" "All" sortBy
  = WithNaN.visibleProducts C search selected sortBy.
Proof.
  intros HC. rewrite (with_numbers_proper C HC).
  rewrite !visibleProducts_with_numbers, visibleProducts_sorted_again. reflexivity.
Qed.

Lemma visibleProducts_sort_idempotent_witness :
  WithNaN.visibleProducts (map with_numbers [headphones; wallet; tshirt; mug])
    "" "All" price_desc
  = map with_numbers [headphones; wallet; tshirt; mug].
Proof.
  refine (visibleProducts_sort_idempotent (map with_numbers SAMPLE_PRODUCTS) ""
            "All" price_desc _).
  repeat constructor; discriminate.
Defined.

(** ** The cart: count, subtotal, removal, and what the buttons can do *)

Lemma cartCount_from (c : Cart) (n : Z) :
  fold_left (λ s it, s + quantity it)%Z c n = (n + cartCount c)%Z.
Proof.
  unfold cartCount. revert n. induction c as [|it c IH]; intros n; simpl; [lia|].
  rewrite (IH (n + quantity it)%Z), (IH (0 + quantity it)%Z). lia.
Qed.

Lemma cartCount_cons (it : CartItem) (c : Cart) :
  cartCount (it :: c) = (quantity it + cartCount c)%Z.
Proof. unfold cartCount at 1. simpl. rewrite cartCount_from. lia. Qed.

Lemma cartCount_app (c1 c2 : Cart) : cartCount (c1 ++ c2) = (cartCount c1 + cartCount c2)%Z.
Proof.
  induction c1 as [|it c1 IH]; simpl; [reflexivity|].
  rewrite !cartCount_cons, IH. lia.
Qed.

(** With quantities that are not negative, the sums the reduction goes
    through (the counts of the cart's prefixes) lie between 0 and the
    count. *)
Lemma cartCount_take (c : Cart) (n : nat) :
  Forall (λ it, (0 ≤ quantity it)%Z) c →
  (0 ≤ cartCount (take n c) ≤ cartCount c)%Z.
Proof.
  intros Hc. revert n. induction Hc as [|it c Hit _ IH]; intros n.
  - rewrite take_nil. change (cartCount []) with 0%Z. lia.
  - destruct n as [|n]; simpl.
    + change (cartCount []) with 0%Z. rewrite cartCount_cons.
      specialize (IH 0%nat). simpl in IH. change (cartCount []) with 0%Z in IH. lia.
    + rewrite !cartCount_cons. specialize (IH n). lia.
Qed.

Lemma quantity_le_cartCount (c : Cart) (it : CartItem) :
  Forall (λ it, (0 ≤ quantity it)%Z) c → In it c → (quantity it ≤ cartCount c)%Z.
Proof.
  induction 1 as [|x c Hx Hc IH]; intros Hin; [destruct Hin|].
  rewrite cartCount_cons.
  pose proof (cartCount_take c 0 Hc) as H0. simpl in H0. change (cartCount []) with 0%Z in H0.
  destruct Hin as [-> | Hin]; [lia|]. specialize (IH Hin). lia.
Qed.

(** *** Integers in the cart on binary64 numbers *)

Lemma of_integer_0 : of_integer 0 = 0%float.
Proof. vm_compute. reflexivity. Qed.

Lemma of_integer_1 : of_integer 1 = 1%float.
Proof. vm_compute. reflexivity. Qed.

Lemma binary64_no_item (productId : string) (c : Cart) :
  no_item_for productId c → no_binary64_item_for productId (binary64 c).
Proof.
  unfold no_item_for, no_binary64_item_for, binary64. intros Hc.
  apply Forall_map. exact Hc.
Qed.

(** On integers from 0 on whose sums stay at or below 2^53 the updater on
    binary64 numbers computes what the updater on integers computes. *)
Lemma Binary64_handleAddToCart_integers (P : Product) (qty : Z) (c c' : Cart) :
  Forall (λ it, (0 ≤ quantity it)%Z ∧ (quantity it + qty ≤ 2 ^ 53)%Z) c → (0 ≤ qty)%Z →
  handleAddToCart P qty c = Ok c' →
  Binary64.handleAddToCart P (of_integer qty) (binary64 c) = Ok (binary64 c').
Proof.
  intros Hc Hqty Hadd.
  destruct (first_match_split (λ it, String.eqb (id (product it)) (id P)) c)
    as [Hnone | (pre & it & post & -> & Hpre & Hit)].
  - apply id_test_false in Hnone. rewrite (handleAddToCart_fresh P qty c Hnone) in Hadd.
    injection Hadd as <-.
    rewrite (Binary64_handleAddToCart_fresh P (of_integer qty) (binary64 c))
      by (apply binary64_no_item, Hnone).
    unfold binary64. rewrite map_app. reflexivity.
  - apply id_test_false in Hpre. apply String.eqb_eq in Hit.
    rewrite (handleAddToCart_existing P qty pre it post Hpre Hit) in Hadd.
    injection Hadd as <-.
    apply Forall_app in Hc as [_ Hc]. apply Forall_cons_1 in Hc as [[Hit0 Hit1] _].
    unfold binary64. rewrite !map_app. simpl.
    rewrite (Binary64_handleAddToCart_existing P (of_integer qty));
      [|apply binary64_no_item, Hpre | exact Hit].
    simpl. rewrite add_exact by assumption. reflexivity.
Qed.

Lemma positive_integer (q : Z) :
  (0 ≤ q ≤ 2 ^ 53)%Z → (0 <? of_integer q)%float = (0 <? q)%Z.
Proof. intros Hq. rewrite <- of_integer_0. apply ltb_exact; lia. Qed.

Lemma Binary64_handleUpdateQty_integers (productId : string) (n : Z) (c : Cart) :
  Forall (λ it, (0 ≤ quantity it ≤ 2 ^ 53)%Z) c → (0 ≤ n ≤ 2 ^ 53)%Z →
  Binary64.handleUpdateQty productId (of_integer n) (binary64 c)
  = binary64 (handleUpdateQty productId n c).
Proof.
  intros Hc Hn. unfold Binary64.handleUpdateQty, handleUpdateQty, binary64.
  induction Hc as [|it c Hit _ IH]; simpl; [reflexivity|].
  destruct (String.eqb (id (product it)) productId); simpl.
  - rewrite positive_integer by lia. destruct (0 <? n)%Z; simpl; rewrite IH; reflexivity.
  - rewrite positive_integer by lia.
    destruct (0 <? quantity it)%Z; simpl; rewrite IH; reflexivity.
Qed.

Lemma Binary64_cartCount_integers (c : Cart) :
  Forall (λ it, (0 ≤ quantity it)%Z) c → (cartCount c ≤ 2 ^ 53)%Z →
  Binary64.cartCount (binary64 c) = of_integer (cartCount c).
Proof.
  intros Hc Hbound. unfold Binary64.cartCount. rewrite <- of_integer_0.
  assert (∀ n, (0 ≤ n)%Z → (n + cartCount c ≤ 2 ^ 53)%Z →
               fold_left (λ s it, (s + Binary64.quantity it)%float) (binary64 c) (of_integer n)
               = of_integer (n + cartCount c)) as Hfrom; [|apply (Hfrom 0%Z); lia].
  clear Hbound. induction Hc as [|it c Hit Hc IH]; intros n Hn Hbound.
  - change (cartCount []) with 0%Z. rewrite Z.add_0_r. reflexivity.
  - rewrite cartCount_cons in Hbound. rewrite cartCount_cons. simpl.
    pose proof (cartCount_take c 0 Hc) as H0. simpl in H0. change (cartCount []) with 0%Z in H0.
    rewrite add_exact by lia. rewrite IH by lia. f_equal. lia.
Qed.

Lemma classify_of_integer (n : Z) :
  (0 ≤ n ≤ 2 ^ 53)%Z →
  classify (of_integer n) = PZero ∨ classify (of_integer n) = PNormal ∨
  classify (of_integer n) = PSubn.
Proof.
  intros Hn. rewrite classify_spec, Prim2SF_of_integer by exact Hn.
  destruct n as [|n|n]; [auto| |lia].
  destruct (normalize_integer n) as (m & t & -> & _); [lia|].
  unfold SF64classify, SFclassify. destruct (_ =? _)%Z; auto.
Qed.

(** [Math.max] of two of those integers is the larger integer. *)
Lemma Math_max_integers (a b : Z) :
  (0 ≤ a ≤ 2 ^ 53)%Z → (0 ≤ b ≤ 2 ^ 53)%Z →
  Binary64.Math_max (of_integer a) (of_integer b) = of_integer (Z.max a b).
Proof.
  intros Ha Hb. unfold Binary64.Math_max.
  assert ((if (of_integer a <? of_integer b)%float then of_integer b else of_integer a)
          = of_integer (Z.max a b)) as Hmax.
  { rewrite ltb_exact by assumption. destruct (Z.ltb_spec a b).
    - rewrite Z.max_r by lia. reflexivity.
    - rewrite Z.max_l by lia. reflexivity. }
  destruct (classify_of_integer a Ha) as [-> | [-> | ->]];
    destruct (classify_of_integer b Hb) as [-> | [-> | ->]]; exact Hmax.
Qed.

(** X5.  On a cart whose quantities are integers from 0 on, an Add of such a
    quantity [qty] that keeps the count at or below 2^53 raises the count on
    the cart button by [qty], whether the product was in the cart or not:
    computed on binary64 numbers, as the page computes them, the updater
    gives the cart the updater on integers gives, and the counts before and
    after are the integers [cartCount c] and [cartCount c + qty]. *)
Theorem cartCount_after_add (P : Product) (qty : Z) (c c' : Cart) :
  Forall (λ it, (0 ≤ quantity it)%Z) c → (0 ≤ qty)%Z → (cartCount c + qty ≤ 2 ^ 53)%Z →
  handleAddToCart P qty c = Ok c' →
  Binary64.handleAddToCart P (of_integer qty) (binary64 c) = Ok (binary64 c') ∧
  Binary64.cartCount (binary64 c) = of_integer (cartCount c) ∧
  Binary64.cartCount (binary64 c') = of_integer (cartCount c + qty).
Proof.
  intros Hc Hqty Hbound Hadd.
  assert (cartCount c' = (cartCount c + qty)%Z ∧ Forall (λ it, (0 ≤ quantity it)%Z) c')
    as [Hcount Hc'].
  { destruct (first_match_split (λ it, String.eqb (id (product it)) (id P)) c)
      as [Hnone | (pre & it & post & -> & Hpre & Hit)].
    - apply id_test_false in Hnone. rewrite (handleAddToCart_fresh P qty c Hnone) in Hadd.
      injection Hadd as <-. split.
      + rewrite cartCount_app, cartCount_cons. change (cartCount []) with 0%Z. simpl. lia.
      + apply Forall_app. split; [exact Hc|]. repeat constructor. exact Hqty.
    - apply id_test_false in Hpre. apply String.eqb_eq in Hit.
      rewrite (handleAddToCart_existing P qty pre it post Hpre Hit) in Hadd.
      injection Hadd as <-. split.
      + rewrite !cartCount_app, !cartCount_cons. simpl. lia.
      + apply Forall_app in Hc as [Hc1 Hc2]. apply Forall_cons_1 in Hc2 as [Hc2 Hc3].
        apply Forall_app. split; [exact Hc1|]. constructor; [simpl; lia | exact Hc3]. }
  split; [|split].
  - apply Binary64_handleAddToCart_integers; [|exact Hqty | exact Hadd].
    apply Forall_forall. intros it Hin. apply list_elem_of_In in Hin.
    pose proof (quantity_le_cartCount c it Hc Hin) as Hle.
    rewrite Forall_forall in Hc. apply list_elem_of_In in Hin.
    specialize (Hc it Hin). simpl in Hc. lia.
  - apply Binary64_cartCount_integers; [exact Hc | lia].
  - rewrite <- Hcount. apply Binary64_cartCount_integers; [exact Hc' | lia].
Qed.

Lemma cartCount_after_add_witness :
  Binary64.cartCount
    (binary64 (example_cart ++ [{| product := mug; quantity := 4 |}])) = 7%float.
Proof.
  refine (proj2 (proj2 (cartCount_after_add mug 4 example_cart _ _ _ _ _))).
  - repeat constructor; simpl; lia.
  - lia.
  - vm_compute. discriminate.
  - reflexivity.
Defined.

(** The wallet as a later catalog lists it: same identifier, new price. *)
Definition repriced_wallet : Product :=
  {| id := "p1";
     title := "Minimal Leather Wallet";
     description := "Handcrafted full-grain leather wallet with RFID protection.";
     price := 59.0;
     image := Some "/products/wallet.jpg";
     category := Some "Accessories";
     rating := Some {| rate := 4.6; count := 132 |} |}.

(** X6.  Add never replaces a product record the cart holds.  After an Add
    for a product whose identifier is in the cart, the cart holds the same
    product records in the same order: the record passed to Add, which may
    differ from the stored one in its price or its title, is not stored, and
    the subtotal goes on charging the stored price.  An Add for a new
    identifier appends the passed record. *)
Theorem add_keeps_stored_record (P : Product) (qty : Z) (c c' : Cart) :
  handleAddToCart P qty c = Ok c' →
  (no_item_for (id P) c → map product c' = map product c ++ [P]) ∧
  (¬ no_item_for (id P) c → map product c' = map product c).
Proof.
  intros Hadd.
  destruct (first_match_split (λ it, String.eqb (id (product it)) (id P)) c)
    as [Hnone | (pre & it & post & -> & Hpre & Hit)].
  - apply id_test_false in Hnone. rewrite (handleAddToCart_fresh P qty c Hnone) in Hadd.
    injection Hadd as <-. split; [|contradiction].
    intros _. rewrite map_app. reflexivity.
  - apply id_test_false in Hpre. apply String.eqb_eq in Hit.
    rewrite (handleAddToCart_existing P qty pre it post Hpre Hit) in Hadd.
    injection Hadd as <-. split.
    + intros Hnone. apply Forall_app in Hnone as [_ Hnone].
      apply Forall_cons_1 in Hnone as [Hnone _]. contradiction.
    + intros _. rewrite !map_app. reflexivity.
Qed.

Lemma add_keeps_stored_record_witness :
  handleAddToCart repriced_wallet 1 example_cart
  = Ok [ {| product := tshirt; quantity := 2 |}; {| product := wallet; quantity := 2 |} ] ∧
  map product [ {| product := tshirt; quantity := 2 |}; {| product := wallet; quantity := 2 |} ]
  = map product example_cart.
Proof.
  split; [reflexivity|].
  refine (proj2 (add_keeps_stored_record repriced_wallet 1 example_cart _ eq_refl) _).
  intros Hnone. apply Forall_cons_1 in Hnone as [_ Hnone].
  apply Forall_cons_1 in Hnone as [Hnone _]. apply Hnone. reflexivity.
Defined.

Lemma filter_no_item (keep : CartItem → bool) (productId : string) (c : Cart) :
  no_item_for productId c → no_item_for productId (List.filter keep c).
Proof.
  unfold no_item_for. induction 1 as [|it c Hit _ IH]; simpl; [constructor|].
  destruct (keep it); [constructor|]; assumption.
Qed.

Lemma handleRemove_absent (productId : string) (c : Cart) :
  no_item_for productId c → handleRemove productId c = c.
Proof.
  unfold handleRemove. induction 1 as [|it c Hit _ IH]; simpl; [reflexivity|].
  apply String.eqb_neq in Hit. rewrite Hit. simpl. rewrite IH. reflexivity.
Qed.

Lemma handleRemove_removes (productId : string) (c : Cart) :
  no_item_for productId (handleRemove productId c).
Proof.
  unfold handleRemove, no_item_for. induction c as [|it c IH]; simpl; [constructor|].
  destruct (String.eqb (id (product it)) productId) eqn:Hid; simpl; [exact IH|].
  constructor; [apply String.eqb_neq, Hid | exact IH].
Qed.

(** X7.  Remove deletes every item for the identifier and nothing else:
    no item for it remains, the items for any other identifier are the same
    before and after, a cart without the identifier is returned as it is, a
    second Remove changes nothing, and Removes of two identifiers commute. *)
Theorem handleRemove_deletes_only_that (productId other : string) (c : Cart) :
  no_item_for productId (handleRemove productId c) ∧
  (other ≠ productId →
     List.filter (λ it, String.eqb (id (product it)) other) (handleRemove productId c)
     = List.filter (λ it, String.eqb (id (product it)) other) c) ∧
  (no_item_for productId c → handleRemove productId c = c) ∧
  handleRemove productId (handleRemove productId c) = handleRemove productId c ∧
  handleRemove productId (handleRemove other c) = handleRemove other (handleRemove productId c).
Proof.
  split; [apply handleRemove_removes|]. split; [|split; [apply handleRemove_absent|split]].
  - intros Hne. unfold handleRemove. induction c as [|it c IH]; simpl; [reflexivity|].
    destruct (String.eqb (id (product it)) productId) eqn:Hid; simpl.
    + apply String.eqb_eq in Hid.
      assert (String.eqb (id (product it)) other = false) as ->
        by (apply String.eqb_neq; congruence).
      exact IH.
    + destruct (String.eqb (id (product it)) other); [f_equal|]; exact IH.
  - apply handleRemove_absent, handleRemove_removes.
  - unfold handleRemove. induction c as [|it c IH]; simpl; [reflexivity|].
    destruct (String.eqb (id (product it)) productId) eqn:Hp,
             (String.eqb (id (product it)) other) eqn:Ho; simpl;
      rewrite ?Hp, ?Ho; simpl; rewrite ?IH; reflexivity.
Qed.

(** X8.  Remove after Add is Remove: whatever the cart, removing the
    product's identifier after an Add of it gives what removing it from the
    cart before the Add gives; on a cart without the product that is the
    cart itself. *)
Theorem add_then_remove (P : Product) (qty : Z) (c c' : Cart) :
  handleAddToCart P qty c = Ok c' →
  handleRemove (id P) c' = handleRemove (id P) c ∧
  (no_item_for (id P) c → handleRemove (id P) c' = c).
Proof.
  intros Hadd.
  assert (handleRemove (id P) c' = handleRemove (id P) c) as Heq.
  { destruct (first_match_split (λ it, String.eqb (id (product it)) (id P)) c)
      as [Hnone | (pre & it & post & -> & Hpre & Hit)].
    - apply id_test_false in Hnone. rewrite (handleAddToCart_fresh P qty c Hnone) in Hadd.
      injection Hadd as <-. unfold handleRemove. rewrite List.filter_app. simpl.
      rewrite String.eqb_refl. simpl. apply app_nil_r.
    - apply id_test_false in Hpre. apply String.eqb_eq in Hit.
      rewrite (handleAddToCart_existing P qty pre it post Hpre Hit) in Hadd.
      injection Hadd as <-. unfold handleRemove. rewrite !List.filter_app. simpl.
      rewrite Hit, String.eqb_refl. reflexivity. }
  split; [exact Heq|]. intros Hnone. rewrite Heq. apply handleRemove_absent, Hnone.
Qed.

Lemma add_then_remove_witness :
  handleRemove "p4" (example_cart ++ [{| product := mug; quantity := 2 |}]) = example_cart.
Proof.
  refine (proj2 (add_then_remove mug 2 example_cart _ _) _).
  - reflexivity.
  - repeat constructor; discriminate.
Defined.

(** A session of clicks, one after the other. *)
Fixpoint clicks (session : list Click) (c : Cart) : result Cart :=
  match session with
  | [] => Ok c
  | ev :: rest => c' ← click ev c; clicks rest c'
  end.

(** Every quantity of the cart is at least 1. *)
Definition quantities_positive (c : Cart) : Prop := Forall (λ it, (1 ≤ quantity it)%Z) c.

Lemma handleUpdateQty_positive (productId : string) (q : Z) (c : Cart) :
  (1 ≤ q)%Z → quantities_positive c →
  handleUpdateQty productId q c
  = map (λ it, if String.eqb (id (product it)) productId
               then {| product := product it; quantity := q |}
               else it) c ∧
  quantities_positive (handleUpdateQty productId q c).
Proof.
  intros Hq Hc. unfold handleUpdateQty, quantities_positive.
  induction Hc as [|it c Hit _ [IH1 IH2]]; simpl; [split; [reflexivity | constructor]|].
  destruct (String.eqb (id (product it)) productId); simpl.
  - replace (0 <? q)%Z with true by (symmetry; apply Z.ltb_lt; lia).
    rewrite IH1. split; [reflexivity|]. constructor; [exact Hq|]. rewrite <- IH1. exact IH2.
  - replace (0 <? quantity it)%Z with true by (symmetry; apply Z.ltb_lt; lia).
    rewrite IH1. split; [reflexivity|]. constructor; [exact Hit|]. rewrite <- IH1. exact IH2.
Qed.

Lemma handleAddToCart_positive (P : Product) (qty : Z) (c c' : Cart) :
  (1 ≤ qty)%Z → quantities_positive c → handleAddToCart P qty c = Ok c' →
  quantities_positive c'.
Proof.
  unfold quantities_positive. intros Hq Hc Hadd.
  destruct (first_match_split (λ it, String.eqb (id (product it)) (id P)) c)
    as [Hnone | (pre & it & post & -> & Hpre & Hit)].
  - apply id_test_false in Hnone. rewrite (handleAddToCart_fresh P qty c Hnone) in Hadd.
    injection Hadd as <-. apply Forall_app. split; [exact Hc|]. repeat constructor. exact Hq.
  - apply id_test_false in Hpre. apply String.eqb_eq in Hit.
    rewrite (handleAddToCart_existing P qty pre it post Hpre Hit) in Hadd.
    injection Hadd as <-. apply Forall_app in Hc as [Hc1 Hc2].
    apply Forall_cons_1 in Hc2 as [Hc2 Hc3].
    apply Forall_app. split; [exact Hc1|]. constructor; [simpl; lia | exact Hc3].
Qed.

Lemma click_total (ev : Click) (c : Cart) : ∃ c', click ev c = Ok c'.
Proof.
  unfold click. destruct (onClick ev c) as [a|]; [apply reduce_total | eauto].
Qed.

Lemma click_well_formed (ev : Click) (c c' : Cart) :
  quantities_positive c → one_item_per_product c → click ev c = Ok c' →
  quantities_positive c' ∧ one_item_per_product c'.
Proof.
  intros Hpos Hinv Hclick. unfold click in Hclick.
  destruct (onClick ev c) as [a|] eqn:Ha; [|injection Hclick as <-; auto].
  split; [|eapply reduce_invariant; eauto].
  destruct ev as [p|p|row|row|row|]; simpl in Ha.
  - injection Ha as <-. eapply (handleAddToCart_positive p 1); eauto. lia.
  - injection Ha as <-. eapply (handleAddToCart_positive p 1); eauto. lia.
  - destruct (c !! row) as [item|]; [|discriminate Ha]. injection Ha as <-.
    simpl in Hclick. injection Hclick as <-. apply handleUpdateQty_positive; [lia | exact Hpos].
  - destruct (c !! row) as [item|] eqn:Hrow; [|discriminate Ha]. injection Ha as <-.
    simpl in Hclick. injection Hclick as <-. apply handleUpdateQty_positive; [|exact Hpos].
    unfold quantities_positive in Hpos. rewrite Forall_forall in Hpos.
    specialize (Hpos item (list_elem_of_lookup_2 _ _ _ Hrow)). simpl in Hpos. lia.
  - destruct (c !! row) as [item|]; [|discriminate Ha]. injection Ha as <-.
    simpl in Hclick. injection Hclick as <-. unfold quantities_positive, handleRemove.
    apply Forall_forall. intros it Hin. apply list_elem_of_In, filter_In in Hin as [Hin _].
    unfold quantities_positive in Hpos. rewrite Forall_forall in Hpos.
    apply Hpos, list_elem_of_In, Hin.
  - injection Ha as <-. simpl in Hclick. injection Hclick as <-. constructor.
Qed.

(** X9.  Whatever the user clicks, starting from the empty cart: no click
    throws, every quantity in the cart stays at 1 or more, and the cart keeps
    at most one item per product.  (The branch of [handleUpdateQty] that
    removes an item is therefore never taken by the drawer's buttons.) *)
Theorem clicks_keep_cart_well_formed (session : list Click) :
  ∃ c, clicks session [] = Ok c ∧ quantities_positive c ∧ one_item_per_product c.
Proof.
  assert (∀ c0, quantities_positive c0 → one_item_per_product c0 →
                ∃ c, clicks session c0 = Ok c ∧ quantities_positive c ∧ one_item_per_product c)
    as Hgen.
  { induction session as [|ev rest IH]; intros c0 Hpos Hinv; simpl; [eauto|].
    destruct (click_total ev c0) as (c1 & Hc1). rewrite Hc1. simpl.
    destruct (click_well_formed ev c0 c1 Hpos Hinv Hc1) as [Hpos1 Hinv1]. eauto. }
  apply Hgen; constructor.
Qed.

Lemma update_row {B} (f : CartItem → B) `{EqDecision B} (g : CartItem → CartItem)
    (c : Cart) (row : nat) (item : CartItem) :
  NoDup (map f c) → c !! row = Some item → (∀ it, f (g it) = f it) →
  map (λ it, if decide (f it = f item) then g it else it) c = <[row := g item]> c.
Proof.
  intros Hnd Hrow Hg. revert row Hrow. induction c as [|a c IH]; intros row Hrow;
    [discriminate Hrow|].
  simpl in Hnd. apply NoDup_cons in Hnd as [Hnotin Hnd]. destruct row as [|row]; simpl in *.
  - injection Hrow as <-. rewrite decide_True by reflexivity. f_equal.
    clear IH. induction c as [|b c IH]; simpl; [reflexivity|].
    apply NoDup_cons in Hnd as [_ Hnd]. rewrite decide_False.
    + f_equal. apply IH; [|exact Hnd]. intros Hin. apply Hnotin. simpl. right. exact Hin.
    + intros Heq. apply Hnotin. simpl. rewrite Heq. left.
  - rewrite decide_False.
    + f_equal. apply IH; assumption.
    + intros Heq. apply Hnotin. rewrite Heq. apply list_elem_of_In, in_map.
      apply list_elem_of_In. eapply list_elem_of_lookup_2, Hrow.
Qed.

(** On integers: on a cart with positive quantities and one item per
    product, the drawer's "-" and "+" change the quantity of their own row
    and nothing else. *)
Lemma drawer_buttons_on_integers (c : Cart) (row : nat) (item : CartItem) :
  quantities_positive c → one_item_per_product c → c !! row = Some item →
  ∀ q, (1 ≤ q)%Z →
       handleUpdateQty (id (product item)) q c
       = <[row := {| product := product item; quantity := q |}]> c.
Proof.
  intros Hpos Hinv Hrow q Hq.
  rewrite (proj1 (handleUpdateQty_positive (id (product item)) q c Hq Hpos)).
  rewrite <- (update_row (λ it, id (product it))
                (λ it, {| product := product it; quantity := q |}) c row item Hinv Hrow)
    by reflexivity.
  apply map_ext. intros it.
  destruct (String.eqb (id (product it)) (id (product item))) eqn:Hid.
  - apply String.eqb_eq in Hid. rewrite decide_True by exact Hid. reflexivity.
  - apply String.eqb_neq in Hid. rewrite decide_False by exact Hid. reflexivity.
Qed.

(** X10.  On a cart with one item per product whose quantities are integers
    from 1 to 2^53, the drawer's "-" and "+" on a row whose quantity is below
    2^53 change the quantity of their own row and nothing else: "+" adds 1,
    "-" subtracts 1 but stops at 1, so on a row of quantity 1 it leaves the
    cart as it is.  Neither removes a row.  The cart is the one on binary64
    numbers, with the additions, subtractions, [Math.max] and comparisons of
    the page. *)
Theorem drawer_quantity_buttons (c : Cart) (row : nat) (item : CartItem) :
  Forall (λ it, (1 ≤ quantity it ≤ 2 ^ 53)%Z) c → one_item_per_product c →
  c !! row = Some item → (quantity item < 2 ^ 53)%Z →
  Binary64.click (ClickIncrease row) (binary64 c)
  = Ok (binary64 (<[row := {| product := product item;
                              quantity := (quantity item + 1)%Z |}]> c)) ∧
  Binary64.click (ClickDecrease row) (binary64 c)
  = Ok (binary64 (<[row := {| product := product item;
                              quantity := Z.max 1 (quantity item - 1) |}]> c)) ∧
  (quantity item = 1%Z → Binary64.click (ClickDecrease row) (binary64 c) = Ok (binary64 c)).
Proof.
  intros Hrange Hinv Hrow Hbound.
  assert (quantities_positive c) as Hpos.
  { unfold quantities_positive. eapply Forall_impl; [exact Hrange|]. simpl. lia. }
  assert (Forall (λ it, (0 ≤ quantity it ≤ 2 ^ 53)%Z) c) as Hrange0.
  { eapply Forall_impl; [exact Hrange|]. simpl. lia. }
  assert (1 ≤ quantity item)%Z as Hitem.
  { unfold quantities_positive in Hpos. rewrite Forall_forall in Hpos.
    apply (Hpos item (list_elem_of_lookup_2 _ _ _ Hrow)). }
  assert (binary64 c !! row
          = Some {| Binary64.product := product item;
                    Binary64.quantity := of_integer (quantity item) |}) as Hrow64.
  { unfold binary64. rewrite list_lookup_fmap, Hrow. reflexivity. }
  assert (Binary64.click (ClickIncrease row) (binary64 c)
          = Ok (binary64 (<[row := {| product := product item;
                                      quantity := (quantity item + 1)%Z |}]> c))) as Hplus.
  { unfold Binary64.click. simpl. rewrite Hrow64. simpl.
    rewrite <- of_integer_1, add_exact by lia.
    rewrite Binary64_handleUpdateQty_integers by (try exact Hrange0; lia).
    rewrite (drawer_buttons_on_integers c row item Hpos Hinv Hrow) by lia. reflexivity. }
  assert (Binary64.click (ClickDecrease row) (binary64 c)
          = Ok (binary64 (<[row := {| product := product item;
                                      quantity := Z.max 1 (quantity item - 1) |}]> c)))
    as Hminus.
  { unfold Binary64.click. simpl. rewrite Hrow64. simpl.
    rewrite <- of_integer_1, sub_exact, Math_max_integers by lia.
    rewrite Binary64_handleUpdateQty_integers by (try exact Hrange0; lia).
    rewrite (drawer_buttons_on_integers c row item Hpos Hinv Hrow) by lia. reflexivity. }
  split; [exact Hplus|]. split; [exact Hminus|].
  intros Hone. rewrite Hminus, Hone. simpl. do 2 f_equal. apply list_insert_id.
  rewrite Hrow. destruct item as [p q]. simpl in *. subst q. reflexivity.
Qed.

Lemma drawer_quantity_buttons_witness :
  Binary64.click (ClickDecrease 1) (binary64 example_cart) = Ok (binary64 example_cart) ∧
  Binary64.click (ClickIncrease 1) (binary64 example_cart)
  = Ok [ {| Binary64.product := tshirt; Binary64.quantity := 2 |};
         {| Binary64.product := wallet; Binary64.quantity := 2 |} ].
Proof.
  assert (Forall (λ it, (1 ≤ quantity it ≤ 2 ^ 53)%Z) example_cart) as Hrange
    by (repeat constructor; simpl; lia).
  assert (one_item_per_product example_cart) as Hinv
    by (apply (bool_decide_unpack _); vm_compute; exact I).
  split.
  - refine (proj2 (proj2 (drawer_quantity_buttons example_cart 1
                            {| product := wallet; quantity := 1 |} Hrange Hinv eq_refl _))
              eq_refl).
    reflexivity.
  - refine (proj1 (drawer_quantity_buttons example_cart 1
                     {| product := wallet; quantity := 1 |} Hrange Hinv eq_refl _)).
    reflexivity.
Defined.

(** ** Persistence: what a reload finds *)

Lemma setItem_entries (key value : string) (st st' : Storage) :
  setItem key value st = Ok st' →
  entries st' !! key = Some value ∧ available st' = true ∧ quota st' = quota st ∧
  available st = true.
Proof.
  unfold setItem. destruct (available st) eqn:Hav; simpl; [|discriminate].
  destruct (String.length value <=? quota st)%nat; [|discriminate].
  intros H. injection H as <-. simpl. rewrite lookup_insert_eq. auto.
Qed.

Lemma setItem_unavailable (key value : string) (st : Storage) :
  available st = false → setItem key value st = Throw DOMException.
Proof. unfold setItem. intros ->. reflexivity. Qed.

Section ReloadProperties.

Context (JSON_parse : string → result Cart) (JSON_stringify : Cart → string).

Lemma loadCart_stored (st : Storage) (c c0 : Cart) :
  available st = true → entries st !! CART_STORAGE_KEY = Some (JSON_stringify c) →
  truthy (JSON_stringify c) = true → JSON_parse (JSON_stringify c) = Ok c →
  loadCart JSON_parse st c0 = Ok c.
Proof.
  intros Hav Hslot Htruthy Hparse. unfold loadCart, getItem.
  rewrite Hav, Hslot. simpl. rewrite Htruthy, Hparse. reflexivity.
Qed.

(** X11.  A mutation whose write succeeds survives a reload: if
    [JSON.parse] reads the text of the new cart back as that cart, mounting
    the page over the storage the mutation left starts with that cart.  When
    the write fails the storage is as before the mutation, so a reload finds
    what the slot held then. *)
Theorem reload_after_dispatch (a : Action) (s s' : PageState) :
  dispatch JSON_stringify a s = Ok s' →
  (setItem CART_STORAGE_KEY (JSON_stringify (cart s')) (storage s) = Ok (storage s') →
   truthy (JSON_stringify (cart s')) = true →
   JSON_parse (JSON_stringify (cart s')) = Ok (cart s') →
   ∃ s'', mount JSON_parse JSON_stringify (storage s') = Ok s'' ∧ cart s'' = cart s') ∧
  ((∃ e, setItem CART_STORAGE_KEY (JSON_stringify (cart s')) (storage s) = Throw e) →
   storage s' = storage s).
Proof.
  intros Hstep.
  destruct (dispatch_total JSON_stringify a s) as (next & st' & Hs' & _ & Hwrite).
  rewrite Hstep in Hs'. injection Hs' as ->. simpl in *. split.
  - intros Hset Htruthy Hparse.
    destruct (setItem_entries _ _ _ _ Hset) as (Hslot & Hav & _).
    destruct (mount_total JSON_parse JSON_stringify st') as (s'' & Hs'' & Hload).
    exists s''. split; [exact Hs''|].
    rewrite (loadCart_stored st' next [] Hav Hslot Htruthy Hparse) in Hload.
    injection Hload as <-. reflexivity.
  - intros (e & He). destruct Hwrite as [Hok | [_ ->]]; [congruence | reflexivity].
Qed.

(** X12.  Mounting rewrites the slot: over a storage that can be used and
    has room for the text of the empty cart and of the loaded cart, the slot
    holds the text of the loaded cart afterwards.  In particular a slot whose
    text does not parse is overwritten with the text of the empty cart. *)
Theorem mount_rewrites_slot (st : Storage) (s : PageState) :
  mount JSON_parse JSON_stringify st = Ok s →
  available st = true →
  (String.length (JSON_stringify []) ≤ quota st)%nat →
  (String.length (JSON_stringify (cart s)) ≤ quota st)%nat →
  entries (storage s) !! CART_STORAGE_KEY = Some (JSON_stringify (cart s)) ∧
  ((∃ text e, entries st !! CART_STORAGE_KEY = Some text ∧ JSON_parse text = Throw e) →
   cart s = [] ∧ entries (storage s) !! CART_STORAGE_KEY = Some (JSON_stringify [])).
Proof.
  intros Hmount Hav Hq0 Hq.
  assert (entries (storage s) !! CART_STORAGE_KEY = Some (JSON_stringify (cart s))) as Hslot.
  { unfold mount in Hmount.
    destruct (loadCart JSON_parse st []) as [loaded|e] eqn:Hload; [|discriminate Hmount].
    simpl in Hmount. unfold persistCart, setItem in Hmount. rewrite Hav in Hmount.
    apply Nat.leb_le in Hq0. rewrite Hq0 in Hmount. simpl in Hmount.
    destruct (String.length (JSON_stringify loaded) <=? quota st)%nat eqn:Hql;
      simpl in Hmount.
    - injection Hmount as <-. simpl. apply lookup_insert_eq.
    - injection Hmount as <-. simpl in Hq. apply Nat.leb_le in Hq. congruence. }
  split; [exact Hslot|]. intros (text & e & Htext & Hparse).
  assert (cart s = []) as Hcart.
  { destruct (mount_total JSON_parse JSON_stringify st) as (s0 & Hs0 & Hload).
    rewrite Hmount in Hs0. injection Hs0 as <-.
    unfold loadCart, getItem in Hload. rewrite Hav, Htext in Hload. simpl in Hload.
    destruct (truthy text); simpl in Hload; [rewrite Hparse in Hload|];
      simpl in Hload; congruence. }
  split; [exact Hcart|]. rewrite Hslot, Hcart. reflexivity.
Qed.

(** X13.  When the browser refuses the storage, the page starts with the
    empty cart and the whole session leaves the storage untouched. *)
Theorem session_without_storage (st0 : Storage) (s : PageState) :
  available st0 = false →
  mount JSON_parse JSON_stringify st0 = Ok {| cart := []; storage := st0 |} ∧
  (reachable JSON_parse JSON_stringify st0 s → storage s = st0).
Proof.
  intros Hav.
  assert (∀ c, persistCart JSON_stringify c st0 = Ok st0) as Hpersist.
  { intros c. unfold persistCart. rewrite setItem_unavailable by exact Hav. reflexivity. }
  assert (mount JSON_parse JSON_stringify st0 = Ok {| cart := []; storage := st0 |}) as Hmount.
  { unfold mount, loadCart, getItem. rewrite Hav. simpl.
    rewrite Hpersist. simpl. rewrite Hpersist. reflexivity. }
  split; [exact Hmount|].
  induction 1 as [s Hs | a s s' _ IH Hstep].
  - rewrite Hmount in Hs. injection Hs as <-. reflexivity.
  - unfold dispatch in Hstep.
    destruct (reduce a (cart s)) as [next|e]; [|discriminate Hstep]. simpl in Hstep.
    rewrite IH, Hpersist in Hstep. simpl in Hstep. injection Hstep as <-. reflexivity.
Qed.

End ReloadProperties.

(** A stand-in for [JSON.stringify] whose text is never empty. *)
Definition bracket_stringify (c : Cart) : string := "[" +:+ ids_stringify c +:+ "]".

(** A storage with room, and one the browser refuses. *)
Definition roomy_storage : Storage := {| entries := ∅; available := true; quota := 4096 |}.
Definition refused_storage : Storage :=
  {| entries := {[ CART_STORAGE_KEY := "p2,p1" ]}; available := false; quota := 4096 |}.

Lemma reload_after_dispatch_witness :
  ∃ s'', mount (table_parse [("p2,p1", example_cart)]) ids_stringify
           {| entries := {[ CART_STORAGE_KEY := "p2,p1" ]}; available := true; quota := 4096 |}
         = Ok s'' ∧ cart s'' = example_cart.
Proof.
  refine (proj1 (reload_after_dispatch (table_parse [("p2,p1", example_cart)]) ids_stringify
                   (Add wallet 1)
                   {| cart := [{| product := tshirt; quantity := 2 |}]; storage := roomy_storage |}
                   {| cart := example_cart;
                      storage := {| entries := {[ CART_STORAGE_KEY := "p2,p1" ]};
                                    available := true; quota := 4096 |} |} _) _ _ _);
    vm_compute; reflexivity.
Defined.

Lemma mount_rewrites_slot_witness :
  ∃ s, mount (table_parse []) bracket_stringify corrupt_storage = Ok s ∧
       cart s = [] ∧ entries (storage s) !! CART_STORAGE_KEY = Some "[]".
Proof.
  eexists. split; [vm_compute; reflexivity|].
  refine (proj2 (mount_rewrites_slot (table_parse []) bracket_stringify corrupt_storage
                   _ _ _ _ _) _).
  - vm_compute. reflexivity.
  - reflexivity.
  - vm_compute. lia.
  - vm_compute. lia.
  - exists "{not json", SyntaxError. split; vm_compute; reflexivity.
Defined.

Lemma session_without_storage_witness :
  mount (table_parse [("p2,p1", example_cart)]) ids_stringify refused_storage
  = Ok {| cart := []; storage := refused_storage |}.
Proof.
  refine (proj1 (session_without_storage (table_parse [("p2,p1", example_cart)]) ids_stringify
                   refused_storage {| cart := []; storage := refused_storage |} _)).
  reflexivity.
Defined.

(** ** The category list *)

Lemma ascii_compare_lt_trans (a b c : ascii) :
  Ascii.compare a b = Lt → Ascii.compare b c = Lt → Ascii.compare a c = Lt.
Proof.
  unfold Ascii.compare. rewrite !N.compare_lt_iff. lia.
Qed.

Lemma string_compare_trans (x y z : string) :
  String.compare x y ≠ Gt → String.compare y z ≠ Gt → String.compare x z ≠ Gt.
Proof.
  revert y z. induction x as [|a x IH]; intros [|b y] [|c z]; simpl;
    try (intros; congruence).
  destruct (Ascii.compare a b) eqn:Hab; [| |intros; congruence].
  - apply Ascii.compare_eq_iff in Hab. subst b.
    destruct (Ascii.compare a c); [apply IH | auto | auto].
  - intros _. destruct (Ascii.compare b c) eqn:Hbc; [| |intros; congruence]; intros _.
    + apply Ascii.compare_eq_iff in Hbc. subst c. rewrite Hab. discriminate.
    + rewrite (ascii_compare_lt_trans a b c Hab Hbc). discriminate.
Qed.

Lemma default_compare_le (x y : string) :
  Qle_bool (default_compare x y) 0 = true ↔ String.compare x y ≠ Gt.
Proof.
  unfold default_compare. destruct (String.compare x y); split; intros H;
    try reflexivity; try discriminate; try (vm_compute in H; discriminate).
  exfalso. apply H. reflexivity.
Qed.

Section SortByComparator.

Context {A : Type} (compareFn : A → A → Q).

(** [a] may stand before [b]. *)
Let before (a b : A) : Prop := Qle_bool (compareFn a b) 0 = true.

Hypothesis before_total : ∀ a b, before a b ∨ before b a.
Hypothesis before_trans : ∀ a b c, before a b → before b c → before a c.

Lemma sort_insert_before (a : A) (l : list A) :
  StronglySorted before l → StronglySorted before (sort_insert compareFn a l).
Proof.
  induction 1 as [|b l Hsorted IH Hb]; simpl; [repeat constructor|].
  destruct (Qle_bool (compareFn a b) 0) eqn:Hab.
  - constructor; [constructor; assumption|]. constructor; [exact Hab|].
    eapply Forall_impl; [exact Hb|]. intros x Hx. eapply before_trans; eassumption.
  - assert (before b a) as Hba.
    { destruct (before_total a b) as [H|H]; [unfold before in H; congruence | exact H]. }
    constructor; [exact IH|]. rewrite (sort_insert_perm compareFn a l).
    constructor; assumption.
Qed.

Lemma sort_before (l : list A) : StronglySorted before (sort compareFn l).
Proof.
  induction l as [|a l IH]; simpl; [constructor | apply sort_insert_before, IH].
Qed.

End SortByComparator.

Lemma Set_add_In (x y : string) (set : list string) :
  In y (Set_add x set) ↔ In y set ∨ y = x.
Proof.
  unfold Set_add. destruct (existsb (String.eqb x) set) eqn:Hex.
  - apply existsb_exists in Hex as (z & Hz & Hxz). apply String.eqb_eq in Hxz. subst z.
    split; [auto | intros [H | ->]; assumption].
  - rewrite in_app_iff. simpl. intuition congruence.
Qed.

Lemma Set_add_NoDup (x : string) (set : list string) : NoDup set → NoDup (Set_add x set).
Proof.
  intros Hnd. unfold Set_add. destruct (existsb (String.eqb x) set) eqn:Hex; [exact Hnd|].
  apply NoDup_app. split; [exact Hnd|]. split; [|apply NoDup_singleton].
  intros y Hy Hy'. apply list_elem_of_singleton in Hy'. subst y.
  assert (existsb (String.eqb x) set = true); [|congruence].
  apply existsb_exists. exists x. split; [apply list_elem_of_In, Hy | apply String.eqb_refl].
Qed.

Lemma category_set_spec (products0 : list Product) (set0 : list string) :
  let set :=
    fold_left
      (λ set p, match category p with
                | Some c => if truthy c then Set_add c set else set
                | None => set
                end)
      products0 set0 in
  (NoDup set0 → NoDup set) ∧
  ∀ c, In c set ↔ In c set0 ∨ (c ≠ "" ∧ ∃ p, In p products0 ∧ category p = Some c).
Proof.
  revert set0. induction products0 as [|p ps IH]; intros set0; simpl.
  - split; [auto|]. intros c. split; [auto|]. intros [H | (_ & q & [] & _)]. exact H.
  - destruct (IH (match category p with
                  | Some c => if truthy c then Set_add c set0 else set0
                  | None => set0
                  end)) as [Hnd Hin].
    split.
    + intros Hnd0. apply Hnd. destruct (category p) as [c|]; [|exact Hnd0].
      destruct (truthy c); [apply Set_add_NoDup|]; exact Hnd0.
    + intros c. rewrite Hin. clear Hin Hnd IH.
      destruct (category p) as [cp|] eqn:Hcp.
      * destruct (truthy cp) eqn:Htr.
        -- rewrite Set_add_In. apply truthy_iff in Htr. split.
           ++ intros [[H | ->] | (Hc & q & Hq & Hcat)]; eauto 8.
           ++ intros [H | (Hc & q & [<- | Hq] & Hcat)]; eauto 8.
              left. right. congruence.
        -- assert (cp = "") as -> by (destruct cp; [reflexivity | discriminate Htr]).
           split.
           ++ intros [H | (Hc & q & Hq & Hcat)]; eauto 8.
           ++ intros [H | (Hc & q & [<- | Hq] & Hcat)]; eauto 8. congruence.
      * split.
        -- intros [H | (Hc & q & Hq & Hcat)]; eauto 8.
        -- intros [H | (Hc & q & [<- | Hq] & Hcat)]; eauto 8. congruence.
Qed.

Lemma categories_In (products0 : list Product) (c : string) :
  In c (categories products0) ↔
  c = "All" ∨ (c ≠ "" ∧ ∃ p, In p products0 ∧ category p = Some c).
Proof.
  unfold categories. destruct (category_set_spec products0 []) as [_ Hin].
  cbv zeta in Hin. simpl. rewrite sort_In, Hin. simpl. intuition.
Qed.

(** X14.  The category list starts with "All"; after it come exactly the
    non-empty categories that some product has, each once, in increasing
    order of their characters' codes. *)
Theorem categories_lists_each_category_once (products0 : list Product) :
  ∃ rest,
    categories products0 = "All" :: rest ∧
    (∀ c, In c rest ↔ c ≠ "" ∧ ∃ p, In p products0 ∧ category p = Some c) ∧
    NoDup rest ∧
    StronglySorted (λ x y, String.compare x y = Lt) rest.
Proof.
  unfold categories. eexists. split; [reflexivity|].
  destruct (category_set_spec products0 []) as [Hnd Hin]. cbv zeta in Hnd, Hin.
  set (set := fold_left _ products0 []) in *.
  assert (NoDup (sort default_compare set)) as Hnd'.
  { rewrite (sort_perm default_compare set). apply Hnd. constructor. }
  split; [|split; [exact Hnd'|]].
  - intros c. rewrite sort_In, Hin. simpl. intuition.
  - assert (StronglySorted (λ x y, String.compare x y ≠ Gt) (sort default_compare set)) as Hs.
    { eapply StronglySorted_weaken; [|apply (sort_before default_compare)].
      - intros a b. apply default_compare_le.
      - intros a b. rewrite !default_compare_le, (String.compare_antisym b a).
        destruct (String.compare a b); simpl; [left | left | right]; congruence.
      - intros a b c. rewrite !default_compare_le. apply string_compare_trans. }
    induction Hs as [|a l Hs IH Ha]; constructor.
    + apply IH. apply NoDup_cons in Hnd' as [_ H]. exact H.
    + apply NoDup_cons in Hnd' as [Hnotin _].
      rewrite Forall_forall in Ha |- *. intros x Hx. specialize (Ha x Hx).
      destruct (String.compare a x) eqn:Hax; [|reflexivity|congruence].
      apply String.compare_eq_iff in Hax. subst x. contradiction.
Qed.

(** X15.  Every entry of the category list of a non-empty catalog shows
    something: with no search text, selecting it gives a result that is not
    empty. *)
Theorem listed_category_is_not_empty (products0 : list Product) (c : string)
    (sortBy : SortKey) :
  products0 ≠ [] → In c (categories products0) →
  visibleProducts products0 "" c sortBy ≠ [].
Proof.
  intros Hne Hc.
  assert (∃ p, In p (visibleProducts products0 "" c sortBy)) as (p & Hp).
  { destruct (String.eqb c "All") eqn:Hall.
    - apply String.eqb_eq in Hall. subst c. destruct products0 as [|p ps]; [congruence|].
      exists p. apply visibleProducts_In. simpl. intuition congruence.
    - apply String.eqb_neq in Hall.
      apply categories_In in Hc as [Hc | (_ & p & Hp & Hcat)]; [congruence|].
      exists p. apply visibleProducts_In. simpl. repeat split; [exact Hp | discriminate |].
      intros _. apply category_is_iff, Hcat. }
  intros Hnil. rewrite Hnil in Hp. destruct Hp.
Qed.

Lemma listed_category_is_not_empty_witness :
  visibleProducts SAMPLE_PRODUCTS "" "Home" price_desc ≠ [].
Proof.
  refine (listed_category_is_not_empty SAMPLE_PRODUCTS "Home" price_desc _ _).
  - discriminate.
  - vm_compute. do 4 right. left. reflexivity.
Defined.

Example categories_of_samples :
  categories SAMPLE_PRODUCTS = ["All"; "Accessories"; "Clothing"; "Electronics"; "Home"] ∧
  categories [mug; gift_card; mug_rack; tshirt] = ["All"; "Clothing"; "Home"].
Proof. split; vm_compute; reflexivity. Qed.

(** ** Catalog fetch: what is copied, and what the page does with it *)

(** A record with an empty title, a numeric name, and a price given as a
    string. *)
Definition odd_record : json :=
  JObject [ ("id", JNull); ("_id", JString "a1"); ("slug", JString "lamp");
            ("title", JString ""); ("name", JNumber 7);
            ("price", JString "12.5"); ("image", JBool false) ].

Section CatalogFetchMoreProperties.

Context (NumberToString : Q → string) (StringToNumber : string → number)
        (random : nat → string).

Lemma get_Some_field (p : json) (key : string) (v : option json) :
  get p key = Ok v → p ≠ JNull ∧ field p key = v.
Proof.
  destruct p; simpl; intros H; try discriminate H; injection H as <-;
    split; try discriminate; reflexivity.
Qed.

Lemma or_else_present (v : json) (b : option json) :
  v ≠ JNull → or_else (Some v) b = Some v.
Proof. unfold or_else. destruct v; simpl; congruence. Qed.

(** X16.  The callback copies what the record holds, of whatever type: a
    field that is present and not [null] is taken as it is, an empty string
    or [false] included ([??] only replaces [null] and [undefined]); [id]
    wins over [_id], [_id] over [slug], [title] over [name], [image] over
    [imageUrl]; the identifier is the first of them turned into a string,
    the price what [Number] makes of the [price] field. *)
Theorem toProduct_copies_present_fields (i : nat) (p : json) (x : RawProduct) (v : json) :
  toProduct NumberToString StringToNumber random i p = Ok x → v ≠ JNull →
  (get p "id" = Ok (Some v) → ToString NumberToString v = Ok (raw_id x)) ∧
  (missing p "id" → get p "_id" = Ok (Some v) → ToString NumberToString v = Ok (raw_id x)) ∧
  (missing p "id" → missing p "_id" → get p "slug" = Ok (Some v) →
     ToString NumberToString v = Ok (raw_id x)) ∧
  (get p "title" = Ok (Some v) → raw_title x = Some v) ∧
  (missing p "title" → get p "name" = Ok (Some v) → raw_title x = Some v) ∧
  (get p "description" = Ok (Some v) → raw_description x = Some v) ∧
  (missing p "description" → raw_description x = Some (JString "")) ∧
  (get p "price" = Ok (Some v) →
     Number_of NumberToString StringToNumber (Some v) = Ok (raw_price x)) ∧
  (get p "category" = Ok (Some v) → raw_category x = Some v) ∧
  (get p "image" = Ok (Some v) → raw_image x = Some v) ∧
  (missing p "image" → get p "imageUrl" = Ok (Some v) → raw_image x = Some v) ∧
  (missing p "image" → missing p "imageUrl" → raw_image x = Some (JString "")) ∧
  (get p "rating" = Ok (Some v) → raw_rating x = Some v) ∧
  (missing p "rating" → raw_rating x = None).
Proof.
  intros Hto Hv.
  destruct (toProduct_returned NumberToString StringToNumber random i p x Hto)
    as (Hp & Hid & Hprice & Htitle & Hdesc & Hcat & Himage & Hrating).
  rewrite <- Hid, <- Hprice, Htitle, Hdesc, Hcat, Himage, Hrating.
  unfold id_value, price_value.
  repeat split;
    repeat (let H := fresh in
            intros H;
            first [ apply (missing_field p _ Hp) in H
                  | apply get_Some_field in H as [_ H] ]);
    repeat match goal with
           | H : nullish (field p ?k) = true |- _ => unfold or_else at 1; rewrite H; clear H
           | H : field p ?k = Some v |- _ => rewrite H, (or_else_present v _ Hv); clear H
           end;
    reflexivity.
Qed.

Lemma fetchProductsFromApi_returns (fetched : result Response) :
  ∃ data, fetchProductsFromApi NumberToString StringToNumber random fetched = Ok data.
Proof.
  unfold fetchProductsFromApi. destruct (_ ≫= _) as [data|e]; simpl; eauto.
Qed.

(** X17.  The effect that loads the products never sets the error: as
    [fetchProductsFromApi] catches every failure, the page is never told of
    one, and the content section never shows "Failed to load products.".
    While the page is mounted the effect ends with the fetched (or fallback)
    products and the loading flag down; after an unmount it changes no
    products and leaves the flag up. *)
Theorem loadProducts_never_fails (fetched : result Response) (mounted : bool)
    (s : CatalogState) (visible : list Product) :
  let s' := loadProducts (fetchProductsFromApi NumberToString StringToNumber random fetched)
              mounted s in
  error s' = None ∧
  (∀ message, content (loading s') (error s') visible ≠ ErrorMessage message) ∧
  (mounted = true →
     loading s' = false ∧
     fetchProductsFromApi NumberToString StringToNumber random fetched = Ok (products s')) ∧
  (mounted = false → loading s' = true ∧ products s' = products s).
Proof.
  destruct (fetchProductsFromApi_returns fetched) as (data & Hdata).
  cbv zeta. rewrite Hdata. unfold loadProducts. destruct mounted; simpl.
  - split; [reflexivity|]. split; [|split; [auto | discriminate]].
    intros message. unfold content. simpl. destruct visible; discriminate.
  - split; [reflexivity|]. split; [|split; [discriminate | auto]].
    intros message. discriminate.
Qed.

End CatalogFetchMoreProperties.

Lemma toProduct_copies_present_fields_witness :
  ∃ x, toProduct (λ _, "7") (λ _, Num 12.5) (λ _, "r4nd0m") 0 odd_record = Ok x ∧
       Ok "a1" = Ok (raw_id x) ∧ raw_title x = Some (JString "") ∧
       raw_image x = Some (JBool false).
Proof.
  eexists. split; [vm_compute; reflexivity|].
  split; [|split].
  - refine (proj1 (proj2 (toProduct_copies_present_fields (λ _, "7") (λ _, Num 12.5)
                            (λ _, "r4nd0m") 0 odd_record _ (JString "a1") eq_refl _)) _ eq_refl).
    + discriminate.
    + eexists. split; reflexivity.
  - reflexivity.
  - reflexivity.
Defined.

(** ** Regular expressions: what [test] decides *)

(** Concatenations of strings of [L]. *)
Inductive star (L : string → Prop) : string → Prop :=
  | star_nil : star L ""
  | star_app s1 s2 : L s1 → star L s2 → star L (s1 +:+ s2).

(** The strings a regular expression denotes. *)
Fixpoint lang (r : regex) : string → Prop :=
  match r with
  | Empty => λ _, False
  | Eps => λ s, s = ""
  | Class accepts => λ s, ∃ c, s = String c "" ∧ accepts c = true
  | Seq r1 r2 => λ s, ∃ s1 s2, s = s1 +:+ s2 ∧ lang r1 s1 ∧ lang r2 s2
  | Alt r1 r2 => λ s, lang r1 s ∨ lang r2 s
  | Star r1 => star (lang r1)
  end.

Lemma append_nil_l (s : string) : "" +:+ s = s.
Proof. reflexivity. Qed.

Lemma append_cons (c : ascii) (s t : string) : String c s +:+ t = String c (s +:+ t).
Proof. reflexivity. Qed.

Lemma append_nil_r (s : string) : s +:+ "" = s.
Proof.
  induction s as [|c s IH]; [reflexivity|]. rewrite append_cons, IH. reflexivity.
Qed.

Lemma append_assoc (s1 s2 s3 : string) : (s1 +:+ s2) +:+ s3 = s1 +:+ (s2 +:+ s3).
Proof.
  induction s1 as [|c s1 IH]; [reflexivity|]. rewrite !append_cons, IH. reflexivity.
Qed.

Lemma append_nil_inv (s1 s2 : string) : s1 +:+ s2 = "" → s1 = "" ∧ s2 = "".
Proof. destruct s1; [auto|]. rewrite append_cons. discriminate. Qed.

Lemma nullable_iff (r : regex) : nullable r = true ↔ lang r "".
Proof.
  induction r as [| |f|r1 IH1 r2 IH2|r1 IH1 r2 IH2|r1 IH1]; simpl.
  - split; [discriminate | contradiction].
  - split; reflexivity.
  - split; [discriminate | intros (c & H & _); discriminate H].
  - rewrite andb_true_iff, IH1, IH2. split.
    + intros [H1 H2]. exists "", "". auto.
    + intros (s1 & s2 & Hs & H1 & H2). symmetry in Hs.
      apply append_nil_inv in Hs as [-> ->]. auto.
  - rewrite orb_true_iff, IH1, IH2. reflexivity.
  - split; [intros _; constructor | reflexivity].
Qed.

(** A non-empty string of [star L] starts with a non-empty string of [L]. *)
Lemma star_cons_inv (L : string → Prop) (c : ascii) (s : string) :
  star L (String c s) → ∃ s1 s2, s = s1 +:+ s2 ∧ L (String c s1) ∧ star L s2.
Proof.
  intros H. remember (String c s) as t eqn:Ht. revert c s Ht.
  induction H as [|s1 s2 H1 H2 IH]; intros c s Ht; [discriminate Ht|].
  destruct s1 as [|c1 s1].
  - rewrite append_nil_l in Ht. apply IH, Ht.
  - rewrite append_cons in Ht. injection Ht as -> <-. eauto.
Qed.

Lemma derivative_iff (c : ascii) (r : regex) (s : string) :
  lang (derivative c r) s ↔ lang r (String c s).
Proof.
  revert s. induction r as [| |f|r1 IH1 r2 IH2|r1 IH1 r2 IH2|r1 IH1]; intros s; simpl.
  - reflexivity.
  - split; [contradiction | discriminate].
  - destruct (f c) eqn:Hf; simpl.
    + split.
      * intros ->. eauto.
      * intros (c' & Hs & _). injection Hs as _ Hs. exact Hs.
    + split; [contradiction|]. intros (c' & Hs & Hc). injection Hs as -> _. congruence.
  - assert ((∃ s1 s2, s = s1 +:+ s2 ∧ lang (derivative c r1) s1 ∧ lang r2 s2) ↔
            (∃ s1 s2, String c s = String c s1 +:+ s2 ∧ lang r1 (String c s1) ∧ lang r2 s2))
      as Hfirst.
    { split; intros (s1 & s2 & Hs & H1 & H2); exists s1, s2.
      - subst s. rewrite <- IH1, append_cons. auto.
      - rewrite append_cons in Hs. injection Hs as ->. rewrite IH1. auto. }
    destruct (nullable r1) eqn:Hn; simpl.
    + rewrite Hfirst, IH2. split.
      * intros [(s1 & s2 & Hs & H1 & H2) | H2]; [eauto|].
        exists "", (String c s). repeat split; [apply nullable_iff, Hn | exact H2].
      * intros (s1 & s2 & Hs & H1 & H2). destruct s1 as [|c1 s1].
        -- right. rewrite append_nil_l in Hs. rewrite Hs. exact H2.
        -- rewrite append_cons in Hs. injection Hs as <- ->. left.
           exists s1, s2. rewrite append_cons. auto.
    + rewrite Hfirst. split.
      * intros (s1 & s2 & Hs & H1 & H2). eauto.
      * intros (s1 & s2 & Hs & H1 & H2). destruct s1 as [|c1 s1].
        -- apply nullable_iff in H1. congruence.
        -- rewrite append_cons in Hs. injection Hs as <- ->.
           exists s1, s2. rewrite append_cons. auto.
  - rewrite IH1, IH2. reflexivity.
  - split.
    + intros (s1 & s2 & -> & H1 & H2). apply IH1 in H1.
      apply (star_app (lang r1) (String c s1) s2 H1 H2).
    + intros H. apply star_cons_inv in H as (s1 & s2 & -> & H1 & H2).
      exists s1, s2. rewrite IH1. auto.
Qed.

Lemma test_iff (r : regex) (s : string) : test r s = true ↔ lang r s.
Proof.
  revert r. induction s as [|c s IH]; intros r; simpl.
  - apply nullable_iff.
  - rewrite IH. apply derivative_iff.
Qed.

(** A non-empty string whose characters are all of the class. *)
Fixpoint all_chars (accepts : ascii → bool) (s : string) : bool :=
  match s with
  | EmptyString => true
  | String c s' => accepts c && all_chars accepts s'
  end.

Definition word_of (accepts : ascii → bool) (s : string) : Prop :=
  s ≠ "" ∧ all_chars accepts s = true.

Lemma star_class_iff (f : ascii → bool) (s : string) :
  star (lang (Class f)) s ↔ all_chars f s = true.
Proof.
  split.
  - induction 1 as [|s1 s2 (c & -> & Hc) _ IH]; [reflexivity|].
    rewrite append_cons, append_nil_l. simpl. rewrite Hc, IH. reflexivity.
  - induction s as [|c s IH]; simpl; [constructor|].
    rewrite andb_true_iff. intros [Hc Hs].
    apply (star_app (lang (Class f)) (String c "") s); [simpl; eauto | apply IH, Hs].
Qed.

Lemma plus_class_iff (f : ascii → bool) (s : string) :
  lang (Plus (Class f)) s ↔ word_of f s.
Proof.
  unfold word_of. simpl. split.
  - intros (s1 & s2 & -> & (c & -> & Hc) & Hs). apply star_class_iff in Hs.
    rewrite append_cons, append_nil_l. simpl. rewrite Hc, Hs.
    split; [discriminate | reflexivity].
  - intros [Hne Hall]. destruct s as [|c s]; [congruence|]. simpl in Hall.
    apply andb_true_iff in Hall as [Hc Hs].
    exists (String c ""), s. repeat split; [eauto | apply star_class_iff, Hs].
Qed.

Lemma char_class_iff (a : ascii) (s : string) :
  lang (Class (Ascii.eqb a)) s ↔ s = String a "".
Proof.
  simpl. split.
  - intros (c & -> & Hc). apply Ascii.eqb_eq in Hc. congruence.
  - intros ->. exists a. split; [reflexivity | apply Ascii.eqb_refl].
Qed.

(** X18.  The newsletter form accepts an address exactly when it is a local
    part, "@", a domain part, ".", and a last part, each of them non-empty and
    free of white space and of "@".  So an accepted address has no white
    space, exactly one "@", and a "." after it that is neither first nor last
    there. *)
Theorem EMAIL_REGEX_accepts (email0 : string) :
  test Footer.EMAIL_REGEX email0 = true ↔
  ∃ local domain last,
    email0 = local +:+ "@" +:+ domain +:+ "." +:+ last ∧
    word_of Footer.not_space_or_at local ∧
    word_of Footer.not_space_or_at domain ∧
    word_of Footer.not_space_or_at last.
Proof.
  rewrite test_iff. unfold Footer.EMAIL_REGEX.
  change (lang (Seq ?a ?b) ?s) with (∃ s1 s2, s = s1 +:+ s2 ∧ lang a s1 ∧ lang b s2).
  split.
  - intros (local & s2 & -> & Hlocal & at_ & s3 & -> & Hat & domain & s4 & -> & Hdom
            & dot & last & -> & Hdot & Hlast).
    apply char_class_iff in Hat, Hdot. subst at_ dot.
    apply plus_class_iff in Hlocal, Hdom, Hlast.
    exists local, domain, last. auto.
  - intros (local & domain & last & -> & Hlocal & Hdom & Hlast).
    apply plus_class_iff in Hlocal, Hdom, Hlast.
    exists local, ("@" +:+ domain +:+ "." +:+ last). repeat split; [exact Hlocal|].
    exists "@", (domain +:+ "." +:+ last). repeat split; [apply char_class_iff; reflexivity|].
    exists domain, ("." +:+ last). repeat split; [exact Hdom|].
    exists ".", last. repeat split; [apply char_class_iff; reflexivity | exact Hlast].
Qed.

Example EMAIL_REGEX_on_samples :
  test Footer.EMAIL_REGEX "ann@shop.example" = true ∧
  test Footer.EMAIL_REGEX "ann@shop" = false ∧
  test Footer.EMAIL_REGEX "ann@@shop.example" = false ∧
  test Footer.EMAIL_REGEX "ann smith@shop.example" = false ∧
  test Footer.EMAIL_REGEX " ann@shop.example" = false ∧
  test Footer.EMAIL_REGEX "ann@.example" = false ∧
  test Footer.EMAIL_REGEX "ann@shop." = false ∧
  test Footer.EMAIL_REGEX "ann@shop..example" = true ∧
  test Footer.EMAIL_REGEX "" = false.
Proof. repeat split; vm_compute; reflexivity. Qed.

(** ** The newsletter form *)

(** X19.  The form validates before anything else: with an address that
    [EMAIL_REGEX] rejects, the handler ends in the error status with the
    validation message, keeps the address, and makes no request.  Any request
    made carries the address as typed, there is at most one, and when the
    [onSubscribe] prop is given the default endpoint is not contacted. *)
Theorem handleSubmit_validates_first (onSubscribe : option (string → result unit))
    (posted : result Response) (s : Footer.State) :
  (test Footer.EMAIL_REGEX (Footer.email s) = false →
     Footer.handleSubmit onSubscribe posted s
     = ({| Footer.email := Footer.email s;
           Footer.status := Footer.error;
           Footer.message := Some (JString "Please enter a valid email address.") |}, [])) ∧
  (snd (Footer.handleSubmit onSubscribe posted s) ≠ [] →
     test Footer.EMAIL_REGEX (Footer.email s) = true) ∧
  (length (snd (Footer.handleSubmit onSubscribe posted s)) ≤ 1)%nat ∧
  (∀ call, In call (snd (Footer.handleSubmit onSubscribe posted s)) →
     match onSubscribe with
     | Some _ => call = Footer.CallOnSubscribe (Footer.email s)
     | None => call = Footer.PostNewsletter (Footer.email s)
     end).
Proof.
  unfold Footer.handleSubmit. cbv zeta. simpl.
  destruct (test Footer.EMAIL_REGEX (Footer.email s)) eqn:Htest; simpl.
  - split; [discriminate|]. split; [reflexivity|].
    destruct onSubscribe as [callback|];
      [ destruct (callback (Footer.email s))
      | destruct posted as [res|e];
        [destruct (ok res); [|destruct (json_body res) as [[]|e]] |] ];
      simpl; (split; [lia | intros call [<- | []]; reflexivity]).
  - split; [reflexivity|]. split; [simpl; congruence|]. split; [simpl; lia|].
    intros call [].
Qed.

Ltac outcome_simple :=
  split; [auto|];
  split; [discriminate|];
  split; [first [intros; reflexivity | intros; discriminate]|];
  split; [first [intros; reflexivity | intros; discriminate]|];
  let Hres := fresh in
  intros ? ? ? Hres ?; try discriminate; try (injection Hres as <-; congruence).

(** X20.  However the submission goes, the handler ends in the success or in
    the error status (never loading or idle) and with a message; the field is
    emptied exactly on success and keeps the address on every error.  When
    the server answers with a failure, the message shown is the [message] of
    its JSON body if that is truthy, and the generic one otherwise (also when
    the body is not JSON). *)
Theorem handleSubmit_outcomes (onSubscribe : option (string → result unit))
    (posted : result Response) (s : Footer.State) :
  let s' := fst (Footer.handleSubmit onSubscribe posted s) in
  (Footer.status s' = Footer.success ∨ Footer.status s' = Footer.error) ∧
  Footer.message s' ≠ None ∧
  (Footer.status s' = Footer.success → Footer.email s' = "") ∧
  (Footer.status s' = Footer.error → Footer.email s' = Footer.email s) ∧
  (∀ res, test Footer.EMAIL_REGEX (Footer.email s) = true → onSubscribe = None →
     posted = Ok res → ok res = false →
     Footer.status s' = Footer.error ∧
     ∃ m, (match json_body res with
           | Ok JNull | Throw _ => m = None
           | Ok body => get body "message" = Ok m
           end) ∧
          Footer.message s'
          = if Footer.truthy_value m then m
            else Some (JString
                   "Something went wrong while subscribing. Please try again later.")).
Proof.
  cbv zeta. unfold Footer.handleSubmit. cbv zeta. simpl.
  destruct (test Footer.EMAIL_REGEX (Footer.email s)) eqn:Htest; simpl.
  - destruct onSubscribe as [callback|].
    + destruct (callback (Footer.email s)); simpl; outcome_simple.
    + destruct posted as [res|e]; simpl; [|outcome_simple].
      destruct (ok res) eqn:Hok; simpl; [outcome_simple|].
      assert (∃ m, (match json_body res with
                    | Ok JNull | Throw _ => m = None
                    | Ok body => get body "message" = Ok m
                    end) ∧
                   match match json_body res with
                         | Ok body => body
                         | Throw _ => JNull
                         end with
                   | JNull => Ok None
                   | _ => get match json_body res with
                              | Ok body => body
                              | Throw _ => JNull
                              end "message"
                   end = Ok m) as (m & Hm & ->).
      { destruct (json_body res) as [[]|e]; simpl; eauto. }
      simpl. split; [auto|]. split; [|split; [intros; discriminate|split; [auto|]]].
      * destruct (Footer.truthy_value m) eqn:Hm'; [|discriminate].
        intros ->. discriminate Hm'.
      * intros res' _ _ Hres _. injection Hres as <-. eauto.
  - outcome_simple.
Qed.

Example handleSubmit_on_samples :
  Footer.handleSubmit None
    (Ok {| ok := false;
           json_body := Ok (JObject [("message", JString "Already subscribed.")]) |})
    {| Footer.email := "ann@shop.example"; Footer.status := Footer.idle;
       Footer.message := None |}
  = ({| Footer.email := "ann@shop.example"; Footer.status := Footer.error;
        Footer.message := Some (JString "Already subscribed.") |},
     [Footer.PostNewsletter "ann@shop.example"]) ∧
  Footer.handleSubmit (Some (λ _, Throw (Error "declined")))
    (Ok {| ok := true; json_body := Ok JNull |})
    {| Footer.email := "ann@shop.example"; Footer.status := Footer.idle;
       Footer.message := None |}
  = ({| Footer.email := "ann@shop.example"; Footer.status := Footer.error;
        Footer.message := Some (JString "Network error. Please try again later.") |},
     [Footer.CallOnSubscribe "ann@shop.example"]).
Proof. split; vm_compute; reflexivity. Qed.

(** ** The header's search form *)

Definition first_char (s : string) : option ascii :=
  match s with
  | EmptyString => None
  | String c _ => Some c
  end.

Fixpoint last_char (s : string) : option ascii :=
  match s with
  | EmptyString => None
  | String c EmptyString => Some c
  | String _ s' => last_char s'
  end.

Lemma trimStart_first (s : string) (c : ascii) :
  first_char (trimStart s) = Some c → is_space c = false.
Proof.
  induction s as [|a s IH]; simpl; [discriminate|].
  destruct (is_space a) eqn:Ha; [exact IH|]. simpl. congruence.
Qed.

Lemma trimEnd_first (s : string) (c : ascii) :
  first_char (trimEnd s) = Some c → first_char s = Some c.
Proof.
  destruct s as [|a s]; simpl; [auto|].
  destruct (trimEnd s); [destruct (is_space a)|]; simpl; congruence.
Qed.

Lemma trimEnd_last (s : string) (c : ascii) :
  last_char (trimEnd s) = Some c → is_space c = false.
Proof.
  induction s as [|a s IH]; simpl; [discriminate|].
  destruct (trimEnd s) as [|b t] eqn:Ht.
  - destruct (is_space a) eqn:Ha; simpl; congruence.
  - simpl. exact IH.
Qed.

(** The query has no white space at either end. *)
Definition tight (q : string) : Prop :=
  (∀ c, first_char q = Some c → is_space c = false) ∧
  (∀ c, last_char q = Some c → is_space c = false).

Lemma trim_tight (s : string) : tight (trim s).
Proof.
  unfold tight, trim. split; intros c Hc.
  - apply (trimStart_first s), trimEnd_first, Hc.
  - apply (trimEnd_last (trimStart s)), Hc.
Qed.

(** The text of the "mug & co" search with a lone surrogate (U+D83D, the
    bytes ED A0 BD) at its end. *)
Definition lone_surrogate_text : string :=
  "mug" +:+ String (ascii_of_nat 237) (String (ascii_of_nat 160) (String (ascii_of_nat 189) "")).

(** X21.  A search submission with a blank text (empty, or white space only)
    does nothing at all: no navigation, no call, and the mobile menu stays as
    it is.  With the [onSearch] handler given, any other submission calls it
    with the trimmed text, closes the mobile menu and keeps the text in the
    field; without the handler it sends the router to [/search?q=] followed
    by the encoded trimmed text, closes the mobile menu and keeps the text.
    The menu is not closed when the handler throws, nor when the trimmed text
    holds a lone surrogate: the submission then ends in the handler's
    exception, or in a URIError with no navigation.  The trimmed text handed
    on is not empty and has no white space at either end. *)
Theorem handleSearchSubmit_trims (onSearch : option (string → result unit))
    (s : Header.State) :
  (trim (Header.searchValue s) = "" → Header.handleSearchSubmit onSearch s = Ok (s, [])) ∧
  (trim (Header.searchValue s) ≠ "" →
     (∀ callback, onSearch = Some callback →
        (callback (trim (Header.searchValue s)) = Ok tt →
           Header.handleSearchSubmit onSearch s
           = Ok ({| Header.mobileMenuOpen := false;
                    Header.profileMenuOpen := Header.profileMenuOpen s;
                    Header.searchValue := Header.searchValue s |},
                 [Header.OnSearch (trim (Header.searchValue s))])) ∧
        (∀ e, callback (trim (Header.searchValue s)) = Throw e →
              Header.handleSearchSubmit onSearch s = Throw e)) ∧
     (onSearch = None →
        (Header.has_lone_surrogate (trim (Header.searchValue s)) = false →
           Header.handleSearchSubmit onSearch s
           = Ok ({| Header.mobileMenuOpen := false;
                    Header.profileMenuOpen := Header.profileMenuOpen s;
                    Header.searchValue := Header.searchValue s |},
                 [Header.RouterPush
                    ("/search?q=" +:+ Header.Encode (trim (Header.searchValue s)))])) ∧
        (Header.has_lone_surrogate (trim (Header.searchValue s)) = true →
           Header.handleSearchSubmit onSearch s = Throw URIError))) ∧
  tight (trim (Header.searchValue s)).
Proof.
  unfold Header.handleSearchSubmit, Header.encodeURIComponent. cbv zeta. split; [|split].
  - intros ->. reflexivity.
  - intros Hq. apply truthy_iff in Hq. rewrite Hq. simpl. split.
    + intros callback ->. split; [intros -> | intros e ->]; reflexivity.
    + intros ->. split; intros ->; reflexivity.
  - apply trim_tight.
Qed.

Lemma handleSearchSubmit_trims_witness :
  Header.handleSearchSubmit None
    {| Header.mobileMenuOpen := true; Header.profileMenuOpen := false;
       Header.searchValue := "  mug & co " |}
  = Ok ({| Header.mobileMenuOpen := false; Header.profileMenuOpen := false;
           Header.searchValue := "  mug & co " |},
        [Header.RouterPush "/search?q=mug%20%26%20co"]) ∧
  Header.handleSearchSubmit None
    {| Header.mobileMenuOpen := true; Header.profileMenuOpen := false;
       Header.searchValue := lone_surrogate_text |}
  = Throw URIError.
Proof.
  split.
  - refine (proj1 (proj2 (proj1 (proj2 (handleSearchSubmit_trims None
              {| Header.mobileMenuOpen := true; Header.profileMenuOpen := false;
                 Header.searchValue := "  mug & co " |})) _) eq_refl) _).
    + vm_compute. discriminate.
    + vm_compute. reflexivity.
  - refine (proj2 (proj2 (proj1 (proj2 (handleSearchSubmit_trims None
              {| Header.mobileMenuOpen := true; Header.profileMenuOpen := false;
                 Header.searchValue := lone_surrogate_text |})) _) eq_refl) _).
    + vm_compute. discriminate.
    + vm_compute. reflexivity.
Defined.

(** The value of a hexadecimal digit. *)
Definition hex_value (c : ascii) : option nat :=
  let n := nat_of_ascii c in
  if ((48 <=? n) && (n <=? 57))%nat then Some (n - 48)%nat
  else if ((65 <=? n) && (n <=? 70))%nat then Some (n - 55)%nat
  else None.

(** Reading an encoded component back: [%XX] is the byte [XX], every other
    character is itself. *)
Fixpoint decode (s : string) : option string :=
  match s with
  | EmptyString => Some EmptyString
  | String c rest =>
      if Ascii.eqb c "%" then
        match rest with
        | String h (String l rest') =>
            match hex_value h, hex_value l, decode rest' with
            | Some x, Some y, Some t => Some (String (ascii_of_nat (16 * x + y)) t)
            | _, _, _ => None
            end
        | _ => None
        end
      else
        match decode rest with
        | Some t => Some (String c t)
        | None => None
        end
  end.

(** A character that may stand in an encoded component. *)
Definition url_safe (c : ascii) : bool :=
  Header.unreserved c || Ascii.eqb c "%".

Lemma hex_round_trip (c : ascii) :
  hex_value (Header.hex_digit (nat_of_ascii c / 16)) = Some (nat_of_ascii c / 16)%nat ∧
  hex_value (Header.hex_digit (nat_of_ascii c mod 16)) = Some (nat_of_ascii c mod 16)%nat ∧
  ascii_of_nat (16 * (nat_of_ascii c / 16) + nat_of_ascii c mod 16) = c ∧
  url_safe (Header.hex_digit (nat_of_ascii c / 16)) = true ∧
  url_safe (Header.hex_digit (nat_of_ascii c mod 16)) = true.
Proof.
  destruct c as [[] [] [] [] [] [] [] []]; vm_compute; repeat split.
Qed.

Lemma unreserved_not_percent (c : ascii) :
  Header.unreserved c = true → Ascii.eqb c "%" = false.
Proof.
  destruct (Ascii.eqb c "%") eqn:Hc; [|reflexivity].
  apply Ascii.eqb_eq in Hc. subst c. vm_compute. auto.
Qed.

Lemma encode_cons (c : ascii) (q : string) :
  Header.Encode (String c q)
  = if Header.unreserved c then String c (Header.Encode q)
    else String "%" (String (Header.hex_digit (nat_of_ascii c / 16))
                       (String (Header.hex_digit (nat_of_ascii c mod 16))
                          (Header.Encode q))).
Proof. reflexivity. Qed.

Lemma decode_percent (h l : ascii) (rest : string) :
  decode (String "%" (String h (String l rest)))
  = match hex_value h, hex_value l, decode rest with
    | Some x, Some y, Some t => Some (String (ascii_of_nat (16 * x + y)) t)
    | _, _, _ => None
    end.
Proof. reflexivity. Qed.

Lemma decode_plain (c : ascii) (rest : string) :
  Ascii.eqb c "%" = false →
  decode (String c rest) = match decode rest with
                           | Some t => Some (String c t)
                           | None => None
                           end.
Proof. intros H. simpl. rewrite H. reflexivity. Qed.

Lemma decode_encode (q : string) : decode (Header.Encode q) = Some q.
Proof.
  induction q as [|c q IH]; [reflexivity|].
  rewrite encode_cons. destruct (Header.unreserved c) eqn:Hc.
  - rewrite (decode_plain c _ (unreserved_not_percent c Hc)), IH. reflexivity.
  - destruct (hex_round_trip c) as (Hh & Hl & Hc' & _).
    rewrite decode_percent, Hh, Hl, IH, Hc'. reflexivity.
Qed.

Lemma encode_safe (q : string) : all_chars url_safe (Header.Encode q) = true.
Proof.
  induction q as [|c q IH]; [reflexivity|].
  rewrite encode_cons. destruct (Header.unreserved c) eqn:Hc.
  - simpl. unfold url_safe at 1. rewrite Hc, IH. reflexivity.
  - destruct (hex_round_trip c) as (_ & _ & _ & Hh & Hl).
    cbn [all_chars]. rewrite Hh, Hl, IH. reflexivity.
Qed.

(** X22.  The URL a search navigates to is [/search?q=] followed by a
    component made only of unreserved characters and [%XX] escapes (so no
    space, "&", "=", "#", "?" or "/" of the text can leak into the URL), and
    the trimmed text can be read back from it: two submissions navigate to
    the same URL only if their trimmed texts are equal. *)
Theorem search_url_is_safe_and_exact (s1 s2 : Header.State) (url : string)
    (done1 done2 : Header.State * list Header.Effect) :
  Header.handleSearchSubmit None s1 = Ok done1 → In (Header.RouterPush url) (snd done1) →
  (∃ component,
     url = "/search?q=" +:+ component ∧
     all_chars url_safe component = true ∧
     decode component = Some (trim (Header.searchValue s1))) ∧
  (Header.handleSearchSubmit None s2 = Ok done2 → In (Header.RouterPush url) (snd done2) →
   trim (Header.searchValue s1) = trim (Header.searchValue s2)).
Proof.
  assert (∀ s done, Header.handleSearchSubmit None s = Ok done →
                    In (Header.RouterPush url) (snd done) →
                    url = "/search?q=" +:+ Header.Encode (trim (Header.searchValue s)))
    as Hurl.
  { intros s done. unfold Header.handleSearchSubmit, Header.encodeURIComponent. cbv zeta.
    destruct (truthy (trim (Header.searchValue s))); simpl.
    - destruct (Header.has_lone_surrogate (trim (Header.searchValue s))); simpl;
        [discriminate|].
      intros Hdone. injection Hdone as <-. simpl. intros [H | []]. congruence.
    - intros Hdone. injection Hdone as <-. intros []. }
  intros Hdone1 H1. split.
  - exists (Header.Encode (trim (Header.searchValue s1))).
    split; [apply (Hurl s1 done1); assumption|]. split; [apply encode_safe | apply decode_encode].
  - intros Hdone2 H2. apply (Hurl s1 done1 Hdone1) in H1. apply (Hurl s2 done2 Hdone2) in H2.
    rewrite H1 in H2.
    apply String.app_inj in H2.
    apply (f_equal decode) in H2. rewrite !decode_encode in H2. congruence.
Qed.

Lemma search_url_is_safe_and_exact_witness :
  ∃ component,
    "/search?q=mug%20%26%20co" = "/search?q=" +:+ component ∧
    all_chars url_safe component = true ∧
    decode component = Some "mug & co".
Proof.
  refine (proj1 (search_url_is_safe_and_exact
            {| Header.mobileMenuOpen := true; Header.profileMenuOpen := false;
               Header.searchValue := "  mug & co " |}
            {| Header.mobileMenuOpen := true; Header.profileMenuOpen := false;
               Header.searchValue := "mug & co" |}
            "/search?q=mug%20%26%20co"
            ({| Header.mobileMenuOpen := false; Header.profileMenuOpen := false;
                Header.searchValue := "  mug & co " |},
             [Header.RouterPush "/search?q=mug%20%26%20co"])
            ({| Header.mobileMenuOpen := false; Header.profileMenuOpen := false;
                Header.searchValue := "mug & co" |},
             [Header.RouterPush "/search?q=mug%20%26%20co"])
            _ _)).
  - vm_compute. reflexivity.
  - vm_compute. left. reflexivity.
Defined.
